(** * codex-lb: account pool and request router

    A shallow embedding of the parts of the proxy that its specification
    makes checkable statements about, followed by the statements themselves.

    Part I holds the definitions, one module per source file:
    - [PyStr]       the Python [str] operations the sources call
    - [Json]        [app/core/types.py] ([JsonValue], [JsonObject])
    - [PlanTypes]   [app/core/plan_types.py]
    - [OAuth]       [app/core/clients/oauth.py]
    - [Requests]    [app/core/openai/requests.py]
    - [AuthManager] [app/modules/accounts/auth_manager.py]
    - [ProxyHelpers] [app/modules/proxy/helpers.py]
    - [Balancer]    [app/core/balancer] (selection)
    - [Migration]   [app/db/migrations/versions/normalize_account_plan_types.py]
    - [UsageRepository] [app/modules/usage/repository.py]
    - [UsageUpdater] [app/modules/usage/updater.py]

    Part II holds the theorems, in modules named after the property. *)

From Stdlib Require Import ZArith QArith Qround Qabs Qminmax Qpower String Ascii List Lia Lqa.
From Stdlib Require Import DecimalString DecimalPos.
From Stdlib.Strings Require Import Byte.
From Stdlib Require Import Sorted Permutation.
From stdpp Require Import gmap strings list fin_maps.

Set Warnings "-register-all".
Set Default Proof Using "Type".

Local Open Scope string_scope.

(* ===================================================================== *)
(** * Part I: definitions                                                 *)
(* ===================================================================== *)

(** ** Python strings

    A Python [str] is a sequence of code points.  The embedding keeps the
    code points U+0000..U+00FF, one per [ascii]; on that range the
    functions below are the ones CPython computes. *)
Module PyStr.

(** [str.isspace] on one code point: TAB..CR, FS..US, SPACE, NEL, NBSP. *)
Definition isspace (c : ascii) : bool :=
  let n := N_of_ascii c in
  ((9 <=? n) && (n <=? 13) || (28 <=? n) && (n <=? 32)
   || (n =? 133) || (n =? 160))%N.

(** [str.lower] on one code point: A..Z, and the Latin-1 capitals
    U+00C0..U+00DE without the multiplication sign U+00D7. *)
Definition lower_char (c : ascii) : ascii :=
  let n := N_of_ascii c in
  if ((65 <=? n) && (n <=? 90)
      || (192 <=? n) && (n <=? 222) && negb (n =? 215))%N
  then ascii_of_N (n + 32) else c.

Fixpoint lower (s : string) : string :=
  match s with
  | EmptyString => EmptyString
  | String c r => String (lower_char c) (lower r)
  end.

Fixpoint all_space (s : string) : bool :=
  match s with
  | EmptyString => true
  | String c r => isspace c && all_space r
  end.

Fixpoint lstrip (s : string) : string :=
  match s with
  | EmptyString => EmptyString
  | String c r => if isspace c then lstrip r else s
  end.

Fixpoint rstrip (s : string) : string :=
  match s with
  | EmptyString => EmptyString
  | String c r =>
      match rstrip r with
      | EmptyString => if isspace c then EmptyString else String c EmptyString
      | r' => String c r'
      end
  end.

(** [s.strip()] *)
Definition strip (s : string) : string := rstrip (lstrip s).

(** [s.rstrip(ch)] for a one-character argument. *)
Fixpoint rstrip_char (ch : ascii) (s : string) : string :=
  match s with
  | EmptyString => EmptyString
  | String c r =>
      match rstrip_char ch r with
      | EmptyString => if Ascii.eqb c ch then EmptyString else String c EmptyString
      | r' => String c r'
      end
  end.

(** [sep.join(parts)] *)
Fixpoint join (sep : string) (parts : list string) : string :=
  match parts with
  | [] => ""
  | [p] => p
  | p :: ps => p +:+ sep +:+ join sep ps
  end.

(** [s.split()]: the maximal runs of non-space code points, in order.
    [cur] is the run being read. *)
Fixpoint split_go (cur : option string) (s : string) : list string :=
  match s with
  | EmptyString => match cur with Some w => [String.rev w] | None => [] end
  | String c r =>
      if isspace c
      then match cur with
           | Some w => String.rev w :: split_go None r
           | None => split_go None r
           end
      else split_go (Some (String c (default "" cur))) r
  end.

Definition split (s : string) : list string := split_go None s.

(** Truth value of a [str]: non-empty. *)
Definition truthy (s : string) : bool :=
  match s with EmptyString => false | _ => true end.

(** Truth value of a [str | None]. *)
Definition truthy_opt (o : option string) : bool :=
  match o with Some s => truthy s | None => false end.

(** [a or b] on [str | None] operands. *)
Definition or_else (a b : option string) : option string :=
  if truthy_opt a then a else b.

End PyStr.

(** ** Python numbers

    [int] is [Z].  A [float] is a rational, or one of the three values
    that are not: both infinities and NaN.  Comparisons and [min]/[max]
    are written out as CPython evaluates them, so that a NaN operand
    takes the branch it takes there.  Arithmetic is that of IEEE 754
    doubles: the exact result, rounded to the nearest double with ties to
    even, and an infinity beyond the largest one.  The sign of a zero is
    not kept. *)
Module PyNum.

Inductive float : Type :=
| Fin (q : Q)
| PInf
| NInf
| NaN.

(** [a < b] *)
Definition lt (a b : float) : bool :=
  match a, b with
  | NaN, _ | _, NaN => false
  | Fin x, Fin y => negb (Qle_bool y x)
  | NInf, (Fin _ | PInf) => true
  | Fin _, PInf => true
  | _, _ => false
  end.

(** [min(a, b)]: the first argument unless the second is smaller. *)
Definition min (a b : float) : float := if lt b a then b else a.

(** [max(a, b)]: the first argument unless the second is greater. *)
Definition max (a b : float) : float := if lt a b then b else a.

(** Nearest integer, ties to even. *)
Definition round_half_even (x : Q) : Z :=
  let f := Qfloor x in
  match (x - inject_Z f ?= 1 # 2)%Q with
  | Lt => f
  | Gt => (f + 1)%Z
  | Eq => if Z.even f then f else (f + 1)%Z
  end.

(** The [k] with [2^k <= a < 2^(k+1)], for a positive rational. *)
Definition ilog2 (a : Q) : Z :=
  if Qle_bool 1 a then Z.log2 (Qfloor a)
  else (- Z.log2_up (Qceiling (/ a)))%Z.

(** The double nearest to a rational: 53 significant bits, the exponent
    of the last one no lower than -1074, ties to even, and an infinity
    from [2^1024] on. *)
Definition round_double (q : Q) : float :=
  if Qeq_bool q 0 then Fin 0
  else
    let a := Qabs q in
    let e := Z.max (ilog2 a - 52) (-1074) in
    let m := round_half_even (a / 2 ^ e)%Q in
    let r := (inject_Z m * 2 ^ e)%Q in
    if Qle_bool (2 ^ 1024)%Q r then (if Qle_bool 0 q then PInf else NInf)
    else Fin (if Qle_bool 0 q then r else - r).

(** [a + b] *)
Definition add (a b : float) : float :=
  match a, b with
  | NaN, _ | _, NaN => NaN
  | Fin x, Fin y => round_double (x + y)
  | PInf, NInf | NInf, PInf => NaN
  | PInf, _ | _, PInf => PInf
  | NInf, _ | _, NInf => NInf
  end.

(** [- a] *)
Definition neg (a : float) : float :=
  match a with
  | Fin x => Fin (- x)
  | PInf => NInf
  | NInf => PInf
  | NaN => NaN
  end.

(** [a - b] *)
Definition sub (a b : float) : float := add a (neg b).

(** [abs(a)] *)
Definition abs (a : float) : float :=
  match a with
  | Fin x => Fin (Qabs x)
  | PInf | NInf => PInf
  | NaN => NaN
  end.

(** [a >= b] *)
Definition ge (a b : float) : bool :=
  match a, b with
  | NaN, _ | _, NaN => false
  | Fin x, Fin y => Qle_bool y x
  | PInf, _ => true
  | _, NInf => true
  | _, _ => false
  end.

(** [a / n] for a positive [int] divisor below [2^53], which converts to
    a double as it is. *)
Definition div_pos (a : float) (n : positive) : float :=
  match a with
  | Fin x => round_double (x / inject_Z (Zpos n))
  | other => other
  end.

(** [int(q)] on a rational: truncation toward zero. *)
Definition Qtrunc (q : Q) : Z :=
  if Qle_bool 0 q then Qfloor q else Qceiling q.

(** [int(a)]: [None] stands for the [OverflowError] / [ValueError]
    raised on an infinity or a NaN. *)
Definition to_int (a : float) : option Z :=
  match a with
  | Fin q => Some (Qtrunc q)
  | _ => None
  end.

(** Truth value of a [float]. *)
Definition truthy (a : float) : bool :=
  match a with
  | Fin q => negb (Qeq_bool q 0)
  | _ => true
  end.

(** [str(n)] for an [int]. *)
Definition str_of_int (n : Z) : string :=
  NilEmpty.string_of_int (Z.to_int n).

Definition digit_char (d : Z) : ascii := ascii_of_N (48 + Z.to_N d).

(** The last [d] decimal digits of [r], zero-padded on the left. *)
Fixpoint frac_digits (d : nat) (r : Z) : string :=
  match d with
  | O => ""
  | S d' => frac_digits d' (r / 10) +:+ String (digit_char (r mod 10)) ""
  end.

(** [f"{q:.{d}f}"] on a rational. *)
Definition format_fixed_Q (d : nat) (q : Q) : string :=
  let scale := (10 ^ Z.of_nat d)%Z in
  let r := round_half_even (Qabs q * inject_Z scale) in
  let sign := if Qle_bool 0 q then "" else "-" in
  let whole := NilEmpty.string_of_int (Z.to_int (r / scale)) in
  match d with
  | O => sign +:+ whole
  | _ => sign +:+ whole +:+ "." +:+ frac_digits d (r mod scale)
  end.

(** [f"{a:.{d}f}"] *)
Definition format_fixed (d : nat) (a : float) : string :=
  match a with
  | Fin q => format_fixed_Q d q
  | PInf => "inf"
  | NInf => "-inf"
  | NaN => "nan"
  end.

End PyNum.

(** ** [app/core/types.py]: JSON values as Python holds them *)
Module Json.

Inductive JsonValue : Type :=
| JNull
| JBool (b : bool)
| JInt (z : Z)
| JFloat (x : PyNum.float)
| JStr (s : string)
| JList (l : list JsonValue)
| JObj (m : gmap string JsonValue).

Abbreviation JsonObject := (gmap string JsonValue).

(** [d.get(k)]: an absent key reads as [None]. *)
Definition get (k : string) (d : JsonObject) : JsonValue :=
  default JNull (d !! k).

(** [d.pop(k, None)], the value dropped. *)
Definition pop (k : string) (d : JsonObject) : JsonObject := delete k d.

(** Truth value of a JSON value. *)
Definition truthy (v : JsonValue) : bool :=
  match v with
  | JNull => false
  | JBool b => b
  | JInt z => negb (z =? 0)%Z
  | JFloat x => PyNum.truthy x
  | JStr s => PyStr.truthy s
  | JList l => match l with [] => false | _ => true end
  | JObj m => match map_to_list m with [] => false | _ => true end
  end.

(** [a or b] *)
Definition or_else (a b : JsonValue) : JsonValue :=
  if truthy a then a else b.

(** [v if isinstance(v, str) else None] *)
Definition as_str (v : JsonValue) : option string :=
  match v with JStr s => Some s | _ => None end.

End Json.

(** ** [app/core/plan_types.py] *)
Module PlanTypes.
Import PyStr.

Definition ACCOUNT_PLAN_TYPES : gset string :=
  list_to_set ["free"; "plus"; "pro"; "team"; "business"; "enterprise"; "edu"].

Definition RATE_LIMIT_PLAN_TYPES : gset string :=
  ACCOUNT_PLAN_TYPES ∪
  list_to_set ["guest"; "go"; "free_workspace"; "education"; "quorum"; "k12"].

Definition _clean_plan_type (value : option string) : option string :=
  match value with
  | None => None
  | Some v =>
      let cleaned := strip v in
      if truthy cleaned then Some cleaned else None
  end.

Definition normalize_account_plan_type (value : option string) : option string :=
  match _clean_plan_type value with
  | None => None
  | Some cleaned =>
      if negb (truthy cleaned) then None
      else
        let normalized := lower cleaned in
        if bool_decide (normalized ∈ ACCOUNT_PLAN_TYPES)
        then Some normalized else None
  end.

Definition canonicalize_account_plan_type (value : option string) : option string :=
  match _clean_plan_type value with
  | None => None
  | Some cleaned =>
      if negb (truthy cleaned) then None
      else
        let normalized := lower cleaned in
        if bool_decide (normalized ∈ ACCOUNT_PLAN_TYPES)
        then Some normalized else Some cleaned
  end.

Definition coerce_account_plan_type (value : option string) (default : string) : string :=
  match _clean_plan_type value with
  | None => default
  | Some cleaned =>
      match canonicalize_account_plan_type (Some cleaned) with
      | Some canonical => canonical
      | None => default
      end
  end.

Definition normalize_rate_limit_plan_type (value : option string) : option string :=
  match _clean_plan_type value with
  | None => None
  | Some cleaned =>
      if negb (truthy cleaned) then None
      else
        let normalized := lower cleaned in
        if bool_decide (normalized ∈ RATE_LIMIT_PLAN_TYPES)
        then Some normalized else None
  end.

End PlanTypes.

(** ** [app/core/clients/oauth.py] *)
Module OAuth.
Import Json.

Module DeviceCode.
Record t : Type := mk {
  verification_url : string;
  user_code : string;
  device_auth_id : string;
  interval_seconds : Z;
  expires_in_seconds : Z;
}.
End DeviceCode.

Module OAuthTokens.
Record t : Type := mk {
  access_token : string;
  refresh_token : string;
  id_token : string;
}.
End OAuthTokens.

Module OAuthError.
Record t : Type := mk {
  code : string;
  message : string;
  status_code : option Z;
}.
End OAuthError.

Module OAuthTokenPayload.
(** Modelled from the spec: [app.core.auth.models.OAuthTokenPayload], whose
    declaration is missing; section 4.B (error parsing) names its error
    fields, and the fields below are the ones this file reads.  An
    instance is what its [model_validate] hands back. *)
Record t : Type := mk {
  access_token : option string;
  refresh_token : option string;
  id_token : option string;
  authorization_code : option string;
  code_verifier : option string;
  error : JsonValue;
  error_description : option string;
  error_code : option string;
  code : option string;
  message : option string;
  status : option string;
}.
End OAuthTokenPayload.

Module DeviceCodePayload.
(** Modelled from the spec: [app.core.auth.models.DeviceCodePayload], whose
    declaration is missing; the fields are those of the device-code
    record of section 3 as this file reads them. *)
Record t : Type := mk {
  user_code : option string;
  device_auth_id : option string;
  interval : option Z;
  expires_in : option Z;
  expires_at : option string;
}.
End DeviceCodePayload.

Module Settings.
(** Modelled from the spec: the settings object of
    [app.core.config.settings], whose declaration is missing, reduced to
    the options of section 6 that this file reads. *)
Record t : Type := mk {
  auth_base_url : string;
  oauth_client_id : string;
  oauth_redirect_uri : string;
  oauth_scope : string;
}.
End Settings.

(** What a function hands to its caller: a value, or a raised
    [OAuthError]. *)
Inductive outcome (A : Type) : Type :=
| Return (a : A)
| Raise (e : OAuthError.t).
Arguments Return {A} a.
Arguments Raise {A} e.

(** *** URL encoding ([urllib.parse.quote] with [safe=''], [urlencode]) *)

Definition hex_digit (n : N) : ascii :=
  if (n <? 10)%N then ascii_of_N (48 + n) else ascii_of_N (55 + n).

Definition percent_byte (b : N) : string :=
  String "%" (String (hex_digit (b / 16)) (String (hex_digit (b mod 16)) "")).

Definition unreserved (c : ascii) : bool :=
  let n := N_of_ascii c in
  ((48 <=? n) && (n <=? 57) || (65 <=? n) && (n <=? 90)
   || (97 <=? n) && (n <=? 122)
   || (n =? 45) || (n =? 46) || (n =? 95) || (n =? 126))%N.

(** One code point, percent-encoded through its UTF-8 bytes. *)
Definition quote_char (c : ascii) : string :=
  let n := N_of_ascii c in
  if unreserved c then String c ""
  else if (n <? 128)%N then percent_byte n
  else percent_byte (192 + n / 64) +:+ percent_byte (128 + n mod 64).

Fixpoint quote (s : string) : string :=
  match s with
  | EmptyString => EmptyString
  | String c r => quote_char c +:+ quote r
  end.

Definition urlencode (params : list (string * string)) : string :=
  PyStr.join "&" (map (fun kv => quote kv.1 +:+ "=" +:+ quote kv.2) params).

(** *** Authorization URL *)

Definition _ensure_offline_access (scope : string) : string :=
  if bool_decide ("offline_access" ∈ PyStr.split scope) then scope
  else scope +:+ " offline_access".

(** [x or fallback] where [x : str | None] and [fallback : str]. *)
Definition or_str (x : option string) (fallback : string) : string :=
  match x with
  | Some s => if PyStr.truthy s then s else fallback
  | None => fallback
  end.

Section authorization_url.
Variable settings : Settings.t.

Definition auth_base (base_url : option string) : string :=
  PyStr.rstrip_char "/" (or_str base_url (Settings.auth_base_url settings)).

Definition authorization_scope (scope : option string) : string :=
  match scope with
  | Some s =>
      if PyStr.truthy s then s
      else _ensure_offline_access (Settings.oauth_scope settings)
  | None => _ensure_offline_access (Settings.oauth_scope settings)
  end.

(** The [params] dict of [build_authorization_url], in insertion order. *)
Definition authorization_params
    (state code_challenge : string)
    (client_id redirect_uri scope : option string) : list (string * string) :=
  [ ("response_type", "code");
    ("client_id", or_str client_id (Settings.oauth_client_id settings));
    ("redirect_uri", or_str redirect_uri (Settings.oauth_redirect_uri settings));
    ("scope", authorization_scope scope);
    ("code_challenge", code_challenge);
    ("code_challenge_method", "S256");
    ("state", state);
    ("id_token_add_organizations", "true");
    ("codex_cli_simplified_flow", "true");
    ("originator", "codex_cli_rs") ].

Definition build_authorization_url
    (state code_challenge : string)
    (base_url client_id redirect_uri scope : option string) : string :=
  let params :=
    authorization_params state code_challenge client_id redirect_uri scope in
  let query := urlencode params in
  auth_base base_url +:+ "/oauth/authorize?" +:+ query.
End authorization_url.

(** *** Error payloads *)

Definition _extract_error_code (payload : OAuthTokenPayload.t) : option string :=
  match OAuthTokenPayload.error payload with
  | JObj error => as_str (or_else (get "code" error) (get "error" error))
  | JStr error => Some error
  | _ => PyStr.or_else (OAuthTokenPayload.error_code payload)
                       (OAuthTokenPayload.code payload)
  end.

Definition _extract_error_message (payload : OAuthTokenPayload.t) : option string :=
  match OAuthTokenPayload.error payload with
  | JObj error => as_str (or_else (get "message" error) (get "error_description" error))
  | JStr error =>
      PyStr.or_else (OAuthTokenPayload.error_description payload) (Some error)
  | _ => OAuthTokenPayload.message payload
  end.

Definition _oauth_error_from_payload
    (payload : OAuthTokenPayload.t) (status_code : Z) : OAuthError.t :=
  let code :=
    or_str (_extract_error_code payload) ("http_" +:+ PyNum.str_of_int status_code) in
  let message :=
    or_str (_extract_error_message payload)
           ("OAuth request failed (" +:+ PyNum.str_of_int status_code +:+ ")") in
  OAuthError.mk code message (Some status_code).

Definition _is_pending_error (payload : OAuthTokenPayload.t) : bool :=
  let code := _extract_error_code payload in
  if match code with
     | Some c => bool_decide (c ∈ ["authorization_pending"; "slow_down"])
     | None => false
     end
  then true
  else
    match OAuthTokenPayload.status payload with
    | Some status =>
        PyStr.truthy status
        && bool_decide (PyStr.lower status ∈ ["pending"; "authorization_pending"])
    | None => false
    end.

Definition _parse_tokens (payload : OAuthTokenPayload.t) : outcome OAuthTokens.t :=
  match OAuthTokenPayload.access_token payload,
        OAuthTokenPayload.refresh_token payload,
        OAuthTokenPayload.id_token payload with
  | Some a, Some r, Some i =>
      if PyStr.truthy a && PyStr.truthy r && PyStr.truthy i
      then Return (OAuthTokens.mk a r i)
      else Raise (OAuthError.mk "invalid_response" "OAuth response missing tokens" None)
  | _, _, _ =>
      Raise (OAuthError.mk "invalid_response" "OAuth response missing tokens" None)
  end.

(** *** Calls to the identity service

    The HTTP client is a function [post] from the request (URL and body)
    to the response, already read through [_safe_json], which always
    yields an object.  Time-outs and the [x-request-id] header do not
    enter any result below. *)

Inductive Body : Type :=
| FormBody (encoded : string)
| JsonBody (payload : JsonObject).

Module Response.
Record t : Type := mk {
  status : Z;
  data : JsonObject;
}.
End Response.

(** A parsed [datetime]: its calendar fields read as seconds since the
    epoch, and the UTC offset when the value is aware. *)
Module Datetime.
Record t : Type := mk {
  wall_seconds : Q;
  utcoffset : option Q;
}.

(** [self.replace(tzinfo=timezone.utc)] on a naive value, and the
    instant an aware value denotes. *)
Definition instant (d : t) : Q :=
  match utcoffset d with
  | None => wall_seconds d
  | Some off => wall_seconds d - off
  end.
End Datetime.

(** [s.replace("Z", "+00:00")] *)
Fixpoint replace_Z (s : string) : string :=
  match s with
  | EmptyString => EmptyString
  | String c r =>
      if Ascii.eqb c "Z" then "+00:00" +:+ replace_Z r
      else String c (replace_Z r)
  end.

Section client.
Variable settings : Settings.t.
Variable post : string -> Body -> Response.t.
(** [OAuthTokenPayload.model_validate] and [DeviceCodePayload.model_validate];
    [None] is a [ValidationError]. *)
Variable token_payload_validate : JsonObject -> option OAuthTokenPayload.t.
Variable device_payload_validate : JsonObject -> option DeviceCodePayload.t.
(** [datetime.fromisoformat]; [None] is a [ValueError]. *)
Variable fromisoformat : string -> option Datetime.t.
(** [datetime.now(timezone.utc)], in seconds since the epoch. *)
Variable now : Q.

Definition _expires_in_seconds (expires_at : option string) : option Z :=
  match expires_at with
  | None => None
  | Some s =>
      if negb (PyStr.truthy s) then None
      else
        match fromisoformat (replace_Z s) with
        | None => None
        | Some parsed =>
            let delta := (Datetime.instant parsed - now)%Q in
            if Qle_bool delta 0 then None
            else Some (PyNum.Qtrunc delta)
        end
  end.

Definition exchange_authorization_code
    (code code_verifier : string)
    (redirect_uri base_url client_id : option string) : outcome OAuthTokens.t :=
  let url := auth_base settings base_url +:+ "/oauth/token" in
  let payload :=
    [ ("grant_type", "authorization_code");
      ("client_id", or_str client_id (Settings.oauth_client_id settings));
      ("code", code);
      ("code_verifier", code_verifier);
      ("redirect_uri", or_str redirect_uri (Settings.oauth_redirect_uri settings)) ] in
  let encoded := urlencode payload in
  let resp := post url (FormBody encoded) in
  match token_payload_validate (Response.data resp) with
  | None => Raise (OAuthError.mk "invalid_response" "OAuth response invalid" None)
  | Some payload =>
      if (400 <=? Response.status resp)%Z
      then Raise (_oauth_error_from_payload payload (Response.status resp))
      else _parse_tokens payload
  end.

Definition request_device_code
    (base_url client_id : option string) : outcome DeviceCode.t :=
  let auth_base := auth_base settings base_url in
  let url := auth_base +:+ "/api/accounts/deviceauth/usercode" in
  let payload : JsonObject :=
    {[ "client_id" := JStr (or_str client_id (Settings.oauth_client_id settings)) ]} in
  let resp := post url (JsonBody payload) in
  let status := Response.status resp in
  if (400 <=? status)%Z then
    if (status =? 404)%Z then
      Raise (OAuthError.mk "device_auth_unavailable"
               ("Device code login is not enabled for this Codex server. "
                +:+ "Use the browser login or verify the server URL.")
               (Some status))
    else
      Raise (OAuthError.mk "device_auth_failed"
               ("Device code request failed with status " +:+ PyNum.str_of_int status)
               (Some status))
  else
    match device_payload_validate (Response.data resp) with
    | None => Raise (OAuthError.mk "invalid_response" "Device auth response invalid" None)
    | Some payload_data =>
        let verification_url := auth_base +:+ "/codex/device" in
        let user_code := DeviceCodePayload.user_code payload_data in
        let device_auth_id := DeviceCodePayload.device_auth_id payload_data in
        let interval := default 0%Z (DeviceCodePayload.interval payload_data) in
        (* [payload_data.expires_in or 0]: [None] and [0] both read as 0 *)
        let expires_in := default 0%Z (DeviceCodePayload.expires_in payload_data) in
        let expires_in :=
          if (expires_in <=? 0)%Z then
            match _expires_in_seconds (DeviceCodePayload.expires_at payload_data) with
            | Some n => if (n =? 0)%Z then 900%Z else n
            | None => 900%Z
            end
          else expires_in in
        match user_code, device_auth_id with
        | Some uc, Some did =>
            if PyStr.truthy uc && PyStr.truthy did then
              Return (DeviceCode.mk verification_url uc did interval expires_in)
            else
              Raise (OAuthError.mk "invalid_response"
                       "Device auth response missing fields" None)
        | _, _ =>
            Raise (OAuthError.mk "invalid_response"
                     "Device auth response missing fields" None)
        end
    end.

Definition exchange_device_token
    (device_auth_id user_code : string)
    (base_url : option string) : outcome (option OAuthTokens.t) :=
  let url := auth_base settings base_url +:+ "/api/accounts/deviceauth/token" in
  let payload : JsonObject :=
    {[ "device_auth_id" := JStr device_auth_id; "user_code" := JStr user_code ]} in
  let resp := post url (JsonBody payload) in
  let status := Response.status resp in
  match token_payload_validate (Response.data resp) with
  | None => Raise (OAuthError.mk "invalid_response" "Device auth response invalid" None)
  | Some payload_data =>
      if bool_decide (status ∈ [403%Z; 404%Z]) then Return None
      else if (400 <=? status)%Z then
        if _is_pending_error payload_data then Return None
        else Raise (_oauth_error_from_payload payload_data status)
      else if _is_pending_error payload_data then Return None
      else if PyStr.truthy_opt (OAuthTokenPayload.authorization_code payload_data) then
        if negb (PyStr.truthy_opt (OAuthTokenPayload.code_verifier payload_data)) then
          Raise (OAuthError.mk "invalid_response"
                   "Device auth response missing code verifier" None)
        else
          let redirect_uri := auth_base settings base_url +:+ "/deviceauth/callback" in
          match exchange_authorization_code
                  (default "" (OAuthTokenPayload.authorization_code payload_data))
                  (default "" (OAuthTokenPayload.code_verifier payload_data))
                  (Some redirect_uri) base_url
                  (Some (Settings.oauth_client_id settings)) with
          | Return tokens => Return (Some tokens)
          | Raise e => Raise e
          end
      else
        match _parse_tokens payload_data with
        | Return tokens => Return (Some tokens)
        | Raise e => Raise e
        end
  end.
End client.

(** *** PKCE *)

(** [str.encode("utf-8")], on code points below U+0100: one byte below
    U+0080, two from there on. *)
Definition utf8_encode_char (c : ascii) : list byte :=
  let n := N_of_ascii c in
  if (n <? 128)%N then [byte_of_ascii c]
  else [byte_of_ascii (ascii_of_N (192 + n / 64));
        byte_of_ascii (ascii_of_N (128 + n mod 64))].

Definition utf8_encode (s : string) : list byte :=
  flat_map utf8_encode_char (list_ascii_of_string s).

(** The alphabet of [base64.urlsafe_b64encode]. *)
Definition URLSAFE_ALPHABET : string :=
  "ABCDEFGHIJKLMNOPQRSTUVWXYZabcdefghijklmnopqrstuvwxyz0123456789-_".

Definition b64_char (index : N) : ascii :=
  nth (N.to_nat index) (list_ascii_of_string URLSAFE_ALPHABET) "="%char.

(** [base64.urlsafe_b64encode(data)]: three bytes give four characters,
    and a last group of one or two bytes is padded with [=].  The result
    is ASCII, written here as the [str] that [.decode("ascii")] makes of
    it. *)
Fixpoint urlsafe_b64encode (data : list byte) : string :=
  match data with
  | [] => ""
  | [a] =>
      let a := Byte.to_N a in
      String (b64_char (a / 4)) (String (b64_char ((a mod 4) * 16)) "==")
  | [a; b] =>
      let a := Byte.to_N a in
      let b := Byte.to_N b in
      String (b64_char (a / 4))
        (String (b64_char ((a mod 4) * 16 + b / 16))
           (String (b64_char ((b mod 16) * 4)) "="))
  | a :: b :: c :: rest =>
      let a := Byte.to_N a in
      let b := Byte.to_N b in
      let c := Byte.to_N c in
      String (b64_char (a / 4))
        (String (b64_char ((a mod 4) * 16 + b / 16))
           (String (b64_char ((b mod 16) * 4 + c / 64))
              (String (b64_char (c mod 64)) (urlsafe_b64encode rest))))
  end.

Section pkce.
(** [hashlib.sha256(data).digest()] *)
Variable sha256 : list byte -> list byte.

Definition pkce_challenge (verifier : string) : string :=
  let digest := sha256 (utf8_encode verifier) in
  PyStr.rstrip_char "=" (urlsafe_b64encode digest).
End pkce.

End OAuth.

(** ** [app/core/openai/requests.py] *)
Module Requests.
Import Json.

(** A [ValueError] (pydantic's [ValidationError] is one), or a value. *)
Inductive validated (A : Type) : Type :=
| Valid (a : A)
| Invalid (msg : string).
Arguments Valid {A} a.
Arguments Invalid {A} msg.

#[global] Instance validated_ret : MRet validated := fun A a => Valid a.
#[global] Instance validated_bind : MBind validated := fun A B k m =>
  match m with
  | Valid a => k a
  | Invalid msg => Invalid msg
  end.

(** The line feed, ["\n"]. *)
Definition nl : string := String "010"%char "".

(** [[part for part in parts if part]] *)
Definition nonempty_parts (parts : list string) : list string :=
  List.filter PyStr.truthy parts.

Definition _merge_instructions (existing : string) (extra_parts : list string) : string :=
  match extra_parts with
  | [] => existing
  | _ =>
      let extra := PyStr.join nl (nonempty_parts extra_parts) in
      if negb (PyStr.truthy extra) then existing
      else if PyStr.truthy existing then existing +:+ nl +:+ extra
      else extra
  end.

(** The strings one element of a list-valued [content] contributes. *)
Definition content_part (part : JsonValue) : list string :=
  match part with
  | JStr p => [p]
  | JObj part_dict =>
      match get "text" part_dict with
      | JStr text => [text]
      | _ => []
      end
  | _ => []
  end.

Definition _content_to_text (content : JsonValue) : option string :=
  match content with
  | JNull => None
  | JStr s => Some s
  | JList l =>
      let parts := concat (map content_part l) in
      Some (PyStr.join nl (nonempty_parts parts))
  | JObj content_dict =>
      match get "text" content_dict with
      | JStr text => Some text
      | _ => None
      end
  | _ => None
  end.

(** [role in ("system", "developer")], for [role : str | None]. *)
Definition is_instruction_role (role_value : JsonValue) : bool :=
  match as_str role_value with
  | Some role => bool_decide (role ∈ ["system"; "developer"])
  | None => false
  end.

(** The [for message in messages] loop of [_coerce_messages_payload],
    with its two accumulators. *)
Fixpoint coerce_loop (messages : list JsonValue)
    (instructions_parts : list string) (input_messages : list JsonValue)
    : validated (list string * list JsonValue) :=
  match messages with
  | [] => Valid (instructions_parts, input_messages)
  | message :: rest =>
      match message with
      | JObj message_dict =>
          if is_instruction_role (get "role" message_dict) then
            match _content_to_text (get "content" message_dict) with
            | Some content_text =>
                if PyStr.truthy content_text
                then coerce_loop rest (instructions_parts ++ [content_text]) input_messages
                else coerce_loop rest instructions_parts input_messages
            | None => coerce_loop rest instructions_parts input_messages
            end
          else coerce_loop rest instructions_parts (input_messages ++ [message])
      | _ => Invalid "Each message must be an object."
      end
  end.

(** [input_value not in (None, [])] *)
Definition input_given (input_value : JsonValue) : bool :=
  match input_value with
  | JNull | JList [] => false
  | _ => true
  end.

Definition _coerce_messages_payload (data : JsonValue) : validated JsonValue :=
  match data with
  | JObj data_dict =>
      match data_dict !! "messages" with
      | None => Valid data
      | Some messages =>
          if input_given (get "input" data_dict) then
            Invalid "Provide either 'input' or 'messages', not both."
          else
            match messages with
            | JList messages =>
                acc ← coerce_loop messages [] [];
                let '(instructions_parts, input_messages) := acc in
                let result := pop "messages" data_dict in
                let result := <["input" := JList input_messages]> result in
                let existing_instructions := get "instructions" result in
                let instructions :=
                  match existing_instructions with
                  | JStr existing =>
                      if PyStr.truthy existing
                      then _merge_instructions existing instructions_parts
                      else PyStr.join nl (nonempty_parts instructions_parts)
                  | _ => PyStr.join nl (nonempty_parts instructions_parts)
                  end in
                Valid (JObj (<["instructions" := JStr instructions]> result))
            | _ => Invalid "'messages' must be a list."
            end
      end
  | _ => Valid data
  end.

Definition _UNSUPPORTED_UPSTREAM_FIELDS : list string := ["max_output_tokens"].

Definition _strip_unsupported_fields (payload : JsonObject) : JsonObject :=
  foldr pop payload _UNSUPPORTED_UPSTREAM_FIELDS.

(** *** The pydantic models

    Field validation is pydantic's lax mode on values that came from
    JSON: a [str] field takes a string only, a [bool] field also takes
    0/1 and the usual spellings, a model-typed field takes an object.
    All three models keep unknown keys ([extra="allow"]).  pydantic
    reports every failing field in one [ValidationError]; [Invalid]
    carries the message of the first. *)

Definition v_str (v : JsonValue) : validated string :=
  match v with
  | JStr s => Valid s
  | _ => Invalid "Input should be a valid string"
  end.

Definition v_bool (v : JsonValue) : validated bool :=
  match v with
  | JBool b => Valid b
  | JInt 0 => Valid false
  | JInt 1 => Valid true
  | JFloat (PyNum.Fin q) =>
      if Qeq_bool q 0 then Valid false
      else if Qeq_bool q 1 then Valid true
      else Invalid "Input should be a valid boolean"
  | JStr s =>
      let l := PyStr.lower s in
      if bool_decide (l ∈ ["0"; "off"; "f"; "false"; "n"; "no"]) then Valid false
      else if bool_decide (l ∈ ["1"; "on"; "t"; "true"; "y"; "yes"]) then Valid true
      else Invalid "Input should be a valid boolean"
  | _ => Invalid "Input should be a valid boolean"
  end.

Definition v_list (v : JsonValue) : validated (list JsonValue) :=
  match v with
  | JList l => Valid l
  | _ => Invalid "Input should be a valid list"
  end.

Definition v_list_str (v : JsonValue) : validated (list string) :=
  l ← v_list v; mapM v_str l.

(** A field of type [T | None]. *)
Definition v_opt {A : Type} (f : JsonValue -> validated A) (v : JsonValue)
    : validated (option A) :=
  match v with
  | JNull => Valid None
  | _ => a ← f v; Valid (Some a)
  end.

(** A field with a default: the default when the key is absent. *)
Definition field {A : Type} (data : JsonObject) (k : string) (dflt : A)
    (f : JsonValue -> validated A) : validated A :=
  match data !! k with
  | None => Valid dflt
  | Some v => f v
  end.

(** The keys of [data] that are not declared fields. *)
Definition extras (declared : list string) (data : JsonObject) : JsonObject :=
  filter (fun kv => kv.1 ∉ declared) data.

Module ResponsesReasoning.
Record t : Type := mk {
  effort : option string;
  summary : option string;
  extra : JsonObject;
}.
Definition fields : list string := ["effort"; "summary"].
End ResponsesReasoning.

Module ResponsesTextFormat.
Record t : Type := mk {
  type : option string;
  strict : option bool;
  schema_ : JsonValue;
  name : option string;
  extra : JsonObject;
}.
(** The keys the fields are read from: [schema_] under its alias
    [schema], or under its own name when the alias is absent
    ([populate_by_name]). *)
Definition keys (d : JsonObject) : list string :=
  ["type"; "strict"; (if decide (is_Some (d !! "schema")) then "schema" else "schema_");
   "name"].
End ResponsesTextFormat.

Module ResponsesTextControls.
Record t : Type := mk {
  verbosity : option string;
  format : option ResponsesTextFormat.t;
  extra : JsonObject;
}.
Definition fields : list string := ["verbosity"; "format"].
End ResponsesTextControls.

Module ResponsesRequest.
Record t : Type := mk {
  model : string;
  instructions : string;
  input : list JsonValue;
  tools : list JsonValue;
  tool_choice : option string;
  parallel_tool_calls : option bool;
  reasoning : option ResponsesReasoning.t;
  store : bool;
  stream : option bool;
  include : list string;
  prompt_cache_key : option string;
  text : option ResponsesTextControls.t;
  extra : JsonObject;
  model_fields_set : gset string;
}.
Definition fields : list string :=
  ["model"; "instructions"; "input"; "tools"; "tool_choice";
   "parallel_tool_calls"; "reasoning"; "store"; "stream"; "include";
   "prompt_cache_key"; "text"].
End ResponsesRequest.

Definition v_reasoning (v : JsonValue) : validated ResponsesReasoning.t :=
  match v with
  | JObj d =>
      effort ← field d "effort" None (v_opt v_str);
      summary ← field d "summary" None (v_opt v_str);
      Valid (ResponsesReasoning.mk effort summary (extras ResponsesReasoning.fields d))
  | _ => Invalid "Input should be a valid dictionary"
  end.

Definition v_text_format (v : JsonValue) : validated ResponsesTextFormat.t :=
  match v with
  | JObj d =>
      type ← field d "type" None (v_opt v_str);
      strict ← field d "strict" None (v_opt v_bool);
      name ← field d "name" None (v_opt v_str);
      let schema :=
        match d !! "schema" with
        | Some v => v
        | None => get "schema_" d
        end in
      Valid (ResponsesTextFormat.mk type strict schema name
               (extras (ResponsesTextFormat.keys d) d))
  | _ => Invalid "Input should be a valid dictionary"
  end.

Definition v_text_controls (v : JsonValue) : validated ResponsesTextControls.t :=
  match v with
  | JObj d =>
      verbosity ← field d "verbosity" None (v_opt v_str);
      format ← field d "format" None (v_opt v_text_format);
      Valid (ResponsesTextControls.mk verbosity format
               (extras ResponsesTextControls.fields d))
  | _ => Invalid "Input should be a valid dictionary"
  end.

(** The [field_validator("store")] of [ResponsesRequest]. *)
Definition _ensure_store_false (value : bool) : validated bool :=
  if value then Invalid "store must be false" else Valid value.

(** [ResponsesRequest.model_validate(data)]: the [mode="before"] validator
    first, then the fields. *)
Definition model_validate (data : JsonValue) : validated ResponsesRequest.t :=
  data ← _coerce_messages_payload data;
  match data with
  | JObj d =>
      model ← match d !! "model" with
               | Some v => v_str v
               | None => Invalid "Field required"
               end;
      model ← (if (1 <=? String.length model)%nat then Valid model
                else Invalid "String should have at least 1 character");
      instructions ← field d "instructions" "" v_str;
      input ← field d "input" [] v_list;
      tools ← field d "tools" [] v_list;
      tool_choice ← field d "tool_choice" None (v_opt v_str);
      parallel_tool_calls ← field d "parallel_tool_calls" None (v_opt v_bool);
      reasoning ← field d "reasoning" None (v_opt v_reasoning);
      store ← field d "store" false (fun v => b ← v_bool v; _ensure_store_false b);
      stream ← field d "stream" None (v_opt v_bool);
      include ← field d "include" [] v_list_str;
      prompt_cache_key ← field d "prompt_cache_key" None (v_opt v_str);
      text ← field d "text" None (v_opt v_text_controls);
      Valid (ResponsesRequest.mk model instructions input tools tool_choice
               parallel_tool_calls reasoning store stream include
               prompt_cache_key text (extras ResponsesRequest.fields d) (dom d))
  | _ => Invalid "Input should be a valid dictionary"
  end.

(** *** [model_dump(mode="json", exclude_none=True)]

    A field that is [None] is left out, also in the nested models.  The
    value of an undeclared key is serialised by inference, which in JSON
    mode turns an infinite or NaN float into [None], at any depth, and
    keeps the key. *)

(** [payload[k] = f(x)] unless the field is [None]. *)
Definition put_opt {A : Type} (k : string) (f : A -> JsonValue) (o : option A)
    (payload : JsonObject) : JsonObject :=
  match o with
  | Some x => <[k := f x]> payload
  | None => payload
  end.

Definition not_none (v : JsonValue) : bool :=
  match v with JNull => false | _ => true end.

(** The JSON-mode form of a value whose type is inferred. *)
Fixpoint json_mode (v : JsonValue) : JsonValue :=
  match v with
  | JFloat (PyNum.Fin q) => JFloat (PyNum.Fin q)
  | JFloat _ => JNull
  | JList l => JList (map json_mode l)
  | JObj m => JObj (json_mode <$> m)
  | other => other
  end.

Definition dump_extra (extra : JsonObject) : JsonObject :=
  json_mode <$> filter (fun kv => not_none kv.2 = true) extra.

Definition dump_reasoning (r : ResponsesReasoning.t) : JsonValue :=
  JObj (put_opt "effort" JStr (ResponsesReasoning.effort r)
       (put_opt "summary" JStr (ResponsesReasoning.summary r)
       (dump_extra (ResponsesReasoning.extra r)))).

Section dump.
(** The JSON-mode form of a value held by a field declared with the type
    [JsonValue] ([input], [tools], [schema_]), as the serialiser that
    pydantic builds for that type alias gives it. *)
Variable dump_json_value : JsonValue -> JsonValue.

Definition dump_text_format (f : ResponsesTextFormat.t) : JsonValue :=
  JObj (put_opt "type" JStr (ResponsesTextFormat.type f)
       (put_opt "strict" JBool (ResponsesTextFormat.strict f)
       (put_opt "schema" dump_json_value
          (if not_none (ResponsesTextFormat.schema_ f)
           then Some (ResponsesTextFormat.schema_ f) else None)
       (put_opt "name" JStr (ResponsesTextFormat.name f)
       (dump_extra (ResponsesTextFormat.extra f)))))).

Definition dump_text_controls (c : ResponsesTextControls.t) : JsonValue :=
  JObj (put_opt "verbosity" JStr (ResponsesTextControls.verbosity c)
       (put_opt "format" dump_text_format (ResponsesTextControls.format c)
       (dump_extra (ResponsesTextControls.extra c)))).

Definition model_dump (r : ResponsesRequest.t) : JsonObject :=
  <["model" := JStr (ResponsesRequest.model r)]>
  (<["instructions" := JStr (ResponsesRequest.instructions r)]>
  (<["input" := JList (map dump_json_value (ResponsesRequest.input r))]>
  (<["tools" := JList (map dump_json_value (ResponsesRequest.tools r))]>
  (put_opt "tool_choice" JStr (ResponsesRequest.tool_choice r)
  (put_opt "parallel_tool_calls" JBool (ResponsesRequest.parallel_tool_calls r)
  (put_opt "reasoning" dump_reasoning (ResponsesRequest.reasoning r)
  (<["store" := JBool (ResponsesRequest.store r)]>
  (put_opt "stream" JBool (ResponsesRequest.stream r)
  (<["include" := JList (map JStr (ResponsesRequest.include r))]>
  (put_opt "prompt_cache_key" JStr (ResponsesRequest.prompt_cache_key r)
  (put_opt "text" dump_text_controls (ResponsesRequest.text r)
  (dump_extra (ResponsesRequest.extra r))))))))))))).

Definition to_payload (r : ResponsesRequest.t) : JsonObject :=
  let payload := model_dump r in
  let payload :=
    if bool_decide ("store" ∈ ResponsesRequest.model_fields_set r) then payload
    else pop "store" payload in
  _strip_unsupported_fields payload.
End dump.

(** *** [ResponsesCompactRequest] *)

Module ResponsesCompactRequest.
Record t : Type := mk {
  model : string;
  instructions : string;
  input : list JsonValue;
  extra : JsonObject;
}.
Definition fields : list string := ["model"; "instructions"; "input"].
End ResponsesCompactRequest.

(** [ResponsesCompactRequest.model_validate(data)] *)
Definition compact_model_validate (data : JsonValue)
    : validated ResponsesCompactRequest.t :=
  data ← _coerce_messages_payload data;
  match data with
  | JObj d =>
      model ← match d !! "model" with
               | Some v => v_str v
               | None => Invalid "Field required"
               end;
      model ← (if (1 <=? String.length model)%nat then Valid model
                else Invalid "String should have at least 1 character");
      instructions ← field d "instructions" "" v_str;
      input ← field d "input" [] v_list;
      Valid (ResponsesCompactRequest.mk model instructions input
               (extras ResponsesCompactRequest.fields d))
  | _ => Invalid "Input should be a valid dictionary"
  end.

Section compact_dump.
(** As for [ResponsesRequest]: the JSON-mode form of an item of
    [input]. *)
Variable dump_json_value : JsonValue -> JsonValue.

Definition compact_model_dump (r : ResponsesCompactRequest.t) : JsonObject :=
  <["model" := JStr (ResponsesCompactRequest.model r)]>
  (<["instructions" := JStr (ResponsesCompactRequest.instructions r)]>
  (<["input" := JList (map dump_json_value (ResponsesCompactRequest.input r))]>
  (dump_extra (ResponsesCompactRequest.extra r)))).

(** [ResponsesCompactRequest.to_payload] *)
Definition compact_to_payload (r : ResponsesCompactRequest.t) : JsonObject :=
  _strip_unsupported_fields (compact_model_dump r).
End compact_dump.

End Requests.

(** ** [app/db/models.py], as far as the modules below read it *)
Module Models.

(** Modelled from the spec: the status of an [Account] (section 3); the
    enumeration in [app/db/models.py] is missing. *)
Inductive AccountStatus : Type :=
| ACTIVE
| RATE_LIMITED
| QUOTA_EXCEEDED
| PAUSED
| DEACTIVATED.

#[global] Instance AccountStatus_eq_dec : EqDecision AccountStatus.
Proof. solve_decision. Defined.

Module Account.
(** Modelled from the spec: the [Account] row of section 3, whose class in
    [app/db/models.py] is missing, with the attributes the auth manager
    reads and writes. *)
Record t : Type := mk {
  id : string;
  email : string;
  plan_type : string;
  access_token_encrypted : list byte;
  refresh_token_encrypted : list byte;
  id_token_encrypted : list byte;
  last_refresh : Q;
  status : AccountStatus;
  deactivation_reason : option string;
}.
End Account.

Module UsageHistory.
(** Modelled from the spec: the [UsageHistory] row of section 3, whose
    class in [app/db/models.py] is missing, with the credits columns. *)
Record t : Type := mk {
  account_id : string;
  credits_has : option bool;
  credits_unlimited : option bool;
  credits_balance : option PyNum.float;
}.
End UsageHistory.

End Models.

(** ** [app/modules/accounts/auth_manager.py] *)
Module AuthManager.
Import Models.

Module RefreshError.
(** Modelled from the spec: [app.core.auth.refresh.RefreshError], whose
    declaration is missing: a code, a message, and the classification of
    section 4.D as permanent or not. *)
Record t : Type := mk {
  code : string;
  message : string;
  is_permanent : bool;
}.
End RefreshError.

Module TokenRefreshResult.
(** Modelled from the spec: the result of [refresh_access_token]
    (declared in the missing [app.core.auth.refresh]): the new token
    triple, and the plan type and email when supplied (section 4.D). *)
Record t : Type := mk {
  access_token : string;
  refresh_token : string;
  id_token : string;
  plan_type : option string;
  email : option string;
}.
End TokenRefreshResult.

(** The calls an [AccountsRepositoryPort] receives. *)
Inductive RepoCall : Type :=
| update_status (account_id : string) (status : AccountStatus)
    (deactivation_reason : option string)
| update_tokens (account_id : string)
    (access_token_encrypted refresh_token_encrypted id_token_encrypted : list byte)
    (last_refresh : Q) (plan_type : option string) (email : option string).

Inductive exn : Type :=
| RefreshErr (exc : RefreshError.t)
| CryptoError.

(** The two objects a call can change: the [Account] it was handed, which
    its caller still holds, and the repository behind the port, seen as
    the list of calls made on it. *)
Module Store.
Record t : Type := mk {
  account : Account.t;
  repo : list RepoCall;
}.
End Store.

(** Computations that read and write the store and may raise. *)
Definition M (A : Type) : Type := Store.t -> (exn + A) * Store.t.

#[global] Instance M_ret : MRet M := fun A a st => (inr a, st).
#[global] Instance M_bind : MBind M := fun A B k m st =>
  match m st with
  | (inr a, st') => k a st'
  | (inl e, st') => (inl e, st')
  end.

Definition raise {A : Type} (e : exn) : M A := fun st => (inl e, st).

(** [try: body  except RefreshError as exc: handler(exc)] *)
Definition try_except_RefreshError {A : Type}
    (body : M A) (handler : RefreshError.t -> M A) : M A := fun st =>
  match body st with
  | (inl (RefreshErr exc), st') => handler exc st'
  | other => other
  end.

Definition get_account : M Account.t := fun st => (inr (Store.account st), st).

Definition set_account (f : Account.t -> Account.t) : M unit := fun st =>
  (inr tt, Store.mk (f (Store.account st)) (Store.repo st)).

(** [await self._repo.<call>]: the call reaches the repository. *)
Definition repo_call (c : RepoCall) : M unit := fun st =>
  (inr tt, Store.mk (Store.account st) (Store.repo st ++ [c])).

Definition with_status (s : AccountStatus) (a : Account.t) : Account.t :=
  Account.mk (Account.id a) (Account.email a) (Account.plan_type a)
    (Account.access_token_encrypted a) (Account.refresh_token_encrypted a)
    (Account.id_token_encrypted a) (Account.last_refresh a)
    s (Account.deactivation_reason a).

Definition with_deactivation_reason (r : option string) (a : Account.t) : Account.t :=
  Account.mk (Account.id a) (Account.email a) (Account.plan_type a)
    (Account.access_token_encrypted a) (Account.refresh_token_encrypted a)
    (Account.id_token_encrypted a) (Account.last_refresh a)
    (Account.status a) r.

Definition with_tokens (access refresh id_token : list byte) (a : Account.t) : Account.t :=
  Account.mk (Account.id a) (Account.email a) (Account.plan_type a)
    access refresh id_token (Account.last_refresh a)
    (Account.status a) (Account.deactivation_reason a).

Definition with_last_refresh (t : Q) (a : Account.t) : Account.t :=
  Account.mk (Account.id a) (Account.email a) (Account.plan_type a)
    (Account.access_token_encrypted a) (Account.refresh_token_encrypted a)
    (Account.id_token_encrypted a) t
    (Account.status a) (Account.deactivation_reason a).

Definition with_plan_type (p : string) (a : Account.t) : Account.t :=
  Account.mk (Account.id a) (Account.email a) p
    (Account.access_token_encrypted a) (Account.refresh_token_encrypted a)
    (Account.id_token_encrypted a) (Account.last_refresh a)
    (Account.status a) (Account.deactivation_reason a).

Definition with_email (e : string) (a : Account.t) : Account.t :=
  Account.mk (Account.id a) e (Account.plan_type a)
    (Account.access_token_encrypted a) (Account.refresh_token_encrypted a)
    (Account.id_token_encrypted a) (Account.last_refresh a)
    (Account.status a) (Account.deactivation_reason a).

Section manager.
(** [TokenEncryptor]: [decrypt] fails with [CryptoError] on [None]. *)
Variable decrypt : list byte -> option string.
Variable encrypt : string -> list byte.
(** [app.core.auth.refresh]: the refresh call and the staleness test. *)
Variable refresh_access_token : string -> RefreshError.t + TokenRefreshResult.t.
Variable should_refresh : Q -> bool.
(** [app.core.balancer.PERMANENT_FAILURE_CODES], [app.core.auth.DEFAULT_PLAN],
    [app.core.utils.time.utcnow()]. *)
Variable PERMANENT_FAILURE_CODES : gmap string string.
Variable DEFAULT_PLAN : string.
Variable utcnow : Q.

Definition do_decrypt (blob : list byte) : M string :=
  match decrypt blob with
  | Some plain => mret plain
  | None => raise CryptoError
  end.

Definition do_refresh_access_token (refresh_token : string) : M TokenRefreshResult.t :=
  match refresh_access_token refresh_token with
  | inr result => mret result
  | inl exc => raise (RefreshErr exc)
  end.

Definition refresh_account : M Account.t :=
  account ← get_account;
  refresh_token ← do_decrypt (Account.refresh_token_encrypted account);
  result ← try_except_RefreshError
    (do_refresh_access_token refresh_token)
    (fun exc =>
       (if RefreshError.is_permanent exc then
          let reason :=
            default (RefreshError.message exc)
                    (PERMANENT_FAILURE_CODES !! RefreshError.code exc) in
          repo_call (update_status (Account.id account) DEACTIVATED (Some reason));;
          set_account (with_status DEACTIVATED);;
          set_account (with_deactivation_reason (Some reason))
        else mret tt);;
       raise (RefreshErr exc));
  set_account (with_tokens
                 (encrypt (TokenRefreshResult.access_token result))
                 (encrypt (TokenRefreshResult.refresh_token result))
                 (encrypt (TokenRefreshResult.id_token result)));;
  set_account (with_last_refresh utcnow);;
  account ← get_account;
  match TokenRefreshResult.plan_type result with
  | Some plan =>
      set_account (with_plan_type
        (PlanTypes.coerce_account_plan_type (Some plan)
           (if PyStr.truthy (Account.plan_type account)
            then Account.plan_type account else DEFAULT_PLAN)))
  | None =>
      if negb (PyStr.truthy (Account.plan_type account))
      then set_account (with_plan_type DEFAULT_PLAN)
      else mret tt
  end;;
  (if PyStr.truthy_opt (TokenRefreshResult.email result)
   then set_account (with_email (default "" (TokenRefreshResult.email result)))
   else mret tt);;
  account ← get_account;
  repo_call (update_tokens (Account.id account)
               (Account.access_token_encrypted account)
               (Account.refresh_token_encrypted account)
               (Account.id_token_encrypted account)
               (Account.last_refresh account)
               (Some (Account.plan_type account))
               (Some (Account.email account)));;
  mret account.

Definition ensure_fresh (force : bool) : M Account.t :=
  account ← get_account;
  if force || should_refresh (Account.last_refresh account)
  then refresh_account
  else mret account.
End manager.

End AuthManager.

(** ** [app/modules/proxy/helpers.py] *)
Module ProxyHelpers.
Import Models.

Module UsageWindowSummary.
(** Modelled from the spec: [app.core.usage.types.UsageWindowSummary],
    whose declaration is missing, with the window attributes of the
    glossary that this file reads. *)
Record t : Type := mk {
  used_percent : option PyNum.float;
  reset_at : option Z;
  window_minutes : option Z;
}.
End UsageWindowSummary.

Module UsageWindowRow.
(** Modelled from the spec: [app.core.usage.types.UsageWindowRow], whose
    declaration is missing: one sample of a window, with the
    [used_percent] this file averages. *)
Record t : Type := mk {
  account_id : string;
  used_percent : option PyNum.float;
}.
End UsageWindowRow.

Module RateLimitWindowSnapshotData.
(** Modelled from the spec: [RateLimitWindowSnapshotData] of the missing
    [app.modules.proxy.types], with the four fields the constructor call
    in [_window_snapshot] names. *)
Record t : Type := mk {
  used_percent : Z;
  limit_window_seconds : Z;
  reset_after_seconds : Z;
  reset_at : Z;
}.
End RateLimitWindowSnapshotData.

(** A returned value, or an exception out of [int()]. *)
Inductive result (A : Type) : Type :=
| Returned (a : A)
| Raised.
Arguments Returned {A} a.
Arguments Raised {A}.

(** The built-in [sum] on floats, as CPython computed it before 3.12:
    left to right from the [int] 0, each addition rounded. *)
Definition sum_left_to_right (values : list PyNum.float) : PyNum.float :=
  fold_left PyNum.add values (PyNum.Fin 0).

(** One turn of the compensated summation that CPython 3.12 and later
    use for floats: the running sum and the compensation. *)
Definition compensated_step (state : PyNum.float * PyNum.float) (x : PyNum.float)
    : PyNum.float * PyNum.float :=
  let '(f_result, c) := state in
  let t := PyNum.add f_result x in
  let c :=
    if PyNum.ge (PyNum.abs f_result) (PyNum.abs x)
    then PyNum.add c (PyNum.add (PyNum.sub f_result t) x)
    else PyNum.add c (PyNum.add (PyNum.sub x t) f_result) in
  (t, c).

(** The built-in [sum] on floats from CPython 3.12 on: the first value is
    added to the [int] 0, the others are summed with compensation, and
    the compensation is added at the end when it is finite and not 0. *)
Definition sum_compensated (values : list PyNum.float) : PyNum.float :=
  match values with
  | [] => PyNum.Fin 0
  | first :: rest =>
      let '(f_result, c) :=
        fold_left compensated_step rest (PyNum.add (PyNum.Fin 0) first, PyNum.Fin 0) in
      match c with
      | PyNum.Fin _ => if PyNum.truthy c then PyNum.add f_result c else f_result
      | _ => f_result
      end
  end.

Definition _percent_to_int (value : PyNum.float) : result Z :=
  let bounded := PyNum.max (PyNum.Fin 0) (PyNum.min (PyNum.Fin 100) value) in
  match PyNum.to_int bounded with
  | Some n => Returned n
  | None => Raised
  end.

Section window_snapshot.
(** The built-in [sum] on a list of floats, which depends on the
    interpreter: [sum_left_to_right] before CPython 3.12,
    [sum_compensated] from then on. *)
Variable py_sum : list PyNum.float -> PyNum.float.
(** [usage_core.default_window_minutes] *)
Variable default_window_minutes : string -> option Z.

Definition _normalize_used_percent
    (value : option PyNum.float) (rows : list UsageWindowRow.t) : option PyNum.float :=
  match value with
  | Some v => Some v
  | None =>
      let values := omap UsageWindowRow.used_percent rows in
      match values with
      | [] => None
      | _ => Some (PyNum.div_pos (py_sum values) (Pos.of_nat (length values)))
      end
  end.

Definition _window_snapshot
    (summary : option UsageWindowSummary.t) (rows : list UsageWindowRow.t)
    (window : string) (now_epoch : Z)
    : result (option RateLimitWindowSnapshotData.t) :=
  match summary with
  | None => Returned None
  | Some summary =>
      match _normalize_used_percent (UsageWindowSummary.used_percent summary) rows with
      | None => Returned None
      | Some used_percent =>
          match UsageWindowSummary.reset_at summary with
          | None => Returned None
          | Some reset_at =>
              let window_minutes :=
                match UsageWindowSummary.window_minutes summary with
                | Some m => if (m =? 0)%Z then default_window_minutes window else Some m
                | None => default_window_minutes window
                end in
              match window_minutes with
              | None => Returned None
              | Some window_minutes =>
                  if (window_minutes =? 0)%Z then Returned None
                  else
                    let limit_window_seconds := (window_minutes * 60)%Z in
                    let reset_after_seconds := Z.max 0 (reset_at - now_epoch) in
                    match _percent_to_int used_percent with
                    | Raised => Raised
                    | Returned p =>
                        Returned (Some (RateLimitWindowSnapshotData.mk
                                          p limit_window_seconds
                                          reset_after_seconds reset_at))
                    end
              end
          end
      end
  end.
End window_snapshot.

(** The four variables of the loop in [_aggregate_credits]. *)
Module CreditsAcc.
Record t : Type := mk {
  has_data : bool;
  has_credits : bool;
  unlimited : bool;
  balance_total : PyNum.float;
}.
End CreditsAcc.

Definition is_true (o : option bool) : bool :=
  match o with Some true => true | _ => false end.

(** One turn of the loop. *)
Definition credits_step (acc : CreditsAcc.t) (entry : UsageHistory.t) : CreditsAcc.t :=
  let credits_has := UsageHistory.credits_has entry in
  let credits_unlimited := UsageHistory.credits_unlimited entry in
  let credits_balance := UsageHistory.credits_balance entry in
  match credits_has, credits_unlimited, credits_balance with
  | None, None, None => acc
  | _, _, _ =>
      let has_credits := CreditsAcc.has_credits acc || is_true credits_has in
      let unlimited := CreditsAcc.unlimited acc || is_true credits_unlimited in
      let balance_total :=
        match credits_balance with
        | Some b =>
            if negb (is_true credits_unlimited)
            then PyNum.add (CreditsAcc.balance_total acc) b
            else CreditsAcc.balance_total acc
        | None => CreditsAcc.balance_total acc
        end in
      CreditsAcc.mk true has_credits unlimited balance_total
  end.

Definition _aggregate_credits (entries : list UsageHistory.t)
    : option (bool * bool * PyNum.float) :=
  let acc := fold_left credits_step entries
               (CreditsAcc.mk false false false (PyNum.Fin 0)) in
  if negb (CreditsAcc.has_data acc) then None
  else
    let has_credits := CreditsAcc.has_credits acc || CreditsAcc.unlimited acc in
    Some (has_credits, CreditsAcc.unlimited acc, CreditsAcc.balance_total acc).

Definition bool_str (b : bool) : string := if b then "true" else "false".

Definition _credits_headers (entries : list UsageHistory.t) : gmap string string :=
  match _aggregate_credits entries with
  | None => ∅
  | Some (has_credits, unlimited, balance_total) =>
      let balance_value := PyNum.format_fixed 2 balance_total in
      <["x-codex-credits-has-credits" := bool_str has_credits]>
      (<["x-codex-credits-unlimited" := bool_str unlimited]>
      (<["x-codex-credits-balance" := balance_value]> ∅))
  end.

(** *** The rest of the helpers *)

Definition PLAN_TYPE_PRIORITY : list string :=
  ["enterprise"; "business"; "team"; "pro"; "plus"; "education"; "edu";
   "free_workspace"; "free"; "go"; "guest"; "quorum"; "k12"].

Definition _header_account_id (account_id : option string) : option string :=
  match account_id with
  | None => None
  | Some a =>
      if negb (PyStr.truthy a) then None
      else if String.prefix "email_" a || String.prefix "local_" a then None
      else Some a
  end.

Definition _select_accounts_for_limits (accounts : list Account.t) : list Account.t :=
  List.filter
    (fun account => negb (bool_decide (Account.status account ∈ [DEACTIVATED; PAUSED])))
    accounts.

Module RateLimitStatusDetailsData.
(** Modelled from the spec: [RateLimitStatusDetailsData] of the missing
    [app.modules.proxy.types], with the four fields the constructor call
    in [_rate_limit_details] names. *)
Record t : Type := mk {
  allowed : bool;
  limit_reached : bool;
  primary_window : option RateLimitWindowSnapshotData.t;
  secondary_window : option RateLimitWindowSnapshotData.t;
}.
End RateLimitStatusDetailsData.

(** [[window.used_percent for window in (primary, secondary) if window]];
    a snapshot object is true, [None] is not. *)
Definition window_used_percents
    (primary secondary : option RateLimitWindowSnapshotData.t) : list Z :=
  omap (fun window => RateLimitWindowSnapshotData.used_percent <$> window)
       [primary; secondary].

Definition _rate_limit_details
    (primary secondary : option RateLimitWindowSnapshotData.t)
    : option RateLimitStatusDetailsData.t :=
  match primary, secondary with
  | None, None => None
  | _, _ =>
      let used_percents := window_used_percents primary secondary in
      let limit_reached := existsb (fun used => (100 <=? used)%Z) used_percents in
      Some (RateLimitStatusDetailsData.mk
              (negb limit_reached) limit_reached primary secondary)
  end.

Definition _normalize_plan_type (value : option string) : option string :=
  PlanTypes.normalize_rate_limit_plan_type value.

Definition _plan_type_for_accounts (accounts : list Account.t) : string :=
  let normalized :=
    map (fun account => _normalize_plan_type (Some (Account.plan_type account)))
        accounts in
  let filtered := omap id normalized in
  match filtered with
  | [] => "guest"
  | first :: _ =>
      let unique : gset string := list_to_set filtered in
      if (size unique =? 1)%nat then first
      else
        match List.find (fun plan => bool_decide (plan ∈ unique)) PLAN_TYPE_PRIORITY with
        | Some plan => plan
        | None => "guest"
        end
  end.

Definition _normalize_error_code (code error_type : option string) : string :=
  match PyStr.or_else code error_type with
  | Some value =>
      if PyStr.truthy value then PyStr.lower value else "upstream_error"
  | None => "upstream_error"
  end.

Definition _coerce_str (value : Json.JsonValue) : option string := Json.as_str value.

(** An [int | float] field. *)
Inductive number : Type :=
| NumInt (n : Z)
| NumFloat (x : PyNum.float).

Definition number_json (n : number) : Json.JsonValue :=
  match n with
  | NumInt z => Json.JInt z
  | NumFloat x => Json.JFloat x
  end.

Module OpenAIError.
(** Modelled from the spec: [app.core.openai.models.OpenAIError], whose
    declaration is missing: the fields of the error envelope of section
    4.I, each optional. *)
Record t : Type := mk {
  message : option string;
  type : option string;
  code : option string;
  param : option string;
  plan_type : option string;
  resets_at : option number;
  resets_in_seconds : option number;
}.
End OpenAIError.

(** [target[k] = v] when [v] is not [None]. *)
Definition set_if {A : Type} (k : string) (f : A -> Json.JsonValue) (v : option A)
    (target : gmap string Json.JsonValue) : gmap string Json.JsonValue :=
  match v with
  | Some x => <[k := f x]> target
  | None => target
  end.

(** [_apply_error_metadata(target, error)]: the dict [target] as the call
    leaves it. *)
Definition _apply_error_metadata
    (target : gmap string Json.JsonValue) (error : option OpenAIError.t)
    : gmap string Json.JsonValue :=
  match error with
  | None => target
  | Some error =>
      let target := set_if "plan_type" Json.JStr (OpenAIError.plan_type error) target in
      let target := set_if "resets_at" number_json (OpenAIError.resets_at error) target in
      set_if "resets_in_seconds" number_json (OpenAIError.resets_in_seconds error) target
  end.

(** [error.model_dump(exclude_none=True)] keeps the fields that are set;
    of those the function copies [message], [resets_at] and
    [resets_in_seconds]. *)
Definition _upstream_error_from_openai (error : option OpenAIError.t)
    : gmap string Json.JsonValue :=
  match error with
  | None => ∅
  | Some error =>
      let payload : gmap string Json.JsonValue := ∅ in
      let payload := set_if "message" Json.JStr (OpenAIError.message error) payload in
      let payload := set_if "resets_at" number_json (OpenAIError.resets_at error) payload in
      set_if "resets_in_seconds" number_json (OpenAIError.resets_in_seconds error) payload
  end.

End ProxyHelpers.

(** ** [app/core/balancer]: selection

    The package is imported by the tests and by [auth_manager.py]; its own
    files are missing from the verified sources.  Every definition of this
    module follows section 4.F of the specification, step by step. *)
Module Balancer.
Import Models.

Module AccountState.
(** Modelled from the spec: the [AccountState] record of section 3 (the
    class itself, in [app/core/balancer], is missing).  [used_percent]
    and the instants are numbers of the spec's "0..100" and "epoch
    seconds". *)
Record t : Type := mk {
  account_id : string;
  status : AccountStatus;
  used_percent : Q;
  reset_at : option Q;
  cooldown_until : option Q;
  error_count : Z;
  last_error_at : option Q;
  deactivation_reason : option string;
}.
End AccountState.

Module Selection.
(** Modelled from the spec: the [Selection] that [select_account] returns
    (missing with the rest of [app/core/balancer]): the chosen account or
    [None], and the error message. *)
Record t : Type := mk {
  account : option AccountState.t;
  error_message : option string;
}.
End Selection.

(** Modelled from the spec: step 1 of the missing [select_account],
    "filter out accounts whose status is PAUSED or DEACTIVATED". *)
Definition is_candidate (s : AccountState.t) : bool :=
  match AccountState.status s with
  | PAUSED | DEACTIVATED => false
  | _ => true
  end.

(** Modelled from the spec: the comparisons [x <= now] and [x > now] of
    steps 2 and 3 of the missing [select_account], on an instant that may
    be unset; an unset one is neither. *)
Definition at_or_before (now : Q) (x : option Q) : bool :=
  match x with Some t => Qle_bool t now | None => false end.

(** Modelled from the spec: [x > now] of step 3 of the missing
    [select_account]. *)
Definition after (now : Q) (x : option Q) : bool :=
  match x with Some t => negb (Qle_bool t now) | None => false end.

(** Modelled from the spec: step 3 of the missing [select_account], "an
    account is eligible iff status is ACTIVE and neither
    [cooldown_until > now] nor [reset_at > now]". *)
Definition eligible (now : Q) (s : AccountState.t) : bool :=
  bool_decide (AccountState.status s = ACTIVE)
  && negb (after now (AccountState.cooldown_until s))
  && negb (after now (AccountState.reset_at s)).

(** Modelled from the spec: the order of step 4 of the missing
    [select_account], "lowest [used_percent], ties broken by lowest
    [error_count], then by account id lexicographic order"; [key_lt a b]
    says that [a] comes strictly first. *)
Definition key_lt (a b : AccountState.t) : bool :=
  match (AccountState.used_percent a ?= AccountState.used_percent b)%Q with
  | Lt => true
  | Gt => false
  | Eq =>
      match (AccountState.error_count a ?= AccountState.error_count b)%Z with
      | Lt => true
      | Gt => false
      | Eq => String.ltb (AccountState.account_id a) (AccountState.account_id b)
      end
  end.

(** Modelled from the spec: step 4 of the missing [select_account], the
    pick among the eligible accounts; among equal keys the earlier
    account stays. *)
Definition pick (eligibles : list AccountState.t) : option AccountState.t :=
  match eligibles with
  | [] => None
  | first :: rest =>
      Some (fold_left (fun best s => if key_lt s best then s else best) rest first)
  end.

(** Modelled from the spec: [max(cooldown_until, reset_at)] of step 5 of
    the missing [select_account], over the deadlines that are set. *)
Definition deadline (s : AccountState.t) : option Q :=
  match AccountState.cooldown_until s, AccountState.reset_at s with
  | Some c, Some r => Some (Qmax c r)
  | Some c, None => Some c
  | None, Some r => Some r
  | None, None => None
  end.

(** Modelled from the spec: "the smallest" of step 5 of the missing
    [select_account], over a list of rationals. *)
Definition Qmin_list (l : list Q) : option Q :=
  match l with
  | [] => None
  | first :: rest => Some (fold_left Qmin rest first)
  end.

Section selection.
(** What section 4.F leaves open: whether used_percent is cleared when
    a rate limit lapses ("clear used_percent (or leave it ...)"), how a
    wait of a minute or more is rendered, and what the message says
    when no candidate has a deadline. *)
Variable clear_used_percent : bool.
Variable render_long_wait : Q -> string.
Variable no_deadline_message : string.

(** Modelled from the spec: step 2 of the missing [select_account],
    first bullet: "if [cooldown_until] set and [cooldown_until <= now]:
    clear it, clear [last_error_at], reset [error_count] to 0". *)
Definition expire_cooldown (now : Q) (s : AccountState.t) : AccountState.t :=
  if at_or_before now (AccountState.cooldown_until s) then
    AccountState.mk (AccountState.account_id s) (AccountState.status s)
      (AccountState.used_percent s) (AccountState.reset_at s)
      None 0%Z None (AccountState.deactivation_reason s)
  else s.

(** Modelled from the spec: step 2 of the missing [select_account],
    second bullet: "if status is RATE_LIMITED and [reset_at <= now]:
    transition to ACTIVE, clear [used_percent] (or leave it ...)". *)
Definition lift_rate_limit (now : Q) (s : AccountState.t) : AccountState.t :=
  if bool_decide (AccountState.status s = RATE_LIMITED)
     && at_or_before now (AccountState.reset_at s) then
    AccountState.mk (AccountState.account_id s) ACTIVE
      (if clear_used_percent then 0%Q else AccountState.used_percent s)
      (AccountState.reset_at s) (AccountState.cooldown_until s)
      (AccountState.error_count s) (AccountState.last_error_at s)
      (AccountState.deactivation_reason s)
  else s.

(** Modelled from the spec: steps 1 and 2 of the missing
    [select_account] on one account; an account filtered out by step 1
    is left as it is. *)
Definition refresh_state (now : Q) (s : AccountState.t) : AccountState.t :=
  if is_candidate s then lift_rate_limit now (expire_cooldown now s) else s.

(** Modelled from the spec: the rendering of step 5 of the missing
    [select_account], "Try again in Ns" with one decimal for sub-minute
    waits. *)
Definition render_wait (wait : Q) : string :=
  if Qle_bool 60 wait then render_long_wait wait
  else "Try again in " +:+ PyNum.format_fixed_Q 1 wait +:+ "s".

(** Modelled from the spec: step 5 of the missing [select_account], the
    message "reporting the smallest [max(cooldown_until, reset_at) - now]
    across candidates". *)
Definition wait_message (now : Q) (candidates : list AccountState.t) : string :=
  match Qmin_list (omap deadline candidates) with
  | Some d => render_wait (d - now)
  | None => no_deadline_message
  end.

(** Modelled from the spec: [select_account(states, now)] of section
    4.F, whose source ([app/core/balancer]) is missing.  The states are
    objects the caller keeps, so the function also hands back the list
    as step 2 left it. *)
Definition select_account (states : list AccountState.t) (now : Q)
    : list AccountState.t * Selection.t :=
  let states := map (refresh_state now) states in
  let candidates := List.filter is_candidate states in
  let eligibles := List.filter (eligible now) candidates in
  match pick eligibles with
  | Some chosen => (states, Selection.mk (Some chosen) None)
  | None => (states, Selection.mk None (Some (wait_message now candidates)))
  end.
End selection.

End Balancer.

(** ** [app/db/migrations/versions/normalize_account_plan_types.py] *)
Module Migration.
Import Models.

Section run.
(** [app.core.auth.DEFAULT_PLAN] *)
Variable DEFAULT_PLAN : string.

(** The body of the loop, on one account row. *)
Definition normalize_row (account : Account.t) : Account.t :=
  let coerced :=
    PlanTypes.coerce_account_plan_type (Some (Account.plan_type account)) DEFAULT_PLAN in
  if negb (String.eqb (Account.plan_type account) coerced)
  then AuthManager.with_plan_type coerced account
  else account.

(** [run(session)], on the account rows the session holds. *)
Definition run (accounts : list Account.t) : list Account.t :=
  map normalize_row accounts.
End run.

End Migration.

(** ** [app/modules/usage/repository.py] *)
Module UsageRepository.

(** The columns [latest_by_account] orders by. *)
Inductive OrderBy : Type :=
| account_id_asc
| recorded_at_desc.

Section repository.
(** A [UsageHistory] row, through the three columns the query reads. *)
Context {Entry : Type}.
Variable account_id : Entry -> string.
Variable window : Entry -> option string.
Variable recorded_at : Entry -> Q.

(** [select(UsageHistory).where(...).order_by(...)] *)
Record Select : Type := mk_select {
  where_ : Entry -> bool;
  order_by : list OrderBy;
}.

(** [UsageHistory.window == label]: not true of a row whose window is
    NULL. *)
Definition window_eq (label : string) (entry : Entry) : bool :=
  bool_decide (window entry = Some label).

(** [UsageHistory.window.is_(None)] *)
Definition window_is_null (entry : Entry) : bool :=
  bool_decide (window entry = None).

Definition primary_or_null (entry : Entry) : bool :=
  window_eq "primary" entry || window_is_null entry.

(** The [conditions] of [latest_by_account]. *)
Definition latest_conditions (window_arg : option string) : Entry -> bool :=
  match window_arg with
  | Some label =>
      if PyStr.truthy label then
        if String.eqb label "primary" then primary_or_null
        else window_eq label
      else primary_or_null
  | None => primary_or_null
  end.

Definition latest_stmt (window_arg : option string) : Select :=
  mk_select (latest_conditions window_arg) [account_id_asc; recorded_at_desc].

(** [(await self._session.execute(stmt)).scalars().all()] *)
Variable execute : Select -> list Entry.

Definition latest_by_account (window_arg : option string) : gmap string Entry :=
  fold_left
    (fun latest entry =>
       match latest !! account_id entry with
       | None => <[account_id entry := entry]> latest
       | Some _ => latest
       end)
    (execute (latest_stmt window_arg))
    ∅.
End repository.

Arguments Select : clear implicits.

End UsageRepository.

(** ** [app/modules/usage/updater.py] *)
Module UsageUpdater.
Import Models AuthManager.

Module UsageWindow.
(** Modelled from the spec: a window of the usage payload (glossary:
    [used_percent], [limit_window_seconds], [reset_at]); its class in
    [app.core.usage.models] is missing. *)
Record t : Type := mk {
  used_percent : option PyNum.float;
  reset_at : option Z;
  limit_window_seconds : option Z;
}.
End UsageWindow.

Module RateLimitPayload.
(** Modelled from the spec: the [rate_limit] part of the usage payload,
    with the two windows this file reads; its class is missing. *)
Record t : Type := mk {
  primary_window : option UsageWindow.t;
  secondary_window : option UsageWindow.t;
}.
End RateLimitPayload.

(** A balance as the upstream sends it: [str | int | float]. *)
Inductive BalanceValue : Type :=
| BalanceStr (s : string)
| BalanceInt (n : Z)
| BalanceFloat (x : PyNum.float).

Module CreditsPayload.
(** Modelled from the spec: the [credits] part of the usage payload
    (has/unlimited/balance, section 4.E); its class is missing. *)
Record t : Type := mk {
  has_credits : option bool;
  unlimited : option bool;
  balance : option BalanceValue;
}.
End CreditsPayload.

Module UsagePayload.
(** Modelled from the spec: [app.core.usage.models.UsagePayload], whose
    declaration is missing, with the two attributes this file reads. *)
Record t : Type := mk {
  rate_limit : option RateLimitPayload.t;
  credits : option CreditsPayload.t;
}.
End UsagePayload.

(** The arguments of one [UsageRepository.add_entry] call (the
    parameters of its declaration in [repository.py], [recorded_at]
    apart, which this file never passes). *)
Module AddEntry.
Record t : Type := mk {
  account_id : string;
  used_percent : PyNum.float;
  input_tokens : option Z;
  output_tokens : option Z;
  window : option string;
  reset_at : option Z;
  window_minutes : option Z;
  credits_has : option bool;
  credits_unlimited : option bool;
  credits_balance : option PyNum.float;
}.
End AddEntry.

(** What can be raised inside [_refresh_account]: an error of the auth
    manager, the [UsageFetchError] of the usage client with its status
    code, the [OverflowError] of [float()], or anything else the usage
    client lets through. *)
Inductive error : Type :=
| AuthError (e : AuthManager.exn)
| UsageFetchError (status_code : Z)
| OverflowError
| OtherError.

(** What a run can change besides the accounts it was handed: the two
    repositories, seen as the calls made on them, and the usage client,
    seen as the [(access_token, account_id)] requests sent to it. *)
Module World.
Record t : Type := mk {
  accounts_repo : list RepoCall;
  usage_repo : list AddEntry.t;
  fetches : list (string * string);
}.
End World.

(** [max(1, math.ceil(limit_seconds / 60))]: the true division of two
    [int]s gives the double nearest to the quotient, and raises
    [OverflowError] when the quotient is beyond the doubles. *)
Definition _window_minutes (limit_seconds : option Z) : error + option Z :=
  match limit_seconds with
  | None => inr None
  | Some n =>
      if (n =? 0)%Z || (n <=? 0)%Z then inr None
      else
        match PyNum.round_double (n # 60) with
        | PyNum.Fin quotient => inr (Some (Z.max 1 (Qceiling quotient)))
        | _ => inl OverflowError
        end
  end.

Section updater.
(** [TokenEncryptor], [app.core.auth.refresh] and the constants of the
    auth manager. *)
Variable decrypt : list byte -> option string.
Variable encrypt : string -> list byte.
Variable refresh_access_token : string -> RefreshError.t + TokenRefreshResult.t.
Variable should_refresh : Q -> bool.
Variable PERMANENT_FAILURE_CODES : gmap string string.
Variable DEFAULT_PLAN : string.
Variable utcnow : Q.
(** [float(n)] on an [int], [None] for its [OverflowError], and
    [float(s)] on a [str], [None] for its [ValueError]. *)
Variable float_of_int : Z -> option PyNum.float.
Variable float_of_str : string -> option PyNum.float.
(** [app.core.clients.usage.fetch_usage]: what the upstream answers to
    the n-th request of the run. *)
Variable fetch_usage : nat -> string -> string -> error + UsagePayload.t.
(** Whether an accounts repository, and so an auth manager, is wired in. *)
Variable auth_manager : bool.
(** [get_settings()] *)
Variable usage_refresh_enabled : bool.
Variable usage_refresh_interval_seconds : Z.

Definition _parse_credits_balance (value : option BalanceValue)
    : error + option PyNum.float :=
  match value with
  | None => inr None
  | Some (BalanceInt n) =>
      match float_of_int n with
      | Some x => inr (Some x)
      | None => inl OverflowError
      end
  | Some (BalanceFloat x) => inr (Some x)
  | Some (BalanceStr s) => inr (float_of_str (PyStr.strip s))
  end.

Definition _credits_snapshot (payload : UsagePayload.t)
    : error + (option bool * option bool * option PyNum.float) :=
  match UsagePayload.credits payload with
  | None => inr (None, None, None)
  | Some credits =>
      let credits_has := CreditsPayload.has_credits credits in
      let credits_unlimited := CreditsPayload.unlimited credits in
      let balance_value := CreditsPayload.balance credits in
      match _parse_credits_balance balance_value with
      | inr balance => inr (credits_has, credits_unlimited, balance)
      | inl e => inl e
      end
  end.

(** [await fetch_usage(access_token=..., account_id=...)] *)
Definition do_fetch_usage (access_token account_id : string) (w : World.t)
    : (error + UsagePayload.t) * World.t :=
  (fetch_usage (length (World.fetches w)) access_token account_id,
   World.mk (World.accounts_repo w) (World.usage_repo w)
     (World.fetches w ++ [(access_token, account_id)])).

(** [await self._usage_repo.add_entry(...)] *)
Definition add_entry (entry : AddEntry.t) (w : World.t) : World.t :=
  World.mk (World.accounts_repo w) (World.usage_repo w ++ [entry]) (World.fetches w).

(** The part of [_refresh_account] that follows the fetch. *)
Definition record_usage (payload : UsagePayload.t) (account : Account.t) (w : World.t)
    : (error + unit) * World.t :=
  let rate_limit := UsagePayload.rate_limit payload in
  let primary :=
    match rate_limit with
    | Some r => RateLimitPayload.primary_window r
    | None => None
    end in
  match _credits_snapshot payload with
  | inl e => (inl e, w)
  | inr (credits_has, credits_unlimited, credits_balance) =>
      match
        match primary with
        | Some p => _window_minutes (UsageWindow.limit_window_seconds p)
        | None => inr None
        end
      with
      | inl e => (inl e, w)
      | inr primary_window_minutes =>
          let secondary :=
            match rate_limit with
            | Some r => RateLimitPayload.secondary_window r
            | None => None
            end in
          match
            match secondary with
            | Some s => _window_minutes (UsageWindow.limit_window_seconds s)
            | None => inr None
            end
          with
          | inl e => (inl e, w)
          | inr secondary_window_minutes =>
              let w1 :=
                match primary with
                | Some p =>
                    match UsageWindow.used_percent p with
                    | Some used_percent =>
                        add_entry
                          (AddEntry.mk (Account.id account) used_percent None None
                             (Some "primary") (UsageWindow.reset_at p)
                             primary_window_minutes
                             credits_has credits_unlimited credits_balance) w
                    | None => w
                    end
                | None => w
                end in
              let w2 :=
                match secondary with
                | Some s =>
                    match UsageWindow.used_percent s with
                    | Some used_percent =>
                        add_entry
                          (AddEntry.mk (Account.id account) used_percent None None
                             (Some "secondary") (UsageWindow.reset_at s)
                             secondary_window_minutes
                             None None None) w1
                    | None => w1
                    end
                | None => w1
                end in
              (inr tt, w2)
          end
      end
  end.

(** [_refresh_account(account)]: the outcome, the account as the call
    leaves it (the auth manager changes it in place), and the world. *)
Definition _refresh_account (account : Account.t) (w : World.t)
    : (error + unit) * Account.t * World.t :=
  match decrypt (Account.access_token_encrypted account) with
  | None => (inl (AuthError CryptoError), account, w)
  | Some access_token =>
      match do_fetch_usage access_token (Account.id account) w with
      | (inr payload, w1) =>
          let '(r, w2) := record_usage payload account w1 in (r, account, w2)
      | (inl (UsageFetchError status_code), w1) =>
          if negb (status_code =? 401)%Z || negb auth_manager then (inr tt, account, w1)
          else
            match ensure_fresh decrypt encrypt refresh_access_token should_refresh
                    PERMANENT_FAILURE_CODES DEFAULT_PLAN utcnow true
                    (Store.mk account (World.accounts_repo w1)) with
            | (inl (RefreshErr _), st) =>
                (inr tt, Store.account st,
                 World.mk (Store.repo st) (World.usage_repo w1) (World.fetches w1))
            | (inl CryptoError, st) =>
                (inl (AuthError CryptoError), Store.account st,
                 World.mk (Store.repo st) (World.usage_repo w1) (World.fetches w1))
            | (inr account, st) =>
                let w2 :=
                  World.mk (Store.repo st) (World.usage_repo w1) (World.fetches w1) in
                match decrypt (Account.access_token_encrypted account) with
                | None => (inl (AuthError CryptoError), account, w2)
                | Some access_token =>
                    match do_fetch_usage access_token (Account.id account) w2 with
                    | (inr payload, w3) =>
                        let '(r, w4) := record_usage payload account w3 in
                        (r, account, w4)
                    | (inl (UsageFetchError _), w3) => (inr tt, account, w3)
                    | (inl e, w3) => (inl e, account, w3)
                    end
                end
            end
      | (inl e, w1) => (inl e, account, w1)
      end
  end.

Section refresh_accounts.
(** A [UsageHistory] row, read through [recorded_at]. *)
Context {History : Type}.
Variable recorded_at : History -> Q.
(** The [utcnow()] read when [refresh_accounts] starts. *)
Variable now : Q.

(** [latest and (now - latest.recorded_at).total_seconds() < interval] *)
Definition sampled_recently (latest_usage : gmap string History) (account : Account.t)
    : bool :=
  match latest_usage !! Account.id account with
  | Some latest =>
      negb (Qle_bool (inject_Z usage_refresh_interval_seconds)
                     (now - recorded_at latest))
  | None => false
  end.

(** The [for] loop: the accounts as it leaves them, each a distinct
    object, and the world.  An exception of [_refresh_account] is logged
    and the loop continues. *)
Fixpoint refresh_loop (accounts : list Account.t)
    (latest_usage : gmap string History) (w : World.t)
    : list Account.t * World.t :=
  match accounts with
  | [] => ([], w)
  | account :: rest =>
      let '(account', w') :=
        if bool_decide (Account.status account = DEACTIVATED) then (account, w)
        else if sampled_recently latest_usage account then (account, w)
        else
          let '(_, account', w') := _refresh_account account w in
          (account', w') in
      let '(rest', w'') := refresh_loop rest latest_usage w' in
      (account' :: rest', w'')
  end.

Definition refresh_accounts (accounts : list Account.t)
    (latest_usage : gmap string History) (w : World.t)
    : list Account.t * World.t :=
  if negb usage_refresh_enabled then (accounts, w)
  else refresh_loop accounts latest_usage w.
End refresh_accounts.
End updater.

End UsageUpdater.

(* ===================================================================== *)
(** * Part II: theorems                                                   *)
(* ===================================================================== *)

(** Concatenation unfolds on a constructor, as the proofs below expect. *)
#[local] Arguments String.append !_ _ / : simpl nomatch.

(** ** Facts about the string operations *)
Module PyStrFacts.
Import PyStr.

(** [t] starts and ends with a code point that is not white space (or is
    empty). *)
Definition starts_clean (t : string) : Prop :=
  match t with
  | EmptyString => True
  | String c _ => isspace c = false
  end.

Fixpoint ends_clean (t : string) : Prop :=
  match t with
  | EmptyString => True
  | String c EmptyString => isspace c = false
  | String _ r => ends_clean r
  end.

(** [t] is [s] without its leading and trailing white space. *)
Definition trimmed_of (s t : string) : Prop :=
  exists l r, s = l +:+ t +:+ r
    /\ all_space l = true /\ all_space r = true
    /\ starts_clean t /\ ends_clean t.

(** The code points of the embedding, U+0000..U+00FF. *)
Definition code_points : list ascii :=
  map (fun n => ascii_of_N (N.of_nat n)) (seq 0 256).

(** The white-space code points, and the ones [lower] moves (each by
    32), are those of CPython's tables. *)
Example isspace_table :
  map N_of_ascii (List.filter isspace code_points)
    = [9; 10; 11; 12; 13; 28; 29; 30; 31; 32; 133; 160]%N.
Proof. vm_compute. reflexivity. Qed.

Example lower_char_table :
  map N_of_ascii
      (List.filter (fun c => negb (Ascii.eqb (lower_char c) c)) code_points)
    = map N.of_nat (seq 65 26 ++ seq 192 23 ++ seq 216 7)%list
  /\ forallb (fun c => Ascii.eqb (lower_char c) c
                       || (N_of_ascii (lower_char c) =? N_of_ascii c + 32)%N)
             code_points = true.
Proof. vm_compute. split; reflexivity. Qed.

Lemma app_nil_r (s : string) : s +:+ "" = s.
Proof. induction s as [|c s IH]; simpl; [reflexivity | now rewrite IH]. Qed.

Lemma app_assoc (a b c : string) : (a +:+ b) +:+ c = a +:+ (b +:+ c).
Proof. induction a as [|x a IH]; simpl; [reflexivity | now rewrite IH]. Qed.

Lemma lstrip_all_space (l x : string) :
  all_space l = true -> lstrip (l +:+ x) = lstrip x.
Proof.
  induction l as [|c l IH]; simpl; [reflexivity |].
  intros [Hc Hl]%andb_prop. rewrite Hc. now apply IH.
Qed.

Lemma lstrip_starts_clean (t : string) :
  starts_clean t -> lstrip t = t.
Proof. destruct t as [|c t]; simpl; [reflexivity | now intros ->]. Qed.

Lemma rstrip_all_space (r : string) :
  all_space r = true -> rstrip r = "".
Proof.
  induction r as [|c r IH]; simpl; [reflexivity |].
  intros [Hc Hr]%andb_prop. now rewrite (IH Hr), Hc.
Qed.

Lemma rstrip_app_all_space (t r : string) :
  all_space r = true -> rstrip (t +:+ r) = rstrip t.
Proof.
  intros Hr. induction t as [|c t IH]; simpl.
  - now apply rstrip_all_space.
  - now rewrite IH.
Qed.

Lemma rstrip_ends_clean (t : string) :
  ends_clean t -> rstrip t = t.
Proof.
  induction t as [|c t IH]; [reflexivity |].
  destruct t as [|c' t'].
  - simpl. now intros ->.
  - intros H. change (rstrip (String c (String c' t')))
      with (match rstrip (String c' t') with
            | EmptyString => if isspace c then EmptyString else String c EmptyString
            | r' => String c r'
            end).
    now rewrite (IH H).
Qed.

(** The trimmed form is unique, and [strip] computes it. *)
Lemma strip_unique (s t : string) : trimmed_of s t -> strip s = t.
Proof.
  intros (l & r & -> & Hl & Hr & Hs & He). unfold strip.
  rewrite (lstrip_all_space _ _ Hl).
  destruct t as [|c t].
  - simpl. rewrite <- (app_nil_r r), (lstrip_all_space r "" Hr). reflexivity.
  - rewrite lstrip_starts_clean by exact Hs.
    rewrite (rstrip_app_all_space _ _ Hr). now apply rstrip_ends_clean.
Qed.

Lemma lstrip_split (s : string) :
  exists l, s = l +:+ lstrip s /\ all_space l = true /\ starts_clean (lstrip s).
Proof.
  induction s as [|c s (l & Hs & Hl & Hc)]; simpl.
  - now exists "".
  - destruct (isspace c) eqn:E.
    + exists (String c l). simpl. rewrite E, Hl. now rewrite <- Hs.
    + exists "". simpl. now rewrite E.
Qed.

Lemma rstrip_split (s : string) :
  exists r, s = rstrip s +:+ r /\ all_space r = true /\ ends_clean (rstrip s).
Proof.
  induction s as [|c s (r & Hs & Hr & Hc)]; simpl.
  - now exists "".
  - destruct (rstrip s) as [|c' s'] eqn:E.
    + destruct (isspace c) eqn:Ec.
      * exists (String c r). simpl in *. rewrite Ec, Hr. now rewrite <- Hs.
      * exists r. simpl in *. subst r. repeat split; assumption.
    + exists r. split; [simpl in *; congruence |]. now split.
Qed.

Lemma rstrip_starts_clean (s : string) :
  starts_clean s -> starts_clean (rstrip s).
Proof.
  destruct s as [|c s]; simpl; [trivial |].
  intros Hc. destruct (rstrip s); [now rewrite Hc | exact Hc].
Qed.

(** [strip] does trim. *)
Lemma strip_trimmed (s : string) : trimmed_of s (strip s).
Proof.
  destruct (lstrip_split s) as (l & Hs & Hl & Hc).
  destruct (rstrip_split (lstrip s)) as (r & Hs' & Hr & Hc').
  exists l, r. unfold strip. rewrite <- Hs'.
  repeat split; try assumption. now apply rstrip_starts_clean.
Qed.

Lemma strip_all_space (s : string) : all_space s = true -> strip s = "".
Proof.
  intros H. apply strip_unique. exists s, "". simpl.
  rewrite app_nil_r. now repeat split.
Qed.

End PyStrFacts.

(** ** Plan normalization *)
Module PlanTypesFacts.
Import PyStr PyStrFacts PlanTypes.

Lemma in_ACCOUNT_PLAN_TYPES (x : string) :
  x ∈ ACCOUNT_PLAN_TYPES <->
  x ∈ ["free"; "plus"; "pro"; "team"; "business"; "enterprise"; "edu"].
Proof. unfold ACCOUNT_PLAN_TYPES. now rewrite elem_of_list_to_set. Qed.

Lemma truthy_empty (s : string) : truthy s = false <-> s = "".
Proof. destruct s; simpl; split; congruence. Qed.

(** C7.  For every input string, [canonicalize_account_plan_type] trims
    it and lower-cases it; it returns the lower-cased value when that is
    one of free, plus, pro, team, business, enterprise, edu, and the
    trimmed original otherwise.  "PRO" gives "pro", "education" gives
    "education", and an empty or white-space-only input (or [None])
    gives [None]. *)
Theorem canonicalize_account_plan_type_spec :
  (forall s t : string, trimmed_of s t ->
     canonicalize_account_plan_type (Some s) =
       if decide (t = "") then None
       else if decide (lower t ∈
                 ["free"; "plus"; "pro"; "team"; "business"; "enterprise"; "edu"])
            then Some (lower t)
            else Some t)
  /\ canonicalize_account_plan_type (Some "PRO") = Some "pro"
  /\ canonicalize_account_plan_type (Some "education") = Some "education"
  /\ canonicalize_account_plan_type (Some "") = None
  /\ (forall s : string, all_space s = true ->
        canonicalize_account_plan_type (Some s) = None)
  /\ canonicalize_account_plan_type None = None.
Proof.
  assert (Hmain : forall s t : string, trimmed_of s t ->
     canonicalize_account_plan_type (Some s) =
       if decide (t = "") then None
       else if decide (lower t ∈
                 ["free"; "plus"; "pro"; "team"; "business"; "enterprise"; "edu"])
            then Some (lower t)
            else Some t).
  { intros s t Ht. apply strip_unique in Ht.
    unfold canonicalize_account_plan_type, _clean_plan_type. rewrite Ht.
    destruct (decide (t = "")) as [->|Hne]; [reflexivity |].
    assert (Htr : truthy t = true).
    { destruct (truthy t) eqn:E; [reflexivity |]. now apply truthy_empty in E. }
    rewrite Htr. simpl. rewrite Htr. simpl. destruct (decide (lower t ∈ _)) as [Hin|Hnin].
    - rewrite bool_decide_eq_true_2; [reflexivity |]. now apply in_ACCOUNT_PLAN_TYPES.
    - rewrite bool_decide_eq_false_2; [reflexivity |].
      now rewrite in_ACCOUNT_PLAN_TYPES. }
  split; [exact Hmain |].
  repeat split; try (vm_compute; reflexivity).
  intros s Hs. rewrite (Hmain s "").
  - reflexivity.
  - rewrite <- (strip_all_space s Hs). apply strip_trimmed.
Qed.

Lemma canonicalize_account_plan_type_witness :
  trimmed_of "  Pro " "Pro"
  /\ canonicalize_account_plan_type (Some "  Pro ") = Some "pro".
Proof.
  assert (H : trimmed_of "  Pro " "Pro").
  { exists "  ", " ". repeat split. }
  split; [exact H |].
  rewrite (proj1 canonicalize_account_plan_type_spec _ _ H).
  vm_compute. reflexivity.
Defined.

End PlanTypesFacts.

(** ** Downstream status reporting: the used-percent bound *)
Module PercentFacts.
Import PyNum ProxyHelpers.

Lemma Qle_bool_false (x y : Q) : Qle_bool x y = false -> (y < x)%Q.
Proof.
  intros H. apply Qnot_le_lt. intros Hle.
  apply Qle_bool_iff in Hle. congruence.
Qed.

Lemma Qfloor_nonneg (q : Q) : (0 <= q)%Q -> (0 <= Qfloor q)%Z.
Proof. intros H. apply (Qfloor_resp_le 0 q) in H. exact H. Qed.

Lemma Qfloor_below_100 (q : Q) : (q < 100)%Q -> (Qfloor q <= 100)%Z.
Proof.
  intros H. apply Qlt_le_weak in H.
  apply (Qfloor_resp_le q 100) in H. exact H.
Qed.

(** The value [_percent_to_int] computes on a rational. *)
Lemma _percent_to_int_Fin (q : Q) :
  _percent_to_int (Fin q) =
    Returned (if Qle_bool 100 q then 100%Z
              else if Qle_bool q 0 then 0%Z
              else Qfloor q).
Proof.
  unfold _percent_to_int, PyNum.min, PyNum.max, lt.
  destruct (Qle_bool 100 q) eqn:E100; simpl; [reflexivity |].
  destruct (Qle_bool q 0) eqn:E0; simpl; [reflexivity |].
  unfold Qtrunc. apply Qle_bool_false, Qlt_le_weak in E0.
  apply Qle_bool_iff in E0. now rewrite E0.
Qed.

Lemma _percent_to_int_range (value : float) :
  exists n, _percent_to_int value = Returned n /\ (0 <= n <= 100)%Z.
Proof.
  destruct value as [q| | |].
  - rewrite _percent_to_int_Fin.
    destruct (Qle_bool 100 q) eqn:E100; [exists 100%Z; split; [reflexivity | lia] |].
    destruct (Qle_bool q 0) eqn:E0; [exists 0%Z; split; [reflexivity | lia] |].
    exists (Qfloor q). split; [reflexivity |]. split.
    + apply Qfloor_nonneg, Qlt_le_weak, Qle_bool_false, E0.
    + apply Qfloor_below_100, Qle_bool_false, E100.
  - exists 100%Z. split; [reflexivity | lia].
  - exists 0%Z. split; [reflexivity | lia].
  - exists 100%Z. split; [reflexivity | lia].
Qed.

(** C9.  [_percent_to_int] returns, for every float (the infinities and
    NaN included), an integer between 0 and 100: 100 from 100 up, 0 from
    0 down, the integer part in between.  Hence every window snapshot
    that [_window_snapshot] builds carries a [used_percent] in the closed
    range 0..100, and building it never fails in [int()]. *)
Theorem snapshot_used_percent_in_range :
  (forall value : float,
     exists n, _percent_to_int value = Returned n /\ (0 <= n <= 100)%Z)
  /\ (forall q : Q,
        _percent_to_int (Fin q) =
          Returned (if Qle_bool 100 q then 100%Z
                    else if Qle_bool q 0 then 0%Z
                    else Qfloor q))
  /\ (forall py_sum default_window_minutes summary rows window now_epoch,
        exists r,
          _window_snapshot py_sum default_window_minutes summary rows window now_epoch
            = Returned r
          /\ forall snap, r = Some snap ->
               (0 <= RateLimitWindowSnapshotData.used_percent snap <= 100)%Z).
Proof.
  split; [exact _percent_to_int_range |].
  split; [exact _percent_to_int_Fin |].
  intros py_sum dwm summary rows window now_epoch. unfold _window_snapshot.
  destruct summary as [summary|]; [| exists None; split; [reflexivity | discriminate]].
  destruct (_normalize_used_percent _ _ rows) as [used|];
    [| exists None; split; [reflexivity | discriminate]].
  destruct (UsageWindowSummary.reset_at summary) as [reset_at|];
    [| exists None; split; [reflexivity | discriminate]].
  match goal with
  | |- context [match ?w with Some _ => _ | None => Returned None end] =>
      destruct w as [wm|]
  end; [| exists None; split; [reflexivity | discriminate]].
  destruct (wm =? 0)%Z; [exists None; split; [reflexivity | discriminate] |].
  destruct (_percent_to_int_range used) as (n & -> & Hn).
  eexists. split; [reflexivity |].
  intros snap [= <-]. exact Hn.
Qed.

End PercentFacts.

(** ** Credits headers *)
Module CreditsFacts.
Import PyNum Models ProxyHelpers.

(** An entry carries credits data when one of its three credits columns
    is set. *)
Definition carries_credits (e : UsageHistory.t) : bool :=
  match UsageHistory.credits_has e, UsageHistory.credits_unlimited e,
        UsageHistory.credits_balance e with
  | None, None, None => false
  | _, _, _ => true
  end.

Definition any_has (entries : list UsageHistory.t) : bool :=
  existsb (fun e => is_true (UsageHistory.credits_has e)) entries.

Definition any_unlimited (entries : list UsageHistory.t) : bool :=
  existsb (fun e => is_true (UsageHistory.credits_unlimited e)) entries.

(** The balances that count: those of the entries not marked unlimited. *)
Definition counted_balances (entries : list UsageHistory.t) : list float :=
  omap (fun e => if is_true (UsageHistory.credits_unlimited e) then None
                 else UsageHistory.credits_balance e) entries.

(** The balances added one after the other to [0.0], each addition
    rounded as doubles are. *)
Definition running_total (balances : list float) : float :=
  fold_left add balances (Fin 0).

Definition is_digit (c : ascii) : bool :=
  let n := N_of_ascii c in ((48 <=? n) && (n <=? 57))%N.

Fixpoint all_digits (s : string) : bool :=
  match s with
  | EmptyString => true
  | String c r => is_digit c && all_digits r
  end.

(** An optional minus sign, one or more digits, a point, two digits. *)
Definition two_decimal (s : string) : Prop :=
  exists sign whole f1 f2,
    s = sign +:+ whole +:+ "." +:+ String f1 (String f2 "")
    /\ (sign = "" \/ sign = "-")
    /\ whole <> "" /\ all_digits whole = true
    /\ is_digit f1 = true /\ is_digit f2 = true.

(** *** The loop of [_aggregate_credits] *)

Lemma fold_credits_step (entries : list UsageHistory.t) (acc : CreditsAcc.t) :
  fold_left credits_step entries acc =
    CreditsAcc.mk
      (CreditsAcc.has_data acc || existsb carries_credits entries)
      (CreditsAcc.has_credits acc || any_has entries)
      (CreditsAcc.unlimited acc || any_unlimited entries)
      (fold_left add (counted_balances entries) (CreditsAcc.balance_total acc)).
Proof.
  revert acc. induction entries as [|e entries IH]; intros [hd hc un bt].
  - simpl. now rewrite !orb_false_r.
  - simpl fold_left at 1. rewrite IH. clear IH.
    unfold credits_step, carries_credits, any_has, any_unlimited, counted_balances.
    destruct e as [aid [[]|] [[]|] [b|]]; simpl;
      rewrite ?orb_true_r, ?orb_false_r, ?orb_true_l, ?orb_assoc;
      try reflexivity; now destruct hd.
Qed.

Lemma _aggregate_credits_spec (entries : list UsageHistory.t) :
  _aggregate_credits entries =
    if existsb carries_credits entries
    then Some (any_has entries || any_unlimited entries,
               any_unlimited entries,
               running_total (counted_balances entries))
    else None.
Proof.
  unfold _aggregate_credits. rewrite fold_credits_step. simpl.
  now destruct (existsb carries_credits entries).
Qed.

(** *** The two-decimal rendering *)

Lemma string_of_uint_digits (u : Decimal.uint) :
  all_digits (NilEmpty.string_of_uint u) = true.
Proof. induction u; simpl; auto. Qed.

Lemma string_of_uint_nonempty (u : Decimal.uint) :
  u <> Decimal.Nil -> NilEmpty.string_of_uint u <> "".
Proof. destruct u; simpl; congruence. Qed.

Lemma whole_part_digits (z : Z) :
  (0 <= z)%Z ->
  let w := NilEmpty.string_of_int (Z.to_int z) in
  w <> "" /\ all_digits w = true.
Proof.
  intros Hz. destruct z as [|p|p]; [| | lia].
  - simpl. split; [discriminate | reflexivity].
  - simpl. split.
    + apply string_of_uint_nonempty, DecimalPos.Unsigned.to_uint_nonnil.
    + apply string_of_uint_digits.
Qed.

Lemma digit_char_is_digit (z : Z) :
  (0 <= z < 10)%Z -> is_digit (digit_char z) = true.
Proof.
  intros Hz. unfold is_digit, digit_char.
  rewrite N_ascii_embedding by lia.
  apply andb_true_intro. split; apply N.leb_le; lia.
Qed.

Lemma round_half_even_nonneg (x : Q) : (0 <= x)%Q -> (0 <= round_half_even x)%Z.
Proof.
  intros Hx. pose proof (PercentFacts.Qfloor_nonneg x Hx) as Hf.
  unfold round_half_even.
  destruct (_ ?= _)%Q; [destruct (Z.even _) | |]; lia.
Qed.

Lemma format_fixed_Q_two_decimal (q : Q) : two_decimal (format_fixed_Q 2 q).
Proof.
  unfold format_fixed_Q.
  set (r := round_half_even (Qabs q * inject_Z (10 ^ Z.of_nat 2))).
  assert (Hr : (0 <= r)%Z).
  { apply round_half_even_nonneg, Qmult_le_0_compat; [apply Qabs_nonneg | easy]. }
  change (10 ^ Z.of_nat 2)%Z with 100%Z.
  destruct (whole_part_digits (r / 100)) as [Hne Hd];
    [apply Z.div_pos; lia |].
  exists (if Qle_bool 0 q then "" else "-"),
         (NilEmpty.string_of_int (Z.to_int (r / 100))),
         (digit_char ((r mod 100 / 10) mod 10)),
         (digit_char ((r mod 100) mod 10)).
  split; [reflexivity |].
  split; [destruct (Qle_bool 0 q); auto |].
  split; [exact Hne |]. split; [exact Hd |].
  split; apply digit_char_is_digit, Z.mod_pos_bound; lia.
Qed.

(** The text [f"{total:.2f}"] gives: two decimals for a number, and the
    name of the value for an infinity or a NaN. *)
Definition balance_text (total : float) (v : string) : Prop :=
  match total with
  | Fin _ => two_decimal v
  | PInf => v = "inf"
  | NInf => v = "-inf"
  | NaN => v = "nan"
  end.

Lemma format_fixed_balance_text (total : float) :
  balance_text total (format_fixed 2 total).
Proof.
  destruct total as [q| | |]; simpl; try reflexivity.
  apply format_fixed_Q_two_decimal.
Qed.

Lemma two_decimal_starts (s : string) :
  two_decimal s ->
  exists c r, s = String c r /\ (c = "-"%char \/ is_digit c = true).
Proof.
  intros (sign & whole & f1 & f2 & -> & Hsign & Hne & Hd & _).
  destruct whole as [|c w]; [contradiction |].
  simpl in Hd. apply andb_true_iff in Hd as [Hc _].
  destruct Hsign as [-> | ->]; simpl; eauto.
Qed.

(** C8.  When some entry carries credits data, [_credits_headers] is the
    mapping with exactly the three keys [x-codex-credits-has-credits],
    [x-codex-credits-unlimited] (each "true" or "false") and
    [x-codex-credits-balance]; when no entry carries credits data the
    mapping is empty.  The aggregate: unlimited when some entry is,
    has-credits when some entry has or is unlimited, and the balance the
    running total, in doubles, over the entries not marked unlimited.
    The balance header is that total in fixed two-decimal form when the
    total is a number; when it is an infinity or a NaN, which a balance
    can be and which a total of finite balances can overflow to, the
    header reads [inf], [-inf] or [nan]. *)
Theorem credits_headers_spec (entries : list UsageHistory.t) :
  if existsb carries_credits entries then
    let has_credits := any_has entries || any_unlimited entries in
    let unlimited := any_unlimited entries in
    let balance_total := running_total (counted_balances entries) in
    _credits_headers entries =
      <["x-codex-credits-has-credits" := if has_credits then "true" else "false"]>
      (<["x-codex-credits-unlimited" := if unlimited then "true" else "false"]>
      (<["x-codex-credits-balance" := format_fixed 2 balance_total]> ∅))
    /\ dom (_credits_headers entries) =
         ({["x-codex-credits-has-credits"; "x-codex-credits-unlimited";
            "x-codex-credits-balance"]} : gset string)
    /\ (forall v, _credits_headers entries !! "x-codex-credits-has-credits" = Some v ->
          v = "true" \/ v = "false")
    /\ (forall v, _credits_headers entries !! "x-codex-credits-unlimited" = Some v ->
          v = "true" \/ v = "false")
    /\ (exists v, _credits_headers entries !! "x-codex-credits-balance" = Some v
                  /\ balance_text balance_total v)
  else _credits_headers entries = ∅.
Proof.
  unfold _credits_headers. rewrite _aggregate_credits_spec.
  destruct (existsb carries_credits entries); [| reflexivity].
  cbv zeta. unfold bool_str.
  split; [reflexivity |].
  split; [rewrite !dom_insert_L, dom_empty_L; set_solver |].
  split; [| split].
  - intros v. rewrite lookup_insert_eq. intros [= <-].
    destruct (_ || _); auto.
  - intros v. rewrite lookup_insert_ne by discriminate.
    rewrite lookup_insert_eq. intros [= <-].
    destruct (any_unlimited entries); auto.
  - eexists. split.
    + rewrite !lookup_insert_ne by discriminate. apply lookup_insert_eq.
    + apply format_fixed_balance_text.
Qed.

(** Two entries with balances 10.125 and 2.25, and one without credits
    data: the total is 12.375 and the balance header reads "12.38". *)
Lemma credits_headers_witness :
  let entries :=
    [ UsageHistory.mk "a" (Some true) (Some false) (Some (Fin (81 # 8)));
      UsageHistory.mk "b" None None None;
      UsageHistory.mk "c" (Some false) None (Some (Fin (9 # 4))) ] in
  exists v, _credits_headers entries !! "x-codex-credits-balance" = Some v
            /\ two_decimal v /\ v = "12.38".
Proof.
  cbv zeta.
  pose proof (credits_headers_spec
       [ UsageHistory.mk "a" (Some true) (Some false) (Some (Fin (81 # 8)));
         UsageHistory.mk "b" None None None;
         UsageHistory.mk "c" (Some false) None (Some (Fin (9 # 4))) ]) as H.
  change (existsb carries_credits _) with true in H. cbv zeta in H.
  destruct H as (_ & _ & _ & _ & v & Hv & Htext).
  exists v. split; [exact Hv |].
  assert (Hval : v = "12.38") by (vm_compute in Hv; congruence).
  split; [| exact Hval].
  match type of Htext with
  | balance_text ?t _ => remember t as total eqn:E
  end.
  destruct total; [exact Htext | vm_compute in E; discriminate ..].
Defined.

(** Two entries with the finite balance 2^1023 each: the total overflows
    and the balance header reads "inf", which is no two-decimal string. *)
Lemma credits_headers_counterexample :
  let entries :=
    [ UsageHistory.mk "a" (Some true) None (Some (Fin (2 ^ 1023)));
      UsageHistory.mk "b" None None (Some (Fin (2 ^ 1023))) ] in
  existsb carries_credits entries = true
  /\ _credits_headers entries !! "x-codex-credits-balance" = Some "inf"
  /\ ~ two_decimal "inf".
Proof.
  cbv zeta. split; [reflexivity |]. split; [vm_compute; reflexivity |].
  intros H. apply two_decimal_starts in H as (c & r & [= <- <-] & [H | H]);
    discriminate.
Qed.

End CreditsFacts.

(** ** Refresh failures in the auth manager *)
Module AuthManagerFacts.
Import Models AuthManager.

Section refresh_failure.
Variable decrypt : list byte -> option string.
Variable encrypt : string -> list byte.
Variable refresh_access_token : string -> RefreshError.t + TokenRefreshResult.t.
Variable PERMANENT_FAILURE_CODES : gmap string string.
Variable DEFAULT_PLAN : string.
Variable utcnow : Q.

(** C4.  When the token refresh inside [refresh_account] fails with a
    permanent error, the repository receives
    [update_status(account.id, DEACTIVATED, reason)], the account the
    caller holds becomes DEACTIVATED with that reason, where the reason
    is the entry of [PERMANENT_FAILURE_CODES] for the error code, or
    the error message when the table has none, and the error is raised
    again.  When the error is not permanent it is raised again, and
    neither the account nor the repository changes. *)
Theorem refresh_account_failure
    (st : Store.t) (refresh_token : string) (exc : RefreshError.t) :
  decrypt (Account.refresh_token_encrypted (Store.account st)) = Some refresh_token ->
  refresh_access_token refresh_token = inl exc ->
  let account := Store.account st in
  let reason :=
    match PERMANENT_FAILURE_CODES !! RefreshError.code exc with
    | Some text => text
    | None => RefreshError.message exc
    end in
  refresh_account decrypt encrypt refresh_access_token
                  PERMANENT_FAILURE_CODES DEFAULT_PLAN utcnow st =
    if RefreshError.is_permanent exc then
      (inl (RefreshErr exc),
       Store.mk
         (Account.mk (Account.id account) (Account.email account)
            (Account.plan_type account)
            (Account.access_token_encrypted account)
            (Account.refresh_token_encrypted account)
            (Account.id_token_encrypted account)
            (Account.last_refresh account)
            DEACTIVATED (Some reason))
         (Store.repo st ++ [update_status (Account.id account) DEACTIVATED (Some reason)]))
    else (inl (RefreshErr exc), st).
Proof.
  intros Hdec Href. cbv zeta.
  unfold refresh_account, mbind, M_bind, get_account, do_decrypt.
  rewrite Hdec. unfold mret, M_ret.
  unfold try_except_RefreshError, do_refresh_access_token.
  rewrite Href. unfold raise.
  destruct (RefreshError.is_permanent exc).
  - unfold repo_call, set_account, with_status, with_deactivation_reason.
    simpl. unfold default. destruct (PERMANENT_FAILURE_CODES !! _); reflexivity.
  - simpl. now destruct st.
Qed.
End refresh_failure.

(** A refresh that fails with the permanent code [invalid_grant], which
    the table maps to a text, on an ACTIVE account. *)
Lemma refresh_account_failure_witness :
  let account :=
    Account.mk "acc-1" "a@example.com" "plus" [x00] [x01] [x02] 0 ACTIVE None in
  let exc := RefreshError.mk "invalid_grant" "grant rejected" true in
  let codes : gmap string string := {[ "invalid_grant" := "Refresh token revoked" ]} in
  refresh_account (fun _ => Some "rt") (fun _ => []) (fun _ => inl exc)
                  codes "free" 0 (Store.mk account []) =
    (inl (RefreshErr exc),
     Store.mk
       (Account.mk "acc-1" "a@example.com" "plus" [x00] [x01] [x02] 0
          DEACTIVATED (Some "Refresh token revoked"))
       [update_status "acc-1" DEACTIVATED (Some "Refresh token revoked")]).
Proof.
  cbv zeta.
  rewrite (refresh_account_failure (fun _ => Some "rt") (fun _ => [])
             (fun _ => inl (RefreshError.mk "invalid_grant" "grant rejected" true))
             {[ "invalid_grant" := "Refresh token revoked" ]} "free" 0
             (Store.mk (Account.mk "acc-1" "a@example.com" "plus" [x00] [x01] [x02]
                          0 ACTIVE None) [])
             "rt" (RefreshError.mk "invalid_grant" "grant rejected" true)
             eq_refl eq_refl).
  reflexivity.
Defined.

End AuthManagerFacts.

(** ** Device-code polling *)
Module DeviceTokenFacts.
Import Json OAuth.

(** The pending signal of a payload: an extracted error code
    [authorization_pending] or [slow_down], or a [status] field that
    reads [pending] or [authorization_pending] once lower-cased. *)
Definition pending_signal (payload : OAuthTokenPayload.t) : Prop :=
  _extract_error_code payload = Some "authorization_pending"
  \/ _extract_error_code payload = Some "slow_down"
  \/ exists status, OAuthTokenPayload.status payload = Some status
       /\ (PyStr.lower status = "pending"
           \/ PyStr.lower status = "authorization_pending").

Lemma _is_pending_error_spec (payload : OAuthTokenPayload.t) :
  _is_pending_error payload = true <-> pending_signal payload.
Proof.
  unfold _is_pending_error, pending_signal.
  destruct (_extract_error_code payload) as [c|].
  - destruct (bool_decide (c ∈ _)) eqn:E.
    + apply bool_decide_eq_true_1 in E. split; [intros _ | reflexivity].
      set_unfold in E. destruct E as [-> | [-> | []]]; auto.
    + apply bool_decide_eq_false_1 in E.
      destruct (OAuthTokenPayload.status payload) as [st|].
      * rewrite andb_true_iff, bool_decide_eq_true. split.
        -- intros [_ Hin]. right; right. exists st. split; [reflexivity |].
           set_unfold in Hin. destruct Hin as [-> | [-> | []]]; auto.
        -- intros [Hc | [Hc | (st' & [= <-] & Hl)]].
           ++ exfalso. apply E. injection Hc as ->. set_solver.
           ++ exfalso. apply E. injection Hc as ->. set_solver.
           ++ split; [| set_unfold; destruct Hl as [-> | ->]; auto].
              destruct st; [destruct Hl; discriminate | reflexivity].
      * split; [discriminate |].
        intros [Hc | [Hc | (st' & [=] & _)]];
          exfalso; apply E; injection Hc as ->; set_solver.
  - destruct (OAuthTokenPayload.status payload) as [st|].
    + rewrite andb_true_iff, bool_decide_eq_true. split.
      * intros [_ Hin]. right; right. exists st. split; [reflexivity |].
        set_unfold in Hin. destruct Hin as [-> | [-> | []]]; auto.
      * intros [[=] | [[=] | (st' & [= <-] & Hl)]].
        split; [| set_unfold; destruct Hl as [-> | ->]; auto].
        destruct st; [destruct Hl; discriminate | reflexivity].
    + split; [discriminate |].
      intros [[=] | [[=] | (st' & [=] & _)]].
Qed.

Section polling.
Variable settings : Settings.t.
Variable post : string -> Body -> Response.t.
Variable token_payload_validate : JsonObject -> option OAuthTokenPayload.t.

(** The response to the poll with the given arguments. *)
Definition poll_response (device_auth_id user_code : string)
    (base_url : option string) : Response.t :=
  post (auth_base settings base_url +:+ "/api/accounts/deviceauth/token")
       (JsonBody {[ "device_auth_id" := JStr device_auth_id;
                    "user_code" := JStr user_code ]}).

Lemma exchange_authorization_code_not_none code code_verifier redirect_uri
    base_url client_id :
  match exchange_authorization_code settings post token_payload_validate
          code code_verifier redirect_uri base_url client_id with
  | Return _ | Raise _ => True
  end.
Proof. now destruct (exchange_authorization_code _ _ _ _ _ _ _ _). Qed.

(** C6.  [exchange_device_token] returns [None] exactly when the body of
    the response validates as a token payload and either the HTTP status
    is 403 or 404 or the payload carries a pending signal.  The body is
    validated before the status is looked at: a body that does not
    validate raises [invalid_response] whatever the status, 403 and 404
    included.  Any other response with status 400 or above raises the
    [OAuthError] built from the payload, which carries the status, the
    extracted code (or [http_<status>]) and the extracted message (or a
    default one). *)
Theorem exchange_device_token_pending
    (device_auth_id user_code : string) (base_url : option string) :
  let resp := poll_response device_auth_id user_code base_url in
  let status := Response.status resp in
  let result := exchange_device_token settings post token_payload_validate
                  device_auth_id user_code base_url in
  (result = Return None
   <-> exists payload_data,
         token_payload_validate (Response.data resp) = Some payload_data
         /\ (status = 403%Z \/ status = 404%Z \/ pending_signal payload_data))
  /\ (token_payload_validate (Response.data resp) = None ->
      result = Raise (OAuthError.mk "invalid_response" "Device auth response invalid"
                        None))
  /\ (forall payload_data,
        token_payload_validate (Response.data resp) = Some payload_data ->
        (400 <= status)%Z ->
        ~ (status = 403%Z \/ status = 404%Z \/ pending_signal payload_data) ->
        result =
          Raise (OAuthError.mk
                   (match _extract_error_code payload_data with
                    | Some (String c r) => String c r
                    | _ => "http_" +:+ PyNum.str_of_int status
                    end)
                   (match _extract_error_message payload_data with
                    | Some (String c r) => String c r
                    | _ => "OAuth request failed (" +:+ PyNum.str_of_int status +:+ ")"
                    end)
                   (Some status))).
Proof.
  cbv zeta.
  unfold exchange_device_token. fold (poll_response device_auth_id user_code base_url).
  set (resp := poll_response device_auth_id user_code base_url) in *.
  destruct (token_payload_validate (Response.data resp)) as [payload_data|] eqn:Hval.
  2:{ split; [split; [discriminate | intros (p & [=] & _)] |].
      split; [reflexivity | intros p [=]]. }
  assert (Hsome : forall P : OAuthTokenPayload.t -> Prop,
            (exists p, Some payload_data = Some p /\ P p) <-> P payload_data).
  { intros P. split; [now intros (p & [= <-] & H) | intros H; now exists payload_data]. }
  rewrite Hsome. split; [| split; [discriminate |]].
  - pose proof (_is_pending_error_spec payload_data) as Hpend.
    destruct (bool_decide (Response.status resp ∈ [403%Z; 404%Z])) eqn:E34.
    { apply bool_decide_eq_true_1 in E34.
      assert (H34 : Response.status resp = 403%Z \/ Response.status resp = 404%Z).
      { set_unfold in E34. destruct E34 as [-> | [-> | []]]; auto. }
      split; [intros _; tauto | reflexivity]. }
    apply bool_decide_eq_false_1 in E34.
    assert (H34 : ~ (Response.status resp = 403%Z \/ Response.status resp = 404%Z)).
    { intros [H | H]; apply E34; rewrite H; repeat constructor. }
    destruct (_is_pending_error payload_data) eqn:Ep.
    { assert (pending_signal payload_data) by (apply Hpend; reflexivity).
      destruct (400 <=? Response.status resp)%Z; (split; [intros _; tauto | reflexivity]). }
    assert (Hnp : ~ pending_signal payload_data).
    { intros H. apply Hpend in H. congruence. }
    destruct (400 <=? Response.status resp)%Z eqn:E400.
    + split; [discriminate | tauto].
    + split; [| tauto]. intros H. exfalso.
      destruct (PyStr.truthy_opt (OAuthTokenPayload.authorization_code payload_data)).
      * destruct (negb _); [discriminate |].
        destruct (exchange_authorization_code _ _ _ _ _ _ _ _); discriminate.
      * destruct (_parse_tokens payload_data); discriminate.
  - intros p [= <-] H400 Hn.
    pose proof (_is_pending_error_spec payload_data) as Hpend.
    destruct (bool_decide (Response.status resp ∈ [403%Z; 404%Z])) eqn:E34.
    { apply bool_decide_eq_true_1 in E34. exfalso. apply Hn.
      set_unfold in E34. destruct E34 as [-> | [-> | []]]; auto. }
    apply Z.leb_le in H400. rewrite H400.
    destruct (_is_pending_error payload_data) eqn:Ep.
    { exfalso. apply Hn. right; right. apply Hpend. reflexivity. }
    unfold _oauth_error_from_payload, or_str, PyStr.truthy.
    destruct (_extract_error_code payload_data) as [[|]|];
      destruct (_extract_error_message payload_data) as [[|]|]; reflexivity.
Qed.
End polling.

(** A validator for the examples: it refuses a body whose [access_token]
    is not a string, and reads the [error] and [status] keys. *)
Definition sample_token_validate (data : JsonObject) : option OAuthTokenPayload.t :=
  match data !! "access_token" with
  | Some (JStr _) | None =>
      Some (OAuthTokenPayload.mk (as_str (get "access_token" data))
              None None None None (get "error" data)
              None None None None (as_str (get "status" data)))
  | Some _ => None
  end.

(** A 400 response whose body is [{"error": "slow_down"}] keeps the
    caller polling; so does the theorem say. *)
Lemma exchange_device_token_pending_witness :
  let settings := Settings.mk "https://auth.example.com" "cid" "http://cb" "openid" in
  let post := fun (_ : string) (_ : Body) =>
    Response.mk 400 {[ "error" := JStr "slow_down" ]} in
  exchange_device_token settings post sample_token_validate "dev-1" "CODE" None
    = Return None.
Proof.
  cbv zeta.
  pose proof (exchange_device_token_pending
           (Settings.mk "https://auth.example.com" "cid" "http://cb" "openid")
           (fun _ _ => Response.mk 400 {[ "error" := JStr "slow_down" ]})
           sample_token_validate "dev-1" "CODE" None) as H.
  cbv zeta in H. destruct H as [H _]. apply H.
  exists (OAuthTokenPayload.mk None None None None None (JStr "slow_down")
            None None None None None).
  split; [vm_compute; reflexivity |].
  right; right. unfold pending_signal. right; left. reflexivity.
Defined.

(** A 403 response whose body is [{"access_token": 5}], which does not
    validate: the call raises [invalid_response] instead of returning
    [None]. *)
Lemma exchange_device_token_pending_counterexample :
  let settings := Settings.mk "https://auth.example.com" "cid" "http://cb" "openid" in
  let post := fun (_ : string) (_ : Body) =>
    Response.mk 403 {[ "access_token" := JInt 5 ]} in
  Response.status (post "" (JsonBody ∅)) = 403%Z
  /\ exchange_device_token settings post sample_token_validate "dev-1" "CODE" None
     = Raise (OAuthError.mk "invalid_response" "Device auth response invalid" None)
  /\ exchange_device_token settings post sample_token_validate "dev-1" "CODE" None
     <> Return None.
Proof. cbv zeta. split; [reflexivity |]. split; [vm_compute; reflexivity | discriminate]. Qed.

End DeviceTokenFacts.

(** ** Device-code request: interval and lifetime *)
Module DeviceCodeFacts.
Import Json OAuth.

Section lifetime.
Variable settings : Settings.t.
Variable post : string -> Body -> Response.t.
Variable device_payload_validate : JsonObject -> option DeviceCodePayload.t.
Variable fromisoformat : string -> option Datetime.t.
Variable now : Q.

(** The time left until the instant [expires_at] names, when it names
    one that lies in the future. *)
Definition seconds_remaining (expires_at : option string) : option Q :=
  match expires_at with
  | Some (String c r) =>
      match fromisoformat (replace_Z (String c r)) with
      | Some parsed =>
          if Qle_bool (Datetime.instant parsed - now) 0 then None
          else Some (Datetime.instant parsed - now)%Q
      | None => None
      end
  | _ => None
  end.



Lemma _expires_in_seconds_spec (expires_at : option string) :
  _expires_in_seconds fromisoformat now expires_at =
    match seconds_remaining expires_at with
    | Some delta => Some (Qfloor delta)
    | None => None
    end.
Proof.
  unfold _expires_in_seconds, seconds_remaining.
  destruct expires_at as [[|c r]|]; try reflexivity. simpl PyStr.truthy. simpl negb.
  cbv iota. destruct (fromisoformat _) as [parsed|]; [| reflexivity].
  destruct (Qle_bool _ 0) eqn:E; [reflexivity |].
  unfold PyNum.Qtrunc.
  apply PercentFacts.Qle_bool_false, Qlt_le_weak in E.
  apply Qle_bool_iff in E. now rewrite E.
Qed.


Lemma seconds_remaining_pos (expires_at : option string) (delta : Q) :
  seconds_remaining expires_at = Some delta -> (0 < delta)%Q.
Proof.
  unfold seconds_remaining.
  destruct expires_at as [[|c r]|]; try discriminate.
  destruct (fromisoformat _) as [parsed|]; [| discriminate].
  destruct (Qle_bool _ 0) eqn:E; [discriminate |].
  intros [= <-]. now apply PercentFacts.Qle_bool_false.
Qed.

End lifetime.








End DeviceCodeFacts.

(** ** Request coercion and the outbound payload *)
Module RequestsFacts.
Import Json Requests.




















(** *** Validation and the outbound payload *)

Lemma coerce_keeps_key (data : JsonObject) (k : string) :
  k <> "messages" -> k <> "instructions" -> k <> "input" ->
  match _coerce_messages_payload (JObj data) with
  | Valid (JObj result) => result !! k = data !! k
  | Valid _ => False
  | Invalid _ => True
  end.
Proof.
  intros H1 H2 H3. unfold _coerce_messages_payload.
  destruct (data !! "messages") as [messages|]; [| reflexivity].
  destruct (input_given _); [exact I |].
  destruct messages as [| | | | |msgs|]; try exact I.
  unfold mbind, validated_bind.
  destruct (coerce_loop msgs [] []) as [[ip im]|]; [| exact I].
  unfold pop. rewrite !lookup_insert_ne by congruence.
  now apply lookup_delete_ne.
Qed.

(** One step through a chain of validations that ends in a refusal. *)
Ltac refuse_step :=
  lazymatch goal with
  | |- exists msg, Invalid _ = Invalid msg => eexists; reflexivity
  | |- exists msg, match ?m with Valid _ => _ | Invalid _ => _ end = Invalid msg =>
      destruct m; [| eexists; reflexivity]
  end.

(** C2.  A request whose [store] field is true does not validate, and the
    payload [to_payload] builds from a validated request has no
    [max_output_tokens] key (and a validated request has [store]
    false). *)
Theorem store_guard :
  (forall data : JsonObject,
     data !! "store" = Some (JBool true) ->
     exists msg, model_validate (JObj data) = Invalid msg)
  /\ (forall (dump_json_value : JsonValue -> JsonValue)
             (data : JsonValue) (r : ResponsesRequest.t),
        model_validate data = Valid r ->
        to_payload dump_json_value r !! "max_output_tokens" = None
        /\ ResponsesRequest.store r = false).
Proof.
  split.
  - intros data Hstore. unfold model_validate.
    pose proof (coerce_keeps_key data "store") as Hk.
    unfold mbind at 1. unfold validated_bind at 1.
    destruct (_coerce_messages_payload (JObj data)) as [[| | | | | |d]|];
      try (eexists; reflexivity); try (exfalso; apply Hk; discriminate).
    rewrite <- Hk in Hstore by discriminate.
    unfold mbind, validated_bind, field. rewrite Hstore. simpl.
    repeat refuse_step.
  - intros dump_json_value data r. unfold model_validate.
    unfold mbind at 1. unfold validated_bind at 1.
    destruct (_coerce_messages_payload data) as [[| | | | | |d]|]; try discriminate.
    unfold mbind, validated_bind.
    repeat match goal with
           | |- match ?m with Valid _ => _ | Invalid _ => _ end = Valid _ -> _ =>
               let E := fresh "E" in destruct m eqn:E; [| discriminate]
           end.
    intros [= <-]. split.
    + unfold to_payload, _strip_unsupported_fields. simpl. apply lookup_delete_eq.
    + simpl.
      match goal with
      | E : field d "store" _ _ = Valid ?b |- ?b = false =>
          unfold field in E; destruct (d !! "store") as [v|];
            [| now injection E as <-];
            unfold mbind, validated_bind in E; destruct (v_bool v) as [b'|];
            [| discriminate];
            unfold _ensure_store_false in E; destruct b'; [discriminate |];
            now injection E as <-
      end.
Qed.

(** The two requests of the unit tests: [store=True] is refused, and a
    request with [max_output_tokens] goes out without it. *)
Lemma store_guard_witness :
  (exists msg,
     model_validate (JObj {[ "model" := JStr "gpt-5.1"; "store" := JBool true ]})
       = Invalid msg)
  /\ (exists r,
        model_validate
          (JObj {[ "model" := JStr "gpt-5.1"; "max_output_tokens" := JInt 32000 ]})
          = Valid r
        /\ to_payload json_mode r !! "max_output_tokens" = None).
Proof.
  split.
  - apply (proj1 store_guard). vm_compute. reflexivity.
  - destruct (model_validate
                (JObj {[ "model" := JStr "gpt-5.1"; "max_output_tokens" := JInt 32000 ]}))
      as [r|msg] eqn:E; [| vm_compute in E; discriminate].
    exists r. split; [reflexivity |].
    exact (proj1 (proj2 store_guard json_mode _ _ E)).
Defined.

End RequestsFacts.

(** ** Selection optimality *)
Module BalancerFacts.
Import Models Balancer.

(** [a] does not come after [b] in the order of step 4: lower
    [used_percent], then lower [error_count], then the account id that
    is not greater. *)
Definition key_le (a b : AccountState.t) : Prop :=
  (AccountState.used_percent a < AccountState.used_percent b)%Q
  \/ (AccountState.used_percent a == AccountState.used_percent b
      /\ ((AccountState.error_count a < AccountState.error_count b)%Z
          \/ (AccountState.error_count a = AccountState.error_count b
              /\ String.leb (AccountState.account_id a) (AccountState.account_id b)
                 = true))).

(** Eligibility of step 3 as a proposition. *)
Definition is_eligible (now : Q) (s : AccountState.t) : Prop :=
  AccountState.status s = ACTIVE
  /\ (forall t, AccountState.cooldown_until s = Some t -> (t <= now)%Q)
  /\ (forall t, AccountState.reset_at s = Some t -> (t <= now)%Q).

Lemma ltb_leb (a b : string) : String.ltb a b = negb (String.leb b a).
Proof.
  unfold String.ltb, String.leb. rewrite (String.compare_antisym b a).
  now destruct (String.compare a b).
Qed.

Lemma leb_trans (a b c : string) :
  String.leb a b = true -> String.leb b c = true -> String.leb a c = true.
Proof.
  intros H1 H2. apply Is_true_true.
  change (String.le a c). transitivity b; apply Is_true_true; assumption.
Qed.

Lemma leb_refl (a : string) : String.leb a a = true.
Proof. destruct (String.leb_total a a); assumption. Qed.

Lemma key_lt_false (a b : AccountState.t) : key_lt b a = false <-> key_le a b.
Proof.
  unfold key_lt, key_le.
  destruct (Qcompare_spec (AccountState.used_percent b) (AccountState.used_percent a))
    as [Hq|Hq|Hq].
  - destruct (Z.compare_spec (AccountState.error_count b) (AccountState.error_count a))
      as [Hz|Hz|Hz].
    + rewrite ltb_leb, negb_false_iff. split.
      * intros H. right. split; [now symmetry |]. right. now split.
      * intros [H | [_ [H | [_ H]]]]; [lra | lia | exact H].
    + split; [discriminate |]. intros [H | [_ [H | [H _]]]]; [lra | lia | lia].
    + split; [| reflexivity]. intros _. right. split; [now symmetry |]. now left.
  - split; [discriminate |]. intros [H | [H _]]; lra.
  - split; [| reflexivity]. intros _. now left.
Qed.

Lemma key_lt_true (a b : AccountState.t) : key_lt a b = true -> key_le a b.
Proof.
  unfold key_lt, key_le.
  destruct (Qcompare_spec (AccountState.used_percent a) (AccountState.used_percent b))
    as [Hq|Hq|Hq]; [| now left | discriminate].
  destruct (Z.compare_spec (AccountState.error_count a) (AccountState.error_count b))
    as [Hz|Hz|Hz]; [| intros _; right; split; [exact Hq | now left] | discriminate].
  rewrite ltb_leb, negb_true_iff. intros H. right. split; [exact Hq |]. right.
  split; [exact Hz |].
  destruct (String.leb_total (AccountState.account_id a) (AccountState.account_id b));
    [assumption | congruence].
Qed.

Lemma key_le_refl (a : AccountState.t) : key_le a a.
Proof. right. split; [reflexivity |]. right. split; [reflexivity | apply leb_refl]. Qed.

Lemma key_le_trans (a b c : AccountState.t) : key_le a b -> key_le b c -> key_le a c.
Proof.
  unfold key_le.
  intros [H1 | [H1 [H1' | [H1' H1'']]]] [H2 | [H2 [H2' | [H2' H2'']]]];
    try (left; lra);
    right; (split; [lra |]);
    try (left; lia).
  right. split; [lia |]. eapply leb_trans; eassumption.
Qed.

(** The fold of [pick] keeps a least element of what it has seen. *)
Lemma fold_pick (rest : list AccountState.t) (best : AccountState.t)
    (seen : list AccountState.t) :
  In best seen -> (forall x, In x seen -> key_le best x) ->
  let m := fold_left (fun best s => if key_lt s best then s else best) rest best in
  In m (seen ++ rest)%list /\ forall x, In x (seen ++ rest)%list -> key_le m x.
Proof.
  revert best seen. induction rest as [|s rest IH]; intros best seen Hin Hmin.
  - simpl. rewrite app_nil_r. now split.
  - simpl fold_left.
    replace (seen ++ s :: rest)%list with ((seen ++ [s]) ++ rest)%list
      by now rewrite <- app_assoc.
    apply IH.
    + destruct (key_lt s best); apply in_or_app; [right; now left | now left].
    + intros x [Hx | [Hx | []]]%in_app_or.
      * destruct (key_lt s best) eqn:E; [| now apply Hmin].
        eapply key_le_trans; [apply key_lt_true, E | now apply Hmin].
      * subst x. destruct (key_lt s best) eqn:E; [apply key_le_refl |].
        now apply key_lt_false.
Qed.

Lemma pick_spec (l : list AccountState.t) :
  match pick l with
  | Some m => In m l /\ forall x, In x l -> key_le m x
  | None => l = []
  end.
Proof.
  destruct l as [|first rest]; [reflexivity |].
  simpl pick. apply (fold_pick rest first [first]).
  - now left.
  - intros x [<- | []]. apply key_le_refl.
Qed.

Lemma Qmin_cases (x y : Q) :
  (Qmin x y = x /\ (x <= y)%Q) \/ (Qmin x y = y /\ (y <= x)%Q).
Proof.
  unfold Qmin, GenericMinMax.gmin.
  destruct (Qcompare_spec x y) as [H|H|H].
  - left. split; [reflexivity | lra].
  - left. split; [reflexivity | lra].
  - right. split; [reflexivity | lra].
Qed.

Lemma fold_Qmin (rest : list Q) (first : Q) :
  let d := fold_left Qmin rest first in
  In d (first :: rest) /\ forall x, In x (first :: rest) -> (d <= x)%Q.
Proof.
  revert first. induction rest as [|y rest IH]; intros first.
  - simpl. split; [now left |]. intros x [<- | []]. lra.
  - simpl fold_left. destruct (IH (Qmin first y)) as [Hin Hmin].
    destruct (Qmin_cases first y) as [[E Hle] | [E Hle]]; rewrite E in *.
    + split.
      * destruct Hin as [H | H]; [now left | right; now right].
      * intros x [<- | [<- | Hx]].
        -- apply Hmin. now left.
        -- eapply Qle_trans; [apply Hmin; now left | exact Hle].
        -- apply Hmin. now right.
    + split.
      * right. exact Hin.
      * intros x [<- | Hx].
        -- eapply Qle_trans; [apply Hmin; now left | exact Hle].
        -- now apply Hmin.
Qed.

Lemma Qmin_list_spec (l : list Q) :
  match Qmin_list l with
  | Some d => In d l /\ forall x, In x l -> (d <= x)%Q
  | None => l = []
  end.
Proof. destruct l as [|first rest]; [reflexivity | apply fold_Qmin]. Qed.

Lemma eligible_spec (now : Q) (s : AccountState.t) :
  eligible now s = true <-> is_eligible now s.
Proof.
  unfold eligible, is_eligible, after.
  rewrite !andb_true_iff, bool_decide_eq_true, !negb_true_iff.
  split.
  - intros [[Hs Hc] Hr]. split; [exact Hs |]. split; intros t Ht.
    + rewrite Ht in Hc. apply negb_false_iff, Qle_bool_iff in Hc. exact Hc.
    + rewrite Ht in Hr. apply negb_false_iff, Qle_bool_iff in Hr. exact Hr.
  - intros (Hs & Hc & Hr). split; [split; [exact Hs |] |].
    + destruct (AccountState.cooldown_until s) as [t|]; [| reflexivity].
      apply negb_false_iff, Qle_bool_iff, Hc. reflexivity.
    + destruct (AccountState.reset_at s) as [t|]; [| reflexivity].
      apply negb_false_iff, Qle_bool_iff, Hr. reflexivity.
Qed.

Lemma eligible_is_candidate (now : Q) (s : AccountState.t) :
  is_eligible now s -> is_candidate s = true.
Proof. intros [Hs _]. unfold is_candidate. now rewrite Hs. Qed.

Lemma in_omap {A B : Type} (f : A -> option B) (l : list A) (y : B) :
  In y (omap f l) <-> exists x, In x l /\ f x = Some y.
Proof.
  rewrite <- list_elem_of_In, list_elem_of_omap.
  split; intros (x & Hx & Hf); exists x; split; try assumption;
    now apply list_elem_of_In.
Qed.

Section selection.
Variable clear_used_percent : bool.
Variable render_long_wait : Q -> string.
Variable no_deadline_message : string.

(** C1.  [select_account] returns an eligible account, one whose status
    is ACTIVE and whose [cooldown_until] and [reset_at] are not in the
    future, that no eligible account precedes: its [used_percent] is
    minimal, among those of equal [used_percent] its [error_count] is
    minimal, and among those equal in both its account id is
    lexicographically least.  When no account is eligible it returns no
    account, and an error message that reports the smallest
    [max(cooldown_until, reset_at) - now] across the skipped
    candidates.  Eligibility is read on the states as step 2 leaves
    them, which the function hands back. *)
Theorem select_account_optimal (states : list AccountState.t) (now : Q) :
  let result :=
    select_account clear_used_percent render_long_wait no_deadline_message
      states now in
  let states' := result.1 in
  let selection := result.2 in
  states' = map (refresh_state clear_used_percent now) states
  /\ match Selection.account selection with
     | Some chosen =>
         In chosen states' /\ is_eligible now chosen
         /\ Selection.error_message selection = None
         /\ forall other, In other states' -> is_eligible now other ->
              (AccountState.used_percent chosen <= AccountState.used_percent other)%Q
              /\ key_le chosen other
     | None =>
         (forall s, In s states' -> ~ is_eligible now s)
         /\ exists msg, Selection.error_message selection = Some msg
            /\ ((msg = no_deadline_message
                 /\ forall c, In c states' -> is_candidate c = true ->
                      deadline c = None)
                \/ exists c d,
                     In c states' /\ is_candidate c = true
                     /\ deadline c = Some d
                     /\ (forall c' d', In c' states' -> is_candidate c' = true ->
                           deadline c' = Some d' -> (d - now <= d' - now)%Q)
                     /\ msg = render_wait render_long_wait (d - now))
     end.
Proof.
  cbv zeta. unfold select_account.
  set (states' := map (refresh_state clear_used_percent now) states).
  set (candidates := List.filter is_candidate states').
  set (eligibles := List.filter (eligible now) candidates).
  pose proof (pick_spec eligibles) as Hpick.
  destruct (pick eligibles) as [chosen|]; simpl.
  - split; [reflexivity |]. destruct Hpick as [Hin Hmin].
    apply filter_In in Hin as [Hin Hel]. apply filter_In in Hin as [Hin _].
    apply eligible_spec in Hel.
    split; [exact Hin |]. split; [exact Hel |]. split; [reflexivity |].
    intros other Ho Hoel.
    assert (Hk : key_le chosen other).
    { apply Hmin. apply filter_In. split; [| now apply eligible_spec].
      apply filter_In. split; [exact Ho | now apply (eligible_is_candidate now)]. }
    split; [| exact Hk]. destruct Hk as [H | [H _]]; lra.
  - split; [reflexivity |]. split.
    + intros s Hs Hel.
      assert (Hin : In s eligibles).
      { apply filter_In. split; [| now apply eligible_spec].
        apply filter_In. split; [exact Hs | now apply (eligible_is_candidate now)]. }
      rewrite Hpick in Hin. exact Hin.
    + eexists. split; [reflexivity |]. unfold wait_message.
      pose proof (Qmin_list_spec (omap deadline candidates)) as Hd.
      destruct (Qmin_list (omap deadline candidates)) as [d|].
      * right. destruct Hd as [Hin Hmin].
        apply in_omap in Hin as (c & Hc & Hdc).
        apply filter_In in Hc as [Hc Hcand].
        exists c, d. repeat split; try assumption.
        intros c' d' Hc' Hcand' Hd'.
        assert (d <= d')%Q; [| lra].
        apply Hmin, in_omap. exists c'. split; [| exact Hd'].
        apply filter_In. now split.
      * left. split; [reflexivity |]. intros c Hc Hcand.
        destruct (deadline c) as [d|] eqn:E; [| reflexivity].
        assert (Hin : In d (omap deadline candidates)).
        { apply in_omap. exists c. split; [| exact E]. apply filter_In. now split. }
        rewrite Hd in Hin. destruct Hin.
Qed.
End selection.

(** The two scenarios of the unit tests: the lower [used_percent] wins,
    and two accounts in cooldown give the shorter wait. *)
Example select_account_picks_lowest_used_percent :
  let a := AccountState.mk "a" ACTIVE 50 None None 0 None None in
  let b := AccountState.mk "b" ACTIVE 10 None None 0 None None in
  (select_account false (fun _ => "") "" [a; b] 1700000000).2 =
    Selection.mk (Some b) None.
Proof. reflexivity. Qed.

Example select_account_reports_cooldown_wait_time :
  let a := AccountState.mk "a" ACTIVE 5 None (Some 1700000030%Q) 0 None None in
  let b := AccountState.mk "b" ACTIVE 10 None (Some 1700000060%Q) 0 None None in
  (select_account false (fun _ => "") "" [a; b] 1700000000).2 =
    Selection.mk None (Some "Try again in 30.0s").
Proof. vm_compute. reflexivity. Qed.

End BalancerFacts.

(** ** The scope of the authorization URL *)
Module AuthorizationUrlFacts.
Import OAuth.

(** *** Reading a query parameter back from a URL

    The query is what follows the first question mark; its items are
    separated by ampersands, key and value by the first equals sign, and
    both are percent-decoded.  The decoder undoes what [quote] does: an
    escape below 128 is that code point, and a two-byte UTF-8 sequence is
    the code point it encodes; anything else is kept as it stands. *)

Fixpoint after_char (ch : ascii) (s : string) : option string :=
  match s with
  | EmptyString => None
  | String c r => if Ascii.eqb c ch then Some r else after_char ch r
  end.

Fixpoint split_on (ch : ascii) (s : string) : list string :=
  match s with
  | EmptyString => [""]
  | String c r =>
      if Ascii.eqb c ch then "" :: split_on ch r
      else match split_on ch r with
           | h :: t => String c h :: t
           | [] => [String c ""]
           end
  end.

Fixpoint cut (ch : ascii) (s : string) : string * string :=
  match s with
  | EmptyString => ("", "")
  | String c r =>
      if Ascii.eqb c ch then ("", r)
      else let '(k, v) := cut ch r in (String c k, v)
  end.

Definition unhex (c : ascii) : option N :=
  let n := N_of_ascii c in
  if ((48 <=? n) && (n <=? 57))%N then Some (n - 48)%N
  else if ((65 <=? n) && (n <=? 70))%N then Some (n - 55)%N
  else if ((97 <=? n) && (n <=? 102))%N then Some (n - 87)%N
  else None.

Fixpoint unquote (s : string) : string :=
  match s with
  | EmptyString => EmptyString
  | String c tail =>
      match c, tail with
      | "%"%char, String h1 (String h2 r) =>
          match unhex h1, unhex h2 with
          | Some a, Some b =>
              let n := (16 * a + b)%N in
              if (n <? 128)%N then String (ascii_of_N n) (unquote r)
              else
                match r with
                | String "%" (String h3 (String h4 r')) =>
                    match unhex h3, unhex h4 with
                    | Some a', Some b' =>
                        let m := (16 * a' + b')%N in
                        if ((194 <=? n) && (n <=? 195) && (128 <=? m) && (m <=? 191))%N
                        then String (ascii_of_N ((n - 192) * 64 + (m - 128)))
                                    (unquote r')
                        else String c (unquote tail)
                    | _, _ => String c (unquote tail)
                    end
                | _ => String c (unquote tail)
                end
          | _, _ => String c (unquote tail)
          end
      | _, _ => String c (unquote tail)
      end
  end.

Definition parse_qsl (query : string) : list (string * string) :=
  map (fun item => let '(k, v) := cut "=" item in (unquote k, unquote v))
      (split_on "&" query).

Fixpoint assoc (key : string) (pairs : list (string * string)) : option string :=
  match pairs with
  | [] => None
  | (k, v) :: rest => if String.eqb k key then Some v else assoc key rest
  end.

(** The value of the query parameter [key] of [url]. *)
Definition query_param (key : string) (url : string) : option string :=
  match after_char "?" url with
  | Some query => assoc key (parse_qsl query)
  | None => None
  end.

(** [s] has no code point [ch]. *)
Fixpoint free_of (ch : ascii) (s : string) : bool :=
  match s with
  | EmptyString => true
  | String c r => negb (Ascii.eqb c ch) && free_of ch r
  end.

Lemma free_of_app (ch : ascii) (a b : string) :
  free_of ch (a +:+ b) = free_of ch a && free_of ch b.
Proof.
  induction a as [|c a IH]; simpl; [reflexivity |].
  now rewrite IH, andb_assoc.
Qed.

Lemma quote_char_free (c : ascii) :
  free_of "&" (quote_char c) = true /\ free_of "=" (quote_char c) = true.
Proof. destruct c as [[] [] [] [] [] [] [] []]; split; reflexivity. Qed.

Lemma quote_free (s : string) :
  free_of "&" (quote s) = true /\ free_of "=" (quote s) = true.
Proof.
  induction s as [|c s [IH1 IH2]]; simpl; [now split |].
  rewrite !free_of_app, IH1, IH2.
  destruct (quote_char_free c) as [-> ->]. now split.
Qed.

Lemma unquote_quote_char (c : ascii) (r : string) :
  unquote (quote_char c +:+ r) = String c (unquote r).
Proof. destruct c as [[] [] [] [] [] [] [] []]; reflexivity. Qed.

Lemma unquote_quote (s : string) : unquote (quote s) = s.
Proof.
  induction s as [|c s IH]; [reflexivity |].
  simpl quote. now rewrite unquote_quote_char, IH.
Qed.

Lemma after_char_app (ch : ascii) (a b : string) :
  free_of ch a = true -> after_char ch (a +:+ String ch b) = Some b.
Proof.
  induction a as [|c a IH]; simpl.
  - now rewrite Ascii.eqb_refl.
  - intros [Hc Ha]%andb_prop. apply negb_true_iff in Hc. rewrite Hc. now apply IH.
Qed.

Lemma split_on_free (ch : ascii) (a : string) :
  free_of ch a = true -> split_on ch a = [a].
Proof.
  induction a as [|c a IH]; simpl; [reflexivity |].
  intros [Hc Ha]%andb_prop. apply negb_true_iff in Hc. now rewrite Hc, IH.
Qed.

Lemma split_on_app (ch : ascii) (a b : string) :
  free_of ch a = true -> split_on ch (a +:+ String ch b) = a :: split_on ch b.
Proof.
  induction a as [|c a IH]; simpl.
  - now rewrite Ascii.eqb_refl.
  - intros [Hc Ha]%andb_prop. apply negb_true_iff in Hc. now rewrite Hc, IH.
Qed.

Lemma cut_app (ch : ascii) (a b : string) :
  free_of ch a = true -> cut ch (a +:+ String ch b) = (a, b).
Proof.
  induction a as [|c a IH]; simpl.
  - now rewrite Ascii.eqb_refl.
  - intros [Hc Ha]%andb_prop. apply negb_true_iff in Hc. now rewrite Hc, IH.
Qed.

(** One encoded pair, as [urlencode] writes it. *)
Definition encode_pair (kv : string * string) : string :=
  quote kv.1 +:+ "=" +:+ quote kv.2.

Lemma encode_pair_free (kv : string * string) :
  free_of "&" (encode_pair kv) = true.
Proof.
  unfold encode_pair. rewrite !free_of_app.
  destruct (quote_free kv.1) as [-> _]. destruct (quote_free kv.2) as [-> _].
  reflexivity.
Qed.

Lemma decode_pair (kv : string * string) :
  (let '(k, v) := cut "=" (encode_pair kv) in (unquote k, unquote v)) = kv.
Proof.
  destruct kv as [k v]. unfold encode_pair. simpl fst. simpl snd.
  change (quote k +:+ "=" +:+ quote v) with (quote k +:+ String "=" (quote v)).
  rewrite cut_app by apply quote_free. now rewrite !unquote_quote.
Qed.

(** Decoding undoes [urlencode] on a non-empty list of pairs. *)
Lemma parse_qsl_urlencode (params : list (string * string)) :
  params <> [] -> parse_qsl (urlencode params) = params.
Proof.
  unfold parse_qsl, urlencode. fold encode_pair.
  change (fun kv : string * string => quote kv.1 +:+ "=" +:+ quote kv.2)
    with encode_pair.
  induction params as [|p params IH]; [congruence |]. intros _.
  destruct params as [|p' params].
  - simpl. rewrite split_on_free by apply encode_pair_free.
    simpl. now rewrite decode_pair.
  - change (PyStr.join "&" (map encode_pair (p :: p' :: params)))
      with (encode_pair p +:+ String "&" (PyStr.join "&" (map encode_pair (p' :: params)))).
    rewrite split_on_app by apply encode_pair_free.
    rewrite map_cons, decode_pair. f_equal. now apply IH.
Qed.

(** *** Splitting on white space *)

Lemma split_go_app (s w : string) (sp : ascii) (cur : option string) :
  PyStr.isspace sp = true ->
  PyStr.split_go cur (s +:+ String sp w) =
    (PyStr.split_go cur s ++ PyStr.split_go None w)%list.
Proof.
  intros Hsp. revert cur. induction s as [|c s IH]; intros cur; simpl.
  - rewrite Hsp. now destruct cur.
  - destruct (PyStr.isspace c).
    + destruct cur; simpl; now rewrite IH.
    + apply IH.
Qed.

Lemma _ensure_offline_access_spec (scope : string) :
  "offline_access" ∈ PyStr.split (_ensure_offline_access scope).
Proof.
  unfold _ensure_offline_access.
  destruct (bool_decide ("offline_access" ∈ PyStr.split scope)) eqn:E.
  - now apply bool_decide_eq_true_1 in E.
  - unfold PyStr.split.
    change (scope +:+ " offline_access")
      with (scope +:+ String " " "offline_access").
    rewrite split_go_app by reflexivity.
    apply elem_of_app. right. vm_compute. constructor.
Qed.

Section url.
Variable settings : Settings.t.

(** C5, as the code has it.  When the base URL has no question mark,
    the [scope] query parameter of the URL that
    [build_authorization_url] produces is the [scope] argument when
    that is given and not empty, and otherwise the configured scope
    made to include [offline_access]; so an invocation that passes no
    scope always has [offline_access] in the parameter. *)
Theorem build_authorization_url_scope
    (state code_challenge : string)
    (base_url client_id redirect_uri scope : option string) :
  free_of "?" (auth_base settings base_url) = true ->
  exists value,
    query_param "scope"
      (build_authorization_url settings state code_challenge
         base_url client_id redirect_uri scope) = Some value
    /\ match scope with
       | Some (String c r) => value = String c r
       | _ =>
           value = _ensure_offline_access (Settings.oauth_scope settings)
           /\ "offline_access" ∈ PyStr.split value
       end.
Proof.
  intros Hbase. exists (authorization_scope settings scope). split.
  - unfold build_authorization_url, query_param.
    change (auth_base settings base_url +:+ "/oauth/authorize?" +:+ ?q)
      with (auth_base settings base_url +:+ ("/oauth/authorize" +:+ String "?" q)).
    rewrite <- PyStrFacts.app_assoc.
    rewrite after_char_app
      by (rewrite free_of_app, Hbase; reflexivity).
    rewrite parse_qsl_urlencode by discriminate. reflexivity.
  - unfold authorization_scope.
    destruct scope as [[|c r]|]; try reflexivity;
      (split; [reflexivity | apply _ensure_offline_access_spec]).
Qed.
End url.

Definition url_settings : Settings.t :=
  Settings.mk "https://auth.example.com/" "app_client" "http://localhost:1455/auth/callback"
    "openid profile email".

(** No scope argument: the configured scope, with [offline_access]
    appended. *)
Lemma build_authorization_url_scope_witness :
  query_param "scope"
    (build_authorization_url url_settings "st" "ch" None None None None)
    = Some "openid profile email offline_access"
  /\ "offline_access" ∈ PyStr.split "openid profile email offline_access".
Proof.
  destruct (build_authorization_url_scope url_settings "st" "ch"
              None None None None eq_refl) as (value & Hq & Hv & Hin).
  rewrite Hq, Hv. split; [reflexivity |].
  rewrite Hv in Hin. exact Hin.
Defined.

(** The statement as the specification words it fails on an explicit
    scope: the URL carries the argument as given, and [offline_access] is
    not in it. *)
Lemma build_authorization_url_scope_counterexample :
  build_authorization_url url_settings "st" "ch" None None None (Some "openid")
    = "https://auth.example.com/oauth/authorize?response_type=code"
      +:+ "&client_id=app_client"
      +:+ "&redirect_uri=http%3A%2F%2Flocalhost%3A1455%2Fauth%2Fcallback"
      +:+ "&scope=openid&code_challenge=ch&code_challenge_method=S256&state=st"
      +:+ "&id_token_add_organizations=true&codex_cli_simplified_flow=true"
      +:+ "&originator=codex_cli_rs"
  /\ query_param "scope"
       (build_authorization_url url_settings "st" "ch" None None None (Some "openid"))
       = Some "openid"
  /\ PyStr.split "openid" = ["openid"]
  /\ "offline_access" ∉ PyStr.split "openid".
Proof.
  repeat split; try (vm_compute; reflexivity).
  vm_compute. intros H. inversion H as [|? ? ? H']; subst. inversion H'.
Qed.

End AuthorizationUrlFacts.

(** ** More on the proxy helpers *)
Module ProxyHelpersMore.
Import PyStr Models ProxyHelpers.

Lemma lower_char_idem (c : ascii) : lower_char (lower_char c) = lower_char c.
Proof. destruct c as [[] [] [] [] [] [] [] []]; reflexivity. Qed.

Lemma lower_idem (s : string) : lower (lower s) = lower s.
Proof.
  induction s as [|c s IH]; [reflexivity |].
  simpl. now rewrite lower_char_idem, IH.
Qed.

Lemma lower_nonempty (s : string) : s <> "" -> lower s <> "".
Proof. destruct s; [congruence | discriminate]. Qed.

(** X1.  [_normalize_error_code] never returns the empty string and always
    returns a lower-case one: the lower-cased [code] when that is set and
    not empty, else the lower-cased [error_type] when that is, else
    [upstream_error]. *)
Theorem normalize_error_code_total (code error_type : option string) :
  _normalize_error_code code error_type <> ""
  /\ lower (_normalize_error_code code error_type)
       = _normalize_error_code code error_type
  /\ _normalize_error_code code error_type =
       match code, error_type with
       | Some (String c r), _ => lower (String c r)
       | _, Some (String c r) => lower (String c r)
       | _, _ => "upstream_error"
       end.
Proof.
  unfold _normalize_error_code, or_else, truthy_opt.
  destruct code as [[|c r]|]; destruct error_type as [[|c' r']|]; simpl;
    (split; [discriminate |]); (split; [| reflexivity]);
    try reflexivity;
    now rewrite ?lower_char_idem, ?lower_idem.
Qed.

Lemma prefix_app (p s : string) : String.prefix p (p +:+ s) = true.
Proof.
  induction p as [|c p IH]; simpl; [now destruct s |].
  destruct (ascii_dec c c); [exact IH | congruence].
Qed.

(** X2.  [_header_account_id] never lets a synthetic account id through:
    an id that starts with [email_] or [local_] gives [None], as do
    [None] and the empty id; whatever it does return is the id it was
    given. *)
Theorem header_account_id_hides_synthetic (suffix : string) :
  _header_account_id (Some ("email_" +:+ suffix)) = None
  /\ _header_account_id (Some ("local_" +:+ suffix)) = None
  /\ _header_account_id (Some "") = None
  /\ _header_account_id None = None
  /\ forall account_id shown,
       _header_account_id account_id = Some shown ->
       account_id = Some shown /\ shown <> ""
       /\ String.prefix "email_" shown = false
       /\ String.prefix "local_" shown = false.
Proof.
  split; [| split; [| split; [reflexivity | split; [reflexivity |]]]].
  - unfold _header_account_id.
    change (truthy ("email_" +:+ suffix)) with true.
    now rewrite (prefix_app "email_" suffix).
  - unfold _header_account_id.
    change (truthy ("local_" +:+ suffix)) with true.
    rewrite (prefix_app "local_" suffix). now rewrite orb_true_r.
  - intros account_id shown H. unfold _header_account_id in H.
    destruct account_id as [[|c a]|]; try discriminate.
    simpl truthy in H. simpl negb in H. cbv iota in H.
    destruct (String.prefix "email_" (String c a)) eqn:E1; [discriminate |].
    destruct (String.prefix "local_" (String c a)) eqn:E2; [discriminate |].
    simpl in H. injection H as <-. repeat split; auto; discriminate.
Qed.

(** X3.  [_rate_limit_details] gives [None] exactly when neither window is
    there.  Otherwise it hands both windows back unchanged, [allowed] is
    the opposite of [limit_reached], and [limit_reached] holds exactly when
    a window that is there has [used_percent] 100 or more. *)
Theorem rate_limit_details_spec
    (primary secondary : option RateLimitWindowSnapshotData.t) :
  match _rate_limit_details primary secondary with
  | None => primary = None /\ secondary = None
  | Some details =>
      (primary <> None \/ secondary <> None)
      /\ RateLimitStatusDetailsData.primary_window details = primary
      /\ RateLimitStatusDetailsData.secondary_window details = secondary
      /\ RateLimitStatusDetailsData.allowed details
           = negb (RateLimitStatusDetailsData.limit_reached details)
      /\ (RateLimitStatusDetailsData.limit_reached details = true <->
          exists window,
            (primary = Some window \/ secondary = Some window)
            /\ (100 <= RateLimitWindowSnapshotData.used_percent window)%Z)
  end.
Proof.
  unfold _rate_limit_details, window_used_percents.
  destruct primary as [p|], secondary as [s|]; simpl; [| | | now split].
  - split; [left; discriminate |]. do 3 (split; [reflexivity |]).
    rewrite orb_false_r, orb_true_iff, !Z.leb_le. split.
    + intros [Hu | Hu]; eexists; eauto.
    + intros (w & [[= <-] | [= <-]] & Hu); auto.
  - split; [left; discriminate |]. do 3 (split; [reflexivity |]).
    rewrite orb_false_r, Z.leb_le. split.
    + intros Hu; eexists; eauto.
    + intros (w & [[= <-] | [=]] & Hu); auto.
  - split; [right; discriminate |]. do 3 (split; [reflexivity |]).
    rewrite orb_false_r, Z.leb_le. split.
    + intros Hu; eexists; eauto.
    + intros (w & [[=] | [= <-]] & Hu); auto.
Qed.

(** *** The plan type shown for a set of accounts *)

(** The recognised plans of the accounts, in their order. *)
Definition recognised_plans (accounts : list Account.t) : list string :=
  omap (fun account =>
          PlanTypes.normalize_rate_limit_plan_type (Some (Account.plan_type account)))
       accounts.

Lemma normalize_rate_limit_in (value : option string) (plan : string) :
  PlanTypes.normalize_rate_limit_plan_type value = Some plan ->
  plan ∈ PlanTypes.RATE_LIMIT_PLAN_TYPES.
Proof.
  unfold PlanTypes.normalize_rate_limit_plan_type.
  destruct (PlanTypes._clean_plan_type value) as [cleaned|]; [| discriminate].
  destruct (negb (truthy cleaned)); [discriminate |].
  destruct (bool_decide _) eqn:E; [| discriminate].
  intros [= <-]. now apply bool_decide_eq_true_1 in E.
Qed.

Lemma rate_limit_plan_has_priority (plan : string) :
  plan ∈ PlanTypes.RATE_LIMIT_PLAN_TYPES -> In plan PLAN_TYPE_PRIORITY.
Proof.
  unfold PlanTypes.RATE_LIMIT_PLAN_TYPES, PlanTypes.ACCOUNT_PLAN_TYPES.
  rewrite elem_of_union, !elem_of_list_to_set, !list_elem_of_In.
  unfold PLAN_TYPE_PRIORITY. simpl.
  intros [Hp | Hp]; decompose [or] Hp; subst; tauto.
Qed.

Lemma omap_id_map {A B : Type} (f : A -> option B) (l : list A) :
  omap id (map f l) = omap f l.
Proof.
  induction l as [|a l IH]; [reflexivity |].
  cbn. rewrite IH. now destruct (f a).
Qed.

Lemma recognised_plans_in (accounts : list Account.t) (plan : string) :
  In plan (recognised_plans accounts) -> plan ∈ PlanTypes.RATE_LIMIT_PLAN_TYPES.
Proof.
  intros H. apply BalancerFacts.in_omap in H as (a & _ & Ha).
  now apply normalize_rate_limit_in in Ha.
Qed.

Lemma find_split {A : Type} (f : A -> bool) (l : list A) (x : A) :
  List.find f l = Some x ->
  exists before after,
    l = (before ++ x :: after)%list /\ f x = true
    /\ forall y, In y before -> f y = false.
Proof.
  induction l as [|a l IH]; [discriminate |]. simpl.
  destruct (f a) eqn:E.
  - intros [= ->]. exists [], l. repeat split; [exact E |]. intros y [].
  - intros H. destruct (IH H) as (before & after & -> & Hx & Hb).
    exists (a :: before), after. repeat split; [exact Hx |].
    intros y [<- | Hy]; [exact E | now apply Hb].
Qed.

Lemma find_some_in {A : Type} (f : A -> bool) (l : list A) (y : A) :
  In y l -> f y = true -> exists x, List.find f l = Some x.
Proof.
  induction l as [|a l IH]; [intros [] |]. simpl.
  intros [<- | Hy] Hf.
  - rewrite Hf. eauto.
  - destruct (f a); eauto.
Qed.

(** X4.  [_plan_type_for_accounts] answers [guest] when no account has a
    recognised plan.  Otherwise it answers the first plan of
    [PLAN_TYPE_PRIORITY] that some account has, also when all accounts
    share one plan; the final [guest] fallback is never reached, and the
    answer is always a recognised rate-limit plan. *)
Theorem plan_type_for_accounts_priority (accounts : list Account.t) :
  let shown := _plan_type_for_accounts accounts in
  shown ∈ PlanTypes.RATE_LIMIT_PLAN_TYPES
  /\ match recognised_plans accounts with
     | [] => shown = "guest"
     | _ :: _ =>
         In shown (recognised_plans accounts)
         /\ exists before after,
              PLAN_TYPE_PRIORITY = (before ++ shown :: after)%list
              /\ forall plan, In plan before -> ~ In plan (recognised_plans accounts)
     end.
Proof.
  cbv zeta.
  assert (Hguest : "guest" ∈ PlanTypes.RATE_LIMIT_PLAN_TYPES).
  { unfold PlanTypes.RATE_LIMIT_PLAN_TYPES. apply elem_of_union. right.
    apply elem_of_list_to_set. set_solver. }
  unfold _plan_type_for_accounts, _normalize_plan_type.
  rewrite omap_id_map. fold (recognised_plans accounts).
  pose proof (recognised_plans_in accounts) as Hrec.
  destruct (recognised_plans accounts) as [|first rest] eqn:Eplans;
    [split; [exact Hguest | reflexivity] |].
  set (unique := list_to_set (first :: rest) : gset string).
  assert (Hin_unique : forall p, bool_decide (p ∈ unique) = true <-> In p (first :: rest)).
  { intros p. rewrite bool_decide_eq_true. unfold unique.
    now rewrite elem_of_list_to_set, list_elem_of_In. }
  destruct (find_some_in (fun plan => bool_decide (plan ∈ unique))
              PLAN_TYPE_PRIORITY first) as [found Hfound].
  { apply rate_limit_plan_has_priority, Hrec. now left. }
  { apply Hin_unique. now left. }
  destruct (find_split _ _ _ Hfound) as (before & after & Hsplit & Hf & Hbefore).
  apply Hin_unique in Hf.
  assert (Hshown : (if (size unique =? 1)%nat then first
                    else match List.find (fun plan => bool_decide (plan ∈ unique))
                                 PLAN_TYPE_PRIORITY with
                         | Some plan => plan
                         | None => "guest"
                         end) = found).
  { rewrite Hfound. destruct (size unique =? 1)%nat eqn:Esize; [| reflexivity].
    apply Nat.eqb_eq, size_1_elem_of in Esize as [x Hx].
    assert (Hfirst : first ∈ unique) by (apply elem_of_list_to_set; now left).
    assert (Hfd : found ∈ unique)
      by (apply elem_of_list_to_set, list_elem_of_In; exact Hf).
    rewrite Hx in Hfirst, Hfd. set_unfold. congruence. }
  rewrite Hshown. split; [now apply Hrec |]. split; [exact Hf |].
  exists before, after. split; [exact Hsplit |].
  intros plan Hp Hin. apply Hin_unique in Hin.
  rewrite (Hbefore plan Hp) in Hin. discriminate.
Qed.

(** *** Error metadata *)

Lemma set_if_lookup {A : Type} (k k' : string) (f : A -> Json.JsonValue)
    (v : option A) (target : gmap string Json.JsonValue) :
  set_if k f v target !! k' =
    if decide (k = k') then
      match v with Some x => Some (f x) | None => target !! k' end
    else target !! k'.
Proof.
  unfold set_if. destruct v as [x|].
  - destruct (decide (k = k')) as [->|Hne];
      [apply lookup_insert_eq | now apply lookup_insert_ne].
  - now destruct (decide (k = k')).
Qed.

(** X5.  [_apply_error_metadata] writes [plan_type], [resets_at] and
    [resets_in_seconds] into the target when the error has them, and
    nothing else: a field the error lacks leaves the target's own entry in
    place, every other key keeps its value, and no key is ever removed. *)
Theorem apply_error_metadata_spec
    (target : gmap string Json.JsonValue) (error : OpenAIError.t) :
  let result := _apply_error_metadata target (Some error) in
  result !! "plan_type" =
    match OpenAIError.plan_type error with
    | Some plan => Some (Json.JStr plan)
    | None => target !! "plan_type"
    end
  /\ result !! "resets_at" =
       match OpenAIError.resets_at error with
       | Some n => Some (number_json n)
       | None => target !! "resets_at"
       end
  /\ result !! "resets_in_seconds" =
       match OpenAIError.resets_in_seconds error with
       | Some n => Some (number_json n)
       | None => target !! "resets_in_seconds"
       end
  /\ (forall k, k <> "plan_type" -> k <> "resets_at" -> k <> "resets_in_seconds" ->
        result !! k = target !! k)
  /\ (forall k, is_Some (target !! k) -> is_Some (result !! k))
  /\ _apply_error_metadata target None = target.
Proof.
  cbv zeta. unfold _apply_error_metadata.
  assert (Hall : forall k,
    set_if "resets_in_seconds" number_json (OpenAIError.resets_in_seconds error)
      (set_if "resets_at" number_json (OpenAIError.resets_at error)
         (set_if "plan_type" Json.JStr (OpenAIError.plan_type error) target)) !! k =
    if decide ("resets_in_seconds" = k) then
      match OpenAIError.resets_in_seconds error with
      | Some n => Some (number_json n) | None => target !! k end
    else if decide ("resets_at" = k) then
      match OpenAIError.resets_at error with
      | Some n => Some (number_json n) | None => target !! k end
    else if decide ("plan_type" = k) then
      match OpenAIError.plan_type error with
      | Some p => Some (Json.JStr p) | None => target !! k end
    else target !! k).
  { intros k. rewrite !set_if_lookup.
    destruct (decide ("resets_in_seconds" = k)) as [<-|];
      [destruct (OpenAIError.resets_in_seconds error); reflexivity |].
    destruct (decide ("resets_at" = k)) as [<-|];
      [destruct (OpenAIError.resets_at error); reflexivity |].
    reflexivity. }
  repeat split.
  - now rewrite Hall.
  - now rewrite Hall.
  - now rewrite Hall.
  - intros k H1 H2 H3. rewrite Hall.
    repeat (destruct (decide _); [congruence |]). reflexivity.
  - intros k Hk. rewrite Hall.
    destruct (decide _);
      [destruct (OpenAIError.resets_in_seconds error); [eauto | exact Hk] |].
    destruct (decide _);
      [destruct (OpenAIError.resets_at error); [eauto | exact Hk] |].
    destruct (decide _);
      [destruct (OpenAIError.plan_type error); [eauto | exact Hk] |].
    exact Hk.
Qed.

(** X6.  What [_upstream_error_from_openai] hands to the balancer has at
    most the keys [message], [resets_at] and [resets_in_seconds], each
    exactly when the error has the field and with the field's value; the
    plan type, the code and the other fields are not passed on, and no
    error gives the empty mapping. *)
Theorem upstream_error_from_openai_spec (error : OpenAIError.t) :
  let payload := _upstream_error_from_openai (Some error) in
  payload !! "message" = Json.JStr <$> OpenAIError.message error
  /\ payload !! "resets_at" = number_json <$> OpenAIError.resets_at error
  /\ payload !! "resets_in_seconds" = number_json <$> OpenAIError.resets_in_seconds error
  /\ (forall k, k <> "message" -> k <> "resets_at" -> k <> "resets_in_seconds" ->
        payload !! k = None)
  /\ _upstream_error_from_openai None = ∅.
Proof.
  cbv zeta. unfold _upstream_error_from_openai.
  repeat split.
  - rewrite !set_if_lookup. simpl. now destruct (OpenAIError.message error).
  - rewrite !set_if_lookup. simpl. now destruct (OpenAIError.resets_at error).
  - rewrite !set_if_lookup. simpl. now destruct (OpenAIError.resets_in_seconds error).
  - intros k H1 H2 H3. rewrite !set_if_lookup.
    repeat (destruct (decide _); [congruence |]). apply lookup_empty.
Qed.

(** *** The window snapshot *)

(** X7.  [_window_snapshot] builds a snapshot exactly when the summary is
    there, a used percent is known (the summary's, or a row's to
    average), the summary has a [reset_at], and a window length other than
    0 is known (the summary's, or else the default for the window).  The
    snapshot keeps [reset_at], its [limit_window_seconds] is sixty times
    the window minutes, and its [reset_after_seconds] is
    [reset_at - now_epoch], or 0 when that is negative. *)
Theorem window_snapshot_fields
    (py_sum : list PyNum.float -> PyNum.float)
    (default_window_minutes : string -> option Z)
    (summary : UsageWindowSummary.t) (rows : list UsageWindowRow.t)
    (window : string) (now_epoch : Z) :
  let minutes :=
    match UsageWindowSummary.window_minutes summary with
    | Some 0%Z | None => default_window_minutes window
    | Some m => Some m
    end in
  let known_percent :=
    match UsageWindowSummary.used_percent summary with
    | Some _ => true
    | None => existsb (fun row => bool_decide (UsageWindowRow.used_percent row <> None)) rows
    end in
  match _window_snapshot py_sum default_window_minutes (Some summary) rows window
          now_epoch with
  | Returned (Some snap) =>
      known_percent = true
      /\ UsageWindowSummary.reset_at summary
           = Some (RateLimitWindowSnapshotData.reset_at snap)
      /\ (exists m, minutes = Some m /\ m <> 0%Z
            /\ RateLimitWindowSnapshotData.limit_window_seconds snap = (m * 60)%Z)
      /\ (0 <= RateLimitWindowSnapshotData.reset_after_seconds snap)%Z
      /\ RateLimitWindowSnapshotData.reset_after_seconds snap
           = Z.max 0 (RateLimitWindowSnapshotData.reset_at snap - now_epoch)
  | Returned None =>
      known_percent = false
      \/ UsageWindowSummary.reset_at summary = None
      \/ minutes = None \/ minutes = Some 0%Z
  | Raised => False
  end
  /\ _window_snapshot py_sum default_window_minutes None rows window now_epoch
       = Returned None.
Proof.
  cbv zeta. split; [| reflexivity].
  unfold _window_snapshot, _normalize_used_percent.
  assert (Hrows : omap UsageWindowRow.used_percent rows = [] <->
                  existsb (fun row => bool_decide (UsageWindowRow.used_percent row <> None))
                          rows = false).
  { induction rows as [|r rows IH]; [easy |]. simpl.
    destruct (UsageWindowRow.used_percent r) as [v|]; cbn [omap].
    - rewrite bool_decide_eq_true_2 by discriminate. easy.
    - rewrite bool_decide_eq_false_2 by (intros Hn; now apply Hn). exact IH. }
  destruct (UsageWindowSummary.used_percent summary) as [v|].
  - destruct (UsageWindowSummary.reset_at summary) as [reset_at|]; [| auto].
    destruct (UsageWindowSummary.window_minutes summary) as [[|m|m]|];
      try destruct (default_window_minutes window) as [[|d|d]|]; simpl; auto;
      destruct (PercentFacts._percent_to_int_range v) as (n & -> & _);
      (split; [reflexivity |]); (split; [reflexivity |]);
      (split; [eexists; split; [reflexivity |]; split; [discriminate | reflexivity] |]);
      (split; [apply Z.le_max_l | reflexivity]).
  - destruct (omap UsageWindowRow.used_percent rows) as [|v0 vs] eqn:Evals.
    + left. now apply Hrows.
    + assert (Hk : existsb (fun row => bool_decide (UsageWindowRow.used_percent row <> None))
                     rows = true).
      { destruct (existsb _ rows); [reflexivity |].
        destruct Hrows as [_ Hr]. discriminate (Hr eq_refl). }
      rewrite Hk.
      destruct (UsageWindowSummary.reset_at summary) as [reset_at|]; [| auto].
      destruct (UsageWindowSummary.window_minutes summary) as [[|m|m]|];
        try destruct (default_window_minutes window) as [[|d|d]|]; simpl; auto;
        match goal with
        | |- context [_percent_to_int ?x] =>
            destruct (PercentFacts._percent_to_int_range x) as (n & -> & _)
        end;
        (split; [reflexivity |]); (split; [reflexivity |]);
        (split; [eexists; split; [reflexivity |]; split; [discriminate | reflexivity] |]);
        (split; [apply Z.le_max_l | reflexivity]).
Qed.

End ProxyHelpersMore.

(** ** More on plan types, and the migration that normalises them *)
Module PlanTypesMore.
Import PyStr PyStrFacts PlanTypes Models.

Lemma truthy_true (s : string) : s <> "" -> truthy s = true.
Proof. destruct s; [congruence | reflexivity]. Qed.

(** [canonicalize_account_plan_type] by cases on the stripped input. *)
Lemma canonicalize_cases (s : string) :
  canonicalize_account_plan_type (Some s) =
    if decide (strip s = "") then None
    else if bool_decide (lower (strip s) ∈ ACCOUNT_PLAN_TYPES)
         then Some (lower (strip s)) else Some (strip s).
Proof.
  unfold canonicalize_account_plan_type, _clean_plan_type.
  destruct (decide (strip s = "")) as [->|Hne]; [reflexivity |].
  rewrite (truthy_true _ Hne). simpl. now rewrite (truthy_true _ Hne).
Qed.

Lemma strip_strip (s : string) : strip (strip s) = strip s.
Proof.
  apply strip_unique. destruct (strip_trimmed s) as (l & r & _ & _ & _ & Hs & He).
  exists "", "". simpl. rewrite app_nil_r. now repeat split.
Qed.

Lemma account_plan_fixed (p : string) :
  p ∈ ACCOUNT_PLAN_TYPES -> strip p = p /\ lower p = p /\ p <> "".
Proof.
  intros H. apply PlanTypesFacts.in_ACCOUNT_PLAN_TYPES in H.
  set_unfold in H. decompose [or] H; subst; try contradiction;
    repeat split; (reflexivity || discriminate).
Qed.

(** What a canonical value looks like: it is stripped, not empty, and its
    own canonical form. *)
Lemma canonical_fixed (s r : string) :
  canonicalize_account_plan_type (Some s) = Some r ->
  strip r = r /\ r <> "" /\ canonicalize_account_plan_type (Some r) = Some r.
Proof.
  rewrite canonicalize_cases.
  destruct (decide (strip s = "")) as [|Hne]; [discriminate |].
  destruct (bool_decide (lower (strip s) ∈ ACCOUNT_PLAN_TYPES)) eqn:E.
  - intros [= <-]. apply bool_decide_eq_true_1 in E.
    destruct (account_plan_fixed _ E) as (Hs & Hl & Hn).
    repeat split; try assumption.
    rewrite canonicalize_cases, Hs, Hl.
    destruct (decide _); [contradiction |].
    now rewrite bool_decide_eq_true_2.
  - intros [= <-]. repeat split; [apply strip_strip | exact Hne |].
    rewrite canonicalize_cases, strip_strip.
    destruct (decide _); [contradiction |]. now rewrite E.
Qed.

(** X8.  [canonicalize_account_plan_type] is idempotent: a canonical plan
    type is its own canonical form, and it is never empty nor padded with
    white space. *)
Theorem canonicalize_idempotent (value : option string) :
  canonicalize_account_plan_type (canonicalize_account_plan_type value)
    = canonicalize_account_plan_type value
  /\ forall plan, canonicalize_account_plan_type value = Some plan ->
       plan <> "" /\ strip plan = plan.
Proof.
  split.
  - destruct value as [s|]; [| reflexivity].
    destruct (canonicalize_account_plan_type (Some s)) as [r|] eqn:E; [| reflexivity].
    now apply canonical_fixed in E.
  - intros plan H. destruct value as [s|]; [| discriminate].
    apply canonical_fixed in H. tauto.
Qed.

(** X9.  The three normalisers agree on the account plans: when
    [normalize_account_plan_type] recognises a value, the result is one of
    the seven account plans, [canonicalize_account_plan_type] gives the
    same result, and so does [normalize_rate_limit_plan_type].  When it
    does not, the canonical form is [None] or the stripped input itself. *)
Theorem normalizers_agree (value : option string) :
  match normalize_account_plan_type value with
  | Some plan =>
      plan ∈ ["free"; "plus"; "pro"; "team"; "business"; "enterprise"; "edu"]
      /\ canonicalize_account_plan_type value = Some plan
      /\ normalize_rate_limit_plan_type value = Some plan
  | None =>
      canonicalize_account_plan_type value = None
      \/ exists s, value = Some s /\ canonicalize_account_plan_type value = Some (strip s)
  end.
Proof.
  destruct value as [s|]; [| now left].
  unfold normalize_account_plan_type, normalize_rate_limit_plan_type.
  rewrite canonicalize_cases. unfold _clean_plan_type.
  destruct (decide (strip s = "")) as [->|Hne]; [now left |].
  rewrite (truthy_true _ Hne). simpl. rewrite (truthy_true _ Hne). simpl.
  destruct (bool_decide (lower (strip s) ∈ ACCOUNT_PLAN_TYPES)) eqn:E.
  - apply bool_decide_eq_true_1 in E.
    split; [now apply PlanTypesFacts.in_ACCOUNT_PLAN_TYPES |].
    split; [reflexivity |].
    rewrite bool_decide_eq_true_2; [reflexivity |].
    unfold RATE_LIMIT_PLAN_TYPES. apply elem_of_union. now left.
  - right. now exists s.
Qed.

(** X10.  [coerce_account_plan_type] returns the canonical form of the
    value when there is one and the default otherwise; with a non-empty
    default it never returns the empty string; and with a default that is
    its own coerced form, coercing a coerced value changes nothing. *)
Theorem coerce_account_plan_type_spec (value : option string) (default : string) :
  coerce_account_plan_type value default =
    match canonicalize_account_plan_type value with
    | Some plan => plan
    | None => default
    end
  /\ (default <> "" -> coerce_account_plan_type value default <> "")
  /\ (coerce_account_plan_type (Some default) default = default ->
      coerce_account_plan_type (Some (coerce_account_plan_type value default)) default
        = coerce_account_plan_type value default).
Proof.
  assert (Hc : forall v, coerce_account_plan_type v default =
            match canonicalize_account_plan_type v with
            | Some plan => plan
            | None => default
            end).
  { intros [s|]; [| reflexivity].
    unfold coerce_account_plan_type. rewrite canonicalize_cases.
    unfold _clean_plan_type.
    destruct (decide (strip s = "")) as [->|Hne]; [reflexivity |].
    rewrite (truthy_true _ Hne), canonicalize_cases, strip_strip.
    now destruct (decide (strip s = "")). }
  split; [apply Hc |]. split.
  - intros Hd. rewrite Hc.
    destruct (canonicalize_account_plan_type value) as [plan|] eqn:E; [| exact Hd].
    destruct value as [s|]; [| discriminate]. now apply canonical_fixed in E.
  - intros Hfix. rewrite (Hc value).
    destruct (canonicalize_account_plan_type value) as [plan|] eqn:E; [| exact Hfix].
    destruct value as [s|]; [| discriminate].
    apply canonical_fixed in E as (_ & _ & E). now rewrite Hc, E.
Qed.

Lemma coerce_account_plan_type_witness :
  coerce_account_plan_type (Some "free") "free" = "free"
  /\ coerce_account_plan_type (Some (coerce_account_plan_type (Some " PRO ") "free")) "free"
     = "pro".
Proof.
  split; [vm_compute; reflexivity |].
  rewrite (proj2 (proj2 (coerce_account_plan_type_spec (Some " PRO ") "free")));
    vm_compute; reflexivity.
Defined.

Section migration.
Variable DEFAULT_PLAN : string.

Lemma normalize_row_plan (account : Account.t) :
  Account.plan_type (Migration.normalize_row DEFAULT_PLAN account)
    = coerce_account_plan_type (Some (Account.plan_type account)) DEFAULT_PLAN.
Proof.
  unfold Migration.normalize_row.
  destruct (String.eqb _ _) eqn:E; simpl; [| reflexivity].
  now apply String.eqb_eq in E.
Qed.

(** X11.  The plan-type migration touches nothing but [plan_type]: it
    keeps the rows, their order and every other column.  Afterwards each
    row holds the coerced form of its old plan type, which is never empty
    when the default plan is not; and when the default plan is its own
    coerced form, running the migration again changes no row. *)
Theorem migration_run_spec (accounts : list Account.t) :
  let migrated := Migration.run DEFAULT_PLAN accounts in
  Forall2 (fun before after =>
             after = AuthManager.with_plan_type
                       (coerce_account_plan_type (Some (Account.plan_type before))
                          DEFAULT_PLAN)
                       before)
          accounts migrated
  /\ (DEFAULT_PLAN <> "" ->
      Forall (fun account => Account.plan_type account <> "") migrated)
  /\ (coerce_account_plan_type (Some DEFAULT_PLAN) DEFAULT_PLAN = DEFAULT_PLAN ->
      Migration.run DEFAULT_PLAN migrated = migrated).
Proof.
  cbv zeta. unfold Migration.run. split; [| split].
  - induction accounts as [|a l IH]; constructor; [| exact IH].
    unfold Migration.normalize_row.
    destruct (String.eqb _ _) eqn:E; simpl; [| reflexivity].
    apply String.eqb_eq in E. rewrite <- E. now destruct a.
  - intros Hd. apply Forall_forall. intros a' Ha.
    apply list_elem_of_In, in_map_iff in Ha as [a [<- _]].
    rewrite normalize_row_plan.
    now apply (proj1 (proj2 (coerce_account_plan_type_spec _ _))).
  - intros Hfix. rewrite map_map. apply map_ext. intros a.
    unfold Migration.normalize_row at 1. rewrite normalize_row_plan.
    rewrite (proj2 (proj2 (coerce_account_plan_type_spec _ _)) Hfix).
    now rewrite String.eqb_refl.
Qed.
End migration.

(** The three rows of the integration test, with the default plan
    [free]. *)
Lemma migration_run_witness :
  let row plan := Account.mk "acc" "a@example.com" plan [] [] [] 0 ACTIVE None in
  map Account.plan_type (Migration.run "free" [row "education"; row "PRO"; row ""])
    = ["education"; "pro"; "free"]
  /\ Migration.run "free" (Migration.run "free" [row "education"; row "PRO"; row ""])
     = Migration.run "free" [row "education"; row "PRO"; row ""].
Proof.
  cbv zeta. split; [vm_compute; reflexivity |].
  apply (proj2 (proj2 (migration_run_spec "free" _))). vm_compute. reflexivity.
Defined.

End PlanTypesMore.

(** ** More on the OAuth client *)
Module OAuthMore.
Import Json OAuth AuthorizationUrlFacts.



Section url.
Variable settings : Settings.t.

(** X13.  Every parameter of the authorization URL survives the encoding:
    when the base URL has no question mark, the query of the URL decodes
    to the ten parameters in their order, so [state] and [code_challenge]
    read back exactly as they were passed, whatever characters they
    contain. *)
Theorem authorization_url_round_trip
    (state code_challenge : string)
    (base_url client_id redirect_uri scope : option string) :
  free_of "?" (auth_base settings base_url) = true ->
  let url :=
    build_authorization_url settings state code_challenge
      base_url client_id redirect_uri scope in
  (exists query,
     after_char "?" url = Some query
     /\ parse_qsl query =
          authorization_params settings state code_challenge client_id redirect_uri scope)
  /\ query_param "state" url = Some state
  /\ query_param "code_challenge" url = Some code_challenge
  /\ query_param "response_type" url = Some "code"
  /\ query_param "code_challenge_method" url = Some "S256"
  /\ query_param "client_id" url
     = Some (match client_id with
             | Some (String c r) => String c r
             | _ => Settings.oauth_client_id settings
             end).
Proof.
  intros Hbase. cbv zeta.
  assert (Hq : after_char "?"
                 (build_authorization_url settings state code_challenge
                    base_url client_id redirect_uri scope)
               = Some (urlencode (authorization_params settings state code_challenge
                                    client_id redirect_uri scope))).
  { unfold build_authorization_url.
    change (auth_base settings base_url +:+ "/oauth/authorize?" +:+ ?q)
      with (auth_base settings base_url +:+ ("/oauth/authorize" +:+ String "?" q)).
    rewrite <- PyStrFacts.app_assoc.
    apply after_char_app. rewrite free_of_app, Hbase. reflexivity. }
  assert (Hp : parse_qsl (urlencode (authorization_params settings state code_challenge
                                       client_id redirect_uri scope))
               = authorization_params settings state code_challenge
                   client_id redirect_uri scope)
    by (apply parse_qsl_urlencode; discriminate).
  split; [eexists; split; [exact Hq | exact Hp] |].
  unfold query_param. rewrite Hq, Hp.
  repeat split.
  unfold authorization_params, assoc, or_str. simpl.
  now destruct client_id as [[|c r]|].
Qed.
End url.

Lemma authorization_url_round_trip_witness :
  query_param "state"
    (build_authorization_url url_settings "a&b=c d/%?" "ch" None None None None)
    = Some "a&b=c d/%?".
Proof.
  apply (proj1 (proj2 (authorization_url_round_trip url_settings
                          "a&b=c d/%?" "ch" None None None None eq_refl))).
Defined.

Lemma oauth_error_never_blank_aux (payload : OAuthTokenPayload.t) (status_code : Z) :
  OAuthError.code (_oauth_error_from_payload payload status_code) <> ""
  /\ OAuthError.message (_oauth_error_from_payload payload status_code) <> ""
  /\ OAuthError.status_code (_oauth_error_from_payload payload status_code)
     = Some status_code.
Proof.
  unfold _oauth_error_from_payload, or_str. simpl.
  destruct (_extract_error_code payload) as [[|c r]|];
    destruct (_extract_error_message payload) as [[|c' r']|]; simpl;
    repeat split; discriminate.
Qed.

(** X14.  The error [_oauth_error_from_payload] builds always has a code
    and a message that are not empty, and carries the HTTP status: the
    code is the extracted one, or [http_<status>] when none is extracted
    or it is empty; likewise the message is the extracted one, or
    [OAuth request failed (<status>)] when none is extracted or it is
    empty. *)
Theorem oauth_error_never_blank (payload : OAuthTokenPayload.t) (status_code : Z) :
  let e := _oauth_error_from_payload payload status_code in
  OAuthError.code e <> ""
  /\ OAuthError.message e <> ""
  /\ OAuthError.status_code e = Some status_code
  /\ (forall code, _extract_error_code payload = Some code -> code <> "" ->
        OAuthError.code e = code)
  /\ (_extract_error_code payload = None \/ _extract_error_code payload = Some "" ->
        OAuthError.code e = "http_" +:+ PyNum.str_of_int status_code)
  /\ (forall message, _extract_error_message payload = Some message -> message <> "" ->
        OAuthError.message e = message)
  /\ (_extract_error_message payload = None
      \/ _extract_error_message payload = Some "" ->
        OAuthError.message e
          = "OAuth request failed (" +:+ PyNum.str_of_int status_code +:+ ")").
Proof.
  cbv zeta. unfold _oauth_error_from_payload, or_str. simpl.
  destruct (_extract_error_code payload) as [[|c r]|];
    destruct (_extract_error_message payload) as [[|c' r']|]; simpl;
    repeat split; try discriminate; try (intros ? [= <-] ?; congruence);
    try (intros ? [=]); try (intros [[=] | [=]]); reflexivity.
Qed.

Section token_exchange.
Variable settings : Settings.t.
Variable post : string -> Body -> Response.t.
Variable token_payload_validate : JsonObject -> option OAuthTokenPayload.t.

(** The tokens of a payload are complete: all three there and not
    empty. *)
Definition complete_tokens (payload : OAuthTokenPayload.t) (tokens : OAuthTokens.t) : Prop :=
  OAuthTokenPayload.access_token payload = Some (OAuthTokens.access_token tokens)
  /\ OAuthTokenPayload.refresh_token payload = Some (OAuthTokens.refresh_token tokens)
  /\ OAuthTokenPayload.id_token payload = Some (OAuthTokens.id_token tokens)
  /\ OAuthTokens.access_token tokens <> ""
  /\ OAuthTokens.refresh_token tokens <> ""
  /\ OAuthTokens.id_token tokens <> "".

Lemma _parse_tokens_spec (payload : OAuthTokenPayload.t) :
  match _parse_tokens payload with
  | Return tokens => complete_tokens payload tokens
  | Raise e =>
      e = OAuthError.mk "invalid_response" "OAuth response missing tokens" None
      /\ forall tokens, ~ complete_tokens payload tokens
  end.
Proof.
  unfold _parse_tokens, complete_tokens.
  destruct (OAuthTokenPayload.access_token payload) as [[|c1 a]|];
    destruct (OAuthTokenPayload.refresh_token payload) as [[|c2 r]|];
    destruct (OAuthTokenPayload.id_token payload) as [[|c3 i]|]; simpl;
    try (split; [reflexivity |]; intros [a' r' i']; simpl;
         intros (H1 & H2 & H3 & H4 & H5 & H6); congruence).
  repeat split; discriminate.
Qed.

(** The token request decodes to its five form fields. *)
Definition token_form (code code_verifier : string)
    (redirect_uri client_id : option string) : list (string * string) :=
  [ ("grant_type", "authorization_code");
    ("client_id", or_str client_id (Settings.oauth_client_id settings));
    ("code", code);
    ("code_verifier", code_verifier);
    ("redirect_uri", or_str redirect_uri (Settings.oauth_redirect_uri settings)) ].

(** X15.  [exchange_authorization_code] posts a form that decodes to the
    five fields of the grant, with [code] and [code_verifier] as passed.
    It returns tokens only from a response with status below 400 whose
    body validates and holds three non-empty tokens, and then returns
    exactly those; a body that does not validate raises
    [invalid_response], a status of 400 or more raises an error that
    carries the status, and missing tokens raise [invalid_response]. *)
Theorem exchange_authorization_code_spec
    (code code_verifier : string) (redirect_uri base_url client_id : option string) :
  let url := auth_base settings base_url +:+ "/oauth/token" in
  let encoded := urlencode (token_form code code_verifier redirect_uri client_id) in
  let resp := post url (FormBody encoded) in
  let result :=
    exchange_authorization_code settings post token_payload_validate
      code code_verifier redirect_uri base_url client_id in
  parse_qsl encoded = token_form code code_verifier redirect_uri client_id
  /\ match token_payload_validate (Response.data resp) with
     | None =>
         result = Raise (OAuthError.mk "invalid_response" "OAuth response invalid" None)
     | Some payload =>
         if (400 <=? Response.status resp)%Z then
           exists e, result = Raise e
             /\ OAuthError.status_code e = Some (Response.status resp)
             /\ OAuthError.code e <> ""
         else
           match result with
           | Return tokens => complete_tokens payload tokens
           | Raise e =>
               e = OAuthError.mk "invalid_response" "OAuth response missing tokens" None
               /\ forall tokens, ~ complete_tokens payload tokens
           end
     end.
Proof.
  cbv zeta. split; [apply parse_qsl_urlencode; discriminate |].
  unfold exchange_authorization_code. fold (token_form code code_verifier redirect_uri client_id).
  destruct (token_payload_validate _) as [payload|]; [| reflexivity].
  destruct (400 <=? _)%Z.
  - eexists. split; [reflexivity |].
    destruct (oauth_error_never_blank_aux payload
                (Response.status
                   (post (auth_base settings base_url +:+ "/oauth/token")
                      (FormBody (urlencode (token_form code code_verifier redirect_uri client_id))))))
      as (Hc & _ & Hs). now split.
  - apply _parse_tokens_spec.
Qed.
End token_exchange.

Section device_flow.
Variable settings : Settings.t.
Variable post : string -> Body -> Response.t.
Variable token_payload_validate : JsonObject -> option OAuthTokenPayload.t.
Variable device_payload_validate : JsonObject -> option DeviceCodePayload.t.
Variable fromisoformat : string -> option Datetime.t.
Variable now : Q.

Lemma _expires_in_seconds_nonneg (expires_at : option string) (n : Z) :
  _expires_in_seconds fromisoformat now expires_at = Some n -> (0 <= n)%Z.
Proof.
  rewrite DeviceCodeFacts._expires_in_seconds_spec.
  destruct (DeviceCodeFacts.seconds_remaining fromisoformat now expires_at)
    as [delta|] eqn:E; [| discriminate].
  intros [= <-]. apply PercentFacts.Qfloor_nonneg, Qlt_le_weak.
  exact (DeviceCodeFacts.seconds_remaining_pos _ _ _ _ E).
Qed.

(** X16.  [request_device_code] fails on every status of 400 or more
    without looking at the body: 404 raises [device_auth_unavailable],
    any other raises [device_auth_failed], each with the status.  Below
    400 a body that does not validate raises [invalid_response].  A device
    code it does return has a non-empty user code and device id, the
    verification URL [<base>/codex/device], and a lifetime of at least one
    second. *)
Theorem request_device_code_outcomes (base_url client_id : option string) :
  let auth_base := auth_base settings base_url in
  let resp :=
    post (auth_base +:+ "/api/accounts/deviceauth/usercode")
         (JsonBody {[ "client_id" :=
            JStr (or_str client_id (Settings.oauth_client_id settings)) ]}) in
  let status := Response.status resp in
  let result :=
    request_device_code settings post device_payload_validate fromisoformat now
      base_url client_id in
  (status = 404%Z ->
     exists message,
       result = Raise (OAuthError.mk "device_auth_unavailable" message (Some 404%Z)))
  /\ ((400 <= status)%Z -> status <> 404%Z ->
      result = Raise (OAuthError.mk "device_auth_failed"
                        ("Device code request failed with status "
                         +:+ PyNum.str_of_int status)
                        (Some status)))
  /\ ((status < 400)%Z -> device_payload_validate (Response.data resp) = None ->
      result = Raise (OAuthError.mk "invalid_response"
                        "Device auth response invalid" None))
  /\ (forall device_code, result = Return device_code ->
        (status < 400)%Z
        /\ DeviceCode.user_code device_code <> ""
        /\ DeviceCode.device_auth_id device_code <> ""
        /\ DeviceCode.verification_url device_code = auth_base +:+ "/codex/device"
        /\ (1 <= DeviceCode.expires_in_seconds device_code)%Z).
Proof.
  cbv zeta. unfold request_device_code.
  set (resp := post _ _).
  split; [| split; [| split]].
  - intros ->. simpl. eexists. reflexivity.
  - intros Hge Hne. apply Z.leb_le in Hge. rewrite Hge.
    apply Z.eqb_neq in Hne. now rewrite Hne.
  - intros Hlt Hval. apply Z.leb_gt in Hlt. now rewrite Hlt, Hval.
  - intros device_code.
    destruct (400 <=? Response.status resp)%Z eqn:Est.
    { destruct (_ =? 404)%Z; discriminate. }
    apply Z.leb_gt in Est.
    destruct (device_payload_validate _) as [p|]; [| discriminate].
    destruct (DeviceCodePayload.user_code p) as [[|c1 uc]|]; try discriminate;
      destruct (DeviceCodePayload.device_auth_id p) as [[|c2 did]|]; try discriminate.
    simpl. intros [= <-]. simpl.
    repeat split; try discriminate; [exact Est |].
    destruct (default 0%Z (DeviceCodePayload.expires_in p) <=? 0)%Z eqn:E;
      [| apply Z.leb_gt in E; lia].
    destruct (_expires_in_seconds _ _ _) as [n|] eqn:En; [| lia].
    apply _expires_in_seconds_nonneg in En.
    destruct (n =? 0)%Z eqn:E0; [lia |]. apply Z.eqb_neq in E0. lia.
Qed.

Lemma exchange_authorization_code_complete
    (code code_verifier : string) (redirect_uri base_url client_id : option string)
    (tokens : OAuthTokens.t) :
  exchange_authorization_code settings post token_payload_validate
    code code_verifier redirect_uri base_url client_id = Return tokens ->
  OAuthTokens.access_token tokens <> ""
  /\ OAuthTokens.refresh_token tokens <> ""
  /\ OAuthTokens.id_token tokens <> "".
Proof.
  unfold exchange_authorization_code.
  destruct (token_payload_validate _) as [payload|]; [| discriminate].
  destruct (400 <=? _)%Z; [discriminate |].
  pose proof (_parse_tokens_spec payload) as H.
  destruct (_parse_tokens payload) as [t|]; [| discriminate].
  intros [= <-]. destruct H as (_ & _ & _ & H4 & H5 & H6). now repeat split.
Qed.

(** X17.  Whatever path [exchange_device_token] takes, tokens it returns
    are complete: access, refresh and id token are all non-empty.  On a
    response below 400 that is not pending and carries an
    [authorization_code], a missing [code_verifier] raises
    [invalid_response], and otherwise the answer is that of
    [exchange_authorization_code] with the redirect URI
    [<base>/deviceauth/callback] and the configured client id. *)
Theorem exchange_device_token_complete
    (device_auth_id user_code : string) (base_url : option string) :
  let resp :=
    post (auth_base settings base_url +:+ "/api/accounts/deviceauth/token")
         (JsonBody {[ "device_auth_id" := JStr device_auth_id;
                      "user_code" := JStr user_code ]}) in
  let result :=
    exchange_device_token settings post token_payload_validate
      device_auth_id user_code base_url in
  (forall tokens, result = Return (Some tokens) ->
     OAuthTokens.access_token tokens <> ""
     /\ OAuthTokens.refresh_token tokens <> ""
     /\ OAuthTokens.id_token tokens <> "")
  /\ (forall payload code,
        token_payload_validate (Response.data resp) = Some payload ->
        (Response.status resp < 400)%Z ->
        _is_pending_error payload = false ->
        OAuthTokenPayload.authorization_code payload = Some code -> code <> "" ->
        match OAuthTokenPayload.code_verifier payload with
        | Some (String c r) =>
            result =
              match exchange_authorization_code settings post token_payload_validate
                      code (String c r)
                      (Some (auth_base settings base_url +:+ "/deviceauth/callback"))
                      base_url (Some (Settings.oauth_client_id settings)) with
              | Return tokens => Return (Some tokens)
              | Raise e => Raise e
              end
        | _ =>
            result = Raise (OAuthError.mk "invalid_response"
                              "Device auth response missing code verifier" None)
        end).
Proof.
  cbv zeta. unfold exchange_device_token. set (resp := post _ _).
  split.
  - intros tokens.
    destruct (token_payload_validate _) as [payload|]; [| discriminate].
    destruct (bool_decide _); [discriminate |].
    destruct (400 <=? _)%Z; [destruct (_is_pending_error _); discriminate |].
    destruct (_is_pending_error _); [discriminate |].
    destruct (PyStr.truthy_opt (OAuthTokenPayload.authorization_code payload)).
    + destruct (negb _); [discriminate |].
      destruct (exchange_authorization_code _ _ _ _ _ _ _ _) as [t|] eqn:E;
        [| discriminate].
      intros [= <-]. exact (exchange_authorization_code_complete _ _ _ _ _ _ E).
    + pose proof (_parse_tokens_spec payload) as H.
      destruct (_parse_tokens payload) as [t|]; [| discriminate].
      intros [= <-]. destruct H as (_ & _ & _ & H4 & H5 & H6). now repeat split.
  - intros payload code Hval Hst Hpend Hcode Hne.
    rewrite Hval, Hpend, Hcode.
    assert (H34 : bool_decide (Response.status resp ∈ [403%Z; 404%Z]) = false).
    { apply bool_decide_eq_false_2. set_unfold. lia. }
    rewrite H34. apply Z.leb_gt in Hst. rewrite Hst.
    destruct code as [|c0 code]; [contradiction |]. simpl.
    destruct (OAuthTokenPayload.code_verifier payload) as [[|c r]|]; reflexivity.
Qed.
End device_flow.

(** A poll answered with an authorization code but no verifier. *)
Lemma exchange_device_token_complete_witness :
  let validate := fun data : JsonObject =>
    Some (OAuthTokenPayload.mk None None None
            (as_str (get "authorization_code" data)) None JNull
            None None None None None) in
  let post := fun (_ : string) (_ : Body) =>
    Response.mk 200 {[ "authorization_code" := JStr "code-1" ]} in
  exchange_device_token url_settings post validate "dev-1" "CODE" None
    = Raise (OAuthError.mk "invalid_response"
               "Device auth response missing code verifier" None).
Proof.
  cbv zeta.
  refine (proj2 (exchange_device_token_complete url_settings
            (fun _ _ => Response.mk 200 {[ "authorization_code" := JStr "code-1" ]})
            (fun data : JsonObject =>
               Some (OAuthTokenPayload.mk None None None
                       (as_str (get "authorization_code" data)) None JNull
                       None None None None None))
            "dev-1" "CODE" None)
          (OAuthTokenPayload.mk None None None (Some "code-1") None JNull
             None None None None None)
          "code-1" _ _ _ _ _); try reflexivity; discriminate.
Defined.

(** A 404 from the user-code endpoint. *)
Lemma request_device_code_outcomes_witness :
  exists message,
    request_device_code url_settings (fun _ _ => Response.mk 404 ∅)
      (fun _ => None) (fun _ => None) 0 None None
    = Raise (OAuthError.mk "device_auth_unavailable" message (Some 404%Z)).
Proof.
  apply (proj1 (request_device_code_outcomes url_settings
                  (fun _ _ => Response.mk 404 ∅) (fun _ => None) (fun _ => None) 0
                  None None)).
  reflexivity.
Defined.

End OAuthMore.

(** ** More on request validation and the outbound payload *)
Module RequestsMore.
Import Json Requests RequestsFacts.


(** X18.  [_coerce_messages_payload] leaves alone what has no [messages]:
    a value that is not an object, and an object without that key, come
    back as they are.  What it returns never has a [messages] key, so
    coercing a coerced request changes nothing. *)
Theorem coerce_messages_idempotent (data : JsonValue) :
  (match data with
   | JObj d => d !! "messages" = None -> _coerce_messages_payload data = Valid data
   | _ => _coerce_messages_payload data = Valid data
   end)
  /\ forall coerced,
       _coerce_messages_payload data = Valid coerced ->
       _coerce_messages_payload coerced = Valid coerced
       /\ match coerced, data with
          | JObj d', JObj _ => d' !! "messages" = None
          | JObj _, _ => False
          | _, _ => coerced = data
          end.
Proof.
  split.
  - destruct data as [| | | | | |d]; try reflexivity.
    intros H. unfold _coerce_messages_payload. now rewrite H.
  - intros coerced. destruct data as [| | | | | |d];
      try (intros [= <-]; now split).
    unfold _coerce_messages_payload at 1.
    destruct (d !! "messages") as [messages|] eqn:Em.
    + destruct (input_given _); [discriminate |].
      destruct messages as [| | | | |msgs|]; try discriminate.
      unfold mbind, validated_bind.
      destruct (coerce_loop msgs [] []) as [[ip im]|]; [| discriminate].
      intros [= <-].
      assert (Hm : (<["instructions" := JStr
                       match get "instructions"
                               (<["input" := JList im]> (pop "messages" d)) with
                       | JStr existing =>
                           if PyStr.truthy existing
                           then _merge_instructions existing ip
                           else PyStr.join nl (nonempty_parts ip)
                       | _ => PyStr.join nl (nonempty_parts ip)
                       end]>
                    (<["input" := JList im]> (pop "messages" d))) !! "messages" = None).
      { rewrite !lookup_insert_ne by discriminate. apply lookup_delete_eq. }
      split; [| exact Hm].
      unfold _coerce_messages_payload. now rewrite Hm.
    + intros [= <-]. split; [| exact Em].
      unfold _coerce_messages_payload. now rewrite Em.
Qed.

(** *** What a validated request holds *)

Lemma model_validate_inv (data : JsonValue) (r : ResponsesRequest.t) :
  model_validate data = Valid r ->
  exists d,
    _coerce_messages_payload data = Valid (JObj d)
    /\ d !! "model" = Some (JStr (ResponsesRequest.model r))
    /\ field d "instructions" "" v_str = Valid (ResponsesRequest.instructions r)
    /\ field d "input" [] v_list = Valid (ResponsesRequest.input r)
    /\ ResponsesRequest.store r = false
    /\ (forall v, d !! "store" = Some v -> v_bool v = Valid false)
    /\ ResponsesRequest.extra r = extras ResponsesRequest.fields d
    /\ ResponsesRequest.model_fields_set r = dom d.
Proof.
  unfold model_validate. unfold mbind at 1. unfold validated_bind at 1.
  destruct (_coerce_messages_payload data) as [[| | | | | |d]|]; try discriminate.
  unfold mbind, validated_bind.
  destruct (d !! "model") as [vm|] eqn:Emodel; [| discriminate].
  destruct (v_str vm) as [m|] eqn:Evm; [| discriminate].
  destruct (1 <=? String.length m)%nat; [| discriminate].
  repeat match goal with
         | |- match ?m with Valid _ => _ | Invalid _ => _ end = Valid _ -> _ =>
             let E := fresh "E" in destruct m eqn:E; [| discriminate]
         end.
  intros [= <-]. exists d. simpl.
  split; [reflexivity |].
  split; [destruct vm; try discriminate; now injection Evm as -> |].
  split; [assumption |]. split; [assumption |].
  match goal with
  | E : field d "store" _ _ = Valid ?b |- _ =>
      unfold field in E; destruct (d !! "store") as [v|] eqn:Es
  end.
  - match goal with
    | E : context [v_bool v] |- _ =>
        destruct (v_bool v) as [b'|] eqn:Eb; [| discriminate];
          unfold _ensure_store_false in E; destruct b'; [discriminate |];
          injection E as <-
    end.
    split; [reflexivity |]. split; [| now split].
    now intros v' [= <-].
  - match goal with E : Valid false = Valid _ |- _ => injection E as <- end.
    split; [reflexivity |]. split; [discriminate | now split].
Qed.

Lemma coerce_keeps_presence (data d : JsonObject) (k : string) :
  _coerce_messages_payload (JObj data) = Valid (JObj d) ->
  k <> "messages" -> k <> "instructions" -> k <> "input" ->
  d !! k = data !! k.
Proof.
  intros Hc H1 H2 H3. pose proof (coerce_keeps_key data k H1 H2 H3) as H.
  now rewrite Hc in H.
Qed.

Lemma put_opt_lookup_ne {A : Type} (k k' : string) (f : A -> JsonValue)
    (o : option A) (payload : JsonObject) :
  k <> k' -> put_opt k f o payload !! k' = payload !! k'.
Proof. intros H. destruct o; [now apply lookup_insert_ne | reflexivity]. Qed.

Lemma strip_lookup_ne (payload : JsonObject) (k : string) :
  k <> "max_output_tokens" -> _strip_unsupported_fields payload !! k = payload !! k.
Proof.
  intros H. unfold _strip_unsupported_fields. simpl. unfold pop.
  now apply lookup_delete_ne.
Qed.

(** X19.  The outbound payload says [store] only when the request did:
    for a request that validates, [to_payload] has [store: false] when the
    request had a [store] key and no [store] key when it had none; a
    [store] of true never gets this far. *)
Theorem to_payload_store (dump_json_value : JsonValue -> JsonValue)
    (data : JsonObject) (r : ResponsesRequest.t) :
  model_validate (JObj data) = Valid r ->
  to_payload dump_json_value r !! "store" =
    match data !! "store" with
    | Some _ => Some (JBool false)
    | None => None
    end
  /\ data !! "store" <> Some (JBool true).
Proof.
  intros Hv. destruct (model_validate_inv _ _ Hv)
    as (d & Hc & _ & _ & _ & Hstore & Hsv & _ & Hset).
  rewrite <- (coerce_keeps_presence data d "store" Hc) by discriminate.
  split.
  - unfold to_payload. rewrite strip_lookup_ne by discriminate. rewrite Hset.
    destruct (d !! "store") as [v|] eqn:Es.
    + rewrite bool_decide_eq_true_2 by (apply elem_of_dom; eauto).
      unfold model_dump. rewrite !lookup_insert_ne by discriminate.
      rewrite !put_opt_lookup_ne by discriminate.
      rewrite lookup_insert_eq. now rewrite Hstore.
    + rewrite bool_decide_eq_false_2
        by (rewrite elem_of_dom, Es; intros [? [=]]).
      unfold pop. apply lookup_delete_eq.
  - intros Es. specialize (Hsv _ Es). discriminate.
Qed.

Lemma to_payload_store_witness :
  exists r,
    model_validate (JObj {[ "model" := JStr "gpt-5.1"; "store" := JBool false ]}) = Valid r
    /\ to_payload json_mode r !! "store" = Some (JBool false).
Proof.
  destruct (model_validate (JObj {[ "model" := JStr "gpt-5.1"; "store" := JBool false ]}))
    as [r|msg] eqn:E; [| vm_compute in E; discriminate].
  exists r. split; [reflexivity |].
  exact (proj1 (to_payload_store json_mode _ r E)).
Defined.

(** A JSON value that holds no infinite or NaN float, at any depth. *)
Inductive finite_json : JsonValue -> Prop :=
| finite_null : finite_json JNull
| finite_bool (b : bool) : finite_json (JBool b)
| finite_int (z : Z) : finite_json (JInt z)
| finite_float (q : Q) : finite_json (JFloat (PyNum.Fin q))
| finite_str (s : string) : finite_json (JStr s)
| finite_list (l : list JsonValue) :
    (forall x, In x l -> finite_json x) -> finite_json (JList l)
| finite_obj (m : JsonObject) :
    (forall k x, m !! k = Some x -> finite_json x) -> finite_json (JObj m).

(** The JSON mode changes nothing else. *)
Lemma json_mode_finite (v : JsonValue) : finite_json v -> json_mode v = v.
Proof.
  induction 1 as [| | | | |l _ IH|m _ IH]; try reflexivity.
  - simpl. f_equal. rewrite <- (map_id l) at 2. now apply map_ext_in.
  - simpl. f_equal. apply map_eq. intros k. rewrite lookup_fmap.
    destruct (m !! k) as [x|] eqn:E; [| reflexivity].
    simpl. f_equal. now apply (IH k).
Qed.

Lemma filter_extras_lookup (declared : list string) (d : JsonObject) (k : string) :
  filter (fun kv => not_none kv.2 = true) (extras declared d) !! k =
    match d !! k with
    | Some v => if bool_decide (k ∈ declared) then None
                else if not_none v then Some v else None
    | None => None
    end.
Proof.
  unfold extras.
  destruct (d !! k) as [v|] eqn:Ed.
  - destruct (bool_decide (k ∈ declared)) eqn:Ek.
    + apply bool_decide_eq_true_1 in Ek. apply map_lookup_filter_None. right.
      intros v' Hv' _. apply map_lookup_filter_Some in Hv' as [_ Hn]. now apply Hn.
    + apply bool_decide_eq_false_1 in Ek. destruct (not_none v) eqn:En.
      * apply map_lookup_filter_Some. split; [| exact En].
        apply map_lookup_filter_Some. now split.
      * apply map_lookup_filter_None. right. intros v' Hv' Hn.
        apply map_lookup_filter_Some in Hv' as [Hv' _]. simpl in Hn. congruence.
  - apply map_lookup_filter_None. left. apply map_lookup_filter_None. now left.
Qed.

Lemma dump_extra_lookup (declared : list string) (d : JsonObject) (k : string) :
  dump_extra (extras declared d) !! k =
    match d !! k with
    | Some v => if bool_decide (k ∈ declared) then None
                else if not_none v then Some (json_mode v) else None
    | None => None
    end.
Proof.
  unfold dump_extra. rewrite lookup_fmap, filter_extras_lookup.
  destruct (d !! k) as [v|]; [| reflexivity].
  destruct (bool_decide (k ∈ declared)); [reflexivity |].
  now destruct (not_none v).
Qed.

(** X20.  Keys the model does not declare go upstream: for a request
    that validates, every key other than the declared fields, [messages]
    and [max_output_tokens] appears in the payload with the JSON-mode
    form of the value the request gave it, unless that value is null, in
    which case the key is left out.  The JSON-mode form is the value
    itself when it holds no infinite or NaN float; such a float, at any
    depth, is replaced by null, and the key stays.  The payload always
    carries [model], [instructions] and [input]. *)
Theorem to_payload_forwards_unknown (dump_json_value : JsonValue -> JsonValue)
    (data : JsonObject) (r : ResponsesRequest.t) :
  model_validate (JObj data) = Valid r ->
  (forall k, k ∉ ResponsesRequest.fields -> k <> "messages" ->
     k <> "max_output_tokens" ->
     to_payload dump_json_value r !! k =
       match data !! k with
       | Some JNull | None => None
       | Some v => Some (json_mode v)
       end)
  /\ (forall k v, k ∉ ResponsesRequest.fields -> k <> "messages" ->
       k <> "max_output_tokens" ->
       data !! k = Some v -> v <> JNull -> finite_json v ->
       to_payload dump_json_value r !! k = Some v)
  /\ (forall k x, k ∉ ResponsesRequest.fields -> k <> "messages" ->
       k <> "max_output_tokens" ->
       data !! k = Some (JFloat x) -> (forall q, x <> PyNum.Fin q) ->
       to_payload dump_json_value r !! k = Some JNull)
  /\ to_payload dump_json_value r !! "model" = Some (JStr (ResponsesRequest.model r))
  /\ to_payload dump_json_value r !! "instructions"
       = Some (JStr (ResponsesRequest.instructions r))
  /\ to_payload dump_json_value r !! "input"
       = Some (JList (map dump_json_value (ResponsesRequest.input r)))
  /\ data !! "model" = Some (JStr (ResponsesRequest.model r)).
Proof.
  intros Hv. destruct (model_validate_inv _ _ Hv)
    as (d & Hc & Hmodel & _ & _ & _ & _ & Hextra & _).
  assert (Hpay : forall k, k <> "store" -> k <> "max_output_tokens" ->
            to_payload dump_json_value r !! k = model_dump dump_json_value r !! k).
  { intros k H1 H2. unfold to_payload. rewrite strip_lookup_ne by exact H2.
    destruct (bool_decide _); [reflexivity |]. unfold pop. now apply lookup_delete_ne. }
  assert (Hfwd : forall k, k ∉ ResponsesRequest.fields -> k <> "messages" ->
            k <> "max_output_tokens" ->
            to_payload dump_json_value r !! k =
              match data !! k with
              | Some JNull | None => None
              | Some v => Some (json_mode v)
              end).
  { intros k Hk Hm Hmax.
    assert (Hne : forall f, f ∈ ResponsesRequest.fields -> f <> k)
      by (intros f Hf ->; contradiction).
    rewrite Hpay; [| apply not_eq_sym, Hne; set_solver | exact Hmax].
    unfold model_dump.
    repeat first
      [ rewrite lookup_insert_ne by (apply Hne; unfold ResponsesRequest.fields; set_solver)
      | rewrite put_opt_lookup_ne by (apply Hne; unfold ResponsesRequest.fields; set_solver) ].
    rewrite Hextra, dump_extra_lookup.
    rewrite (coerce_keeps_presence data d k Hc Hm)
      by (apply not_eq_sym, Hne; unfold ResponsesRequest.fields; set_solver).
    rewrite bool_decide_eq_false_2 by exact Hk.
    now destruct (data !! k) as [[]|]. }
  split; [exact Hfwd |].
  split; [| split; [| split; [| split; [| split]]]].
  - intros k v Hk Hm Hmax Hd Hn Hfin. rewrite (Hfwd k Hk Hm Hmax), Hd.
    rewrite (json_mode_finite v Hfin). now destruct v.
  - intros k x Hk Hm Hmax Hd Hx. rewrite (Hfwd k Hk Hm Hmax), Hd.
    destruct x as [q| | |]; [now specialize (Hx q) | reflexivity ..].
  - rewrite Hpay by discriminate. unfold model_dump. apply lookup_insert_eq.
  - rewrite Hpay by discriminate. unfold model_dump.
    rewrite lookup_insert_ne by discriminate. apply lookup_insert_eq.
  - rewrite Hpay by discriminate. unfold model_dump.
    rewrite !lookup_insert_ne by discriminate. apply lookup_insert_eq.
  - rewrite <- Hmodel. symmetry. now apply (coerce_keeps_presence data d "model" Hc).
Qed.

(** A request with three undeclared keys: a number goes through, a null
    is left out, and an infinity becomes null under its key. *)
Lemma to_payload_forwards_unknown_witness :
  exists r,
    model_validate
      (JObj {[ "model" := JStr "gpt-5.1"; "temperature" := JInt 1;
               "user" := JNull; "top_p" := JFloat PyNum.PInf ]}) = Valid r
    /\ to_payload json_mode r !! "temperature" = Some (JInt 1)
    /\ to_payload json_mode r !! "user" = None
    /\ to_payload json_mode r !! "top_p" = Some JNull.
Proof.
  destruct (model_validate
              (JObj {[ "model" := JStr "gpt-5.1"; "temperature" := JInt 1;
                       "user" := JNull; "top_p" := JFloat PyNum.PInf ]}))
    as [r|msg] eqn:E; [| vm_compute in E; discriminate].
  exists r. split; [reflexivity |].
  pose proof (proj1 (to_payload_forwards_unknown json_mode _ r E)) as H.
  split; [| split].
  - rewrite (H "temperature"); [reflexivity | | discriminate | discriminate].
    rewrite list_elem_of_In. simpl. intuition discriminate.
  - rewrite (H "user"); [reflexivity | | discriminate | discriminate].
    rewrite list_elem_of_In. simpl. intuition discriminate.
  - rewrite (H "top_p"); [reflexivity | | discriminate | discriminate].
    rewrite list_elem_of_In. simpl. intuition discriminate.
Defined.




(** *** The compact request *)

Lemma compact_model_validate_inv (data : JsonValue) (r : ResponsesCompactRequest.t) :
  compact_model_validate data = Valid r ->
  exists d,
    _coerce_messages_payload data = Valid (JObj d)
    /\ ResponsesCompactRequest.extra r = extras ResponsesCompactRequest.fields d.
Proof.
  unfold compact_model_validate. unfold mbind at 1. unfold validated_bind at 1.
  destruct (_coerce_messages_payload data) as [[| | | | | |d]|]; try discriminate.
  unfold mbind, validated_bind.
  repeat match goal with
         | |- match ?m with Valid _ => _ | Invalid _ => _ end = Valid _ -> _ =>
             let E := fresh "E" in destruct m eqn:E; [| discriminate]
         end.
  intros [= <-]. now exists d.
Qed.

(** X22.  The compact request has no store guard: its payload drops
    [max_output_tokens] and forwards every other undeclared key whose
    value is not null, with the JSON-mode form of the value, which is the
    value itself when it holds no infinite or NaN float.  So a [store] of
    true goes upstream unchanged. *)
Theorem compact_to_payload_spec (dump_json_value : JsonValue -> JsonValue)
    (data : JsonObject) (r : ResponsesCompactRequest.t) :
  compact_model_validate (JObj data) = Valid r ->
  compact_to_payload dump_json_value r !! "max_output_tokens" = None
  /\ (forall k, k ∉ ResponsesCompactRequest.fields -> k <> "messages" ->
        k <> "max_output_tokens" ->
        compact_to_payload dump_json_value r !! k =
          match data !! k with
          | Some JNull | None => None
          | Some v => Some (json_mode v)
          end)
  /\ (forall k v, k ∉ ResponsesCompactRequest.fields -> k <> "messages" ->
        k <> "max_output_tokens" ->
        data !! k = Some v -> v <> JNull -> finite_json v ->
        compact_to_payload dump_json_value r !! k = Some v)
  /\ (data !! "store" = Some (JBool true) ->
      compact_to_payload dump_json_value r !! "store" = Some (JBool true)).
Proof.
  intros Hv. destruct (compact_model_validate_inv _ _ Hv) as (d & Hc & Hextra).
  assert (Hfwd : forall k, k ∉ ResponsesCompactRequest.fields -> k <> "messages" ->
            k <> "max_output_tokens" ->
            compact_to_payload dump_json_value r !! k =
              match data !! k with
              | Some JNull | None => None
              | Some v => Some (json_mode v)
              end).
  { intros k Hk Hm Hmax.
    assert (Hne : forall f, f ∈ ResponsesCompactRequest.fields -> f <> k)
      by (intros f Hf ->; contradiction).
    unfold compact_to_payload. rewrite strip_lookup_ne by exact Hmax.
    unfold compact_model_dump.
    rewrite !lookup_insert_ne
      by (apply Hne; rewrite list_elem_of_In; simpl; auto).
    rewrite Hextra, dump_extra_lookup.
    rewrite (coerce_keeps_presence data d k Hc Hm)
      by (apply not_eq_sym, Hne; rewrite list_elem_of_In; simpl; auto).
    rewrite bool_decide_eq_false_2 by exact Hk.
    now destruct (data !! k) as [[]|]. }
  split; [| split; [exact Hfwd | split]].
  - unfold compact_to_payload, _strip_unsupported_fields. simpl. apply lookup_delete_eq.
  - intros k v Hk Hm Hmax Hd Hn Hfin. rewrite (Hfwd k Hk Hm Hmax), Hd.
    rewrite (json_mode_finite v Hfin). now destruct v.
  - intros Hs. rewrite Hfwd; [now rewrite Hs | | discriminate | discriminate].
    rewrite list_elem_of_In. simpl. intuition discriminate.
Qed.

Lemma compact_to_payload_witness :
  exists r,
    compact_model_validate
      (JObj {[ "model" := JStr "gpt-5.1"; "store" := JBool true ]}) = Valid r
    /\ compact_to_payload json_mode r !! "store" = Some (JBool true).
Proof.
  destruct (compact_model_validate
              (JObj {[ "model" := JStr "gpt-5.1"; "store" := JBool true ]}))
    as [r|msg] eqn:E; [| vm_compute in E; discriminate].
  exists r. split; [reflexivity |].
  apply (proj2 (proj2 (proj2 (compact_to_payload_spec json_mode _ r E)))). reflexivity.
Defined.

End RequestsMore.

(** ** More on the auth manager: the success path and the repository *)
Module AuthManagerMore.
Import PyStr PlanTypes Models AuthManager.

(** The account a repository call is about. *)
Definition call_account_id (c : RepoCall) : string :=
  match c with
  | update_status account_id _ _ => account_id
  | update_tokens account_id _ _ _ _ _ _ => account_id
  end.

Definition is_update_status (c : RepoCall) : Prop :=
  match c with
  | update_status _ _ _ => True
  | update_tokens _ _ _ _ _ _ _ => False
  end.

Lemma coerce_never_empty (value : option string) (default : string) :
  default <> "" -> coerce_account_plan_type value default <> "".
Proof.
  intros Hd. unfold coerce_account_plan_type.
  destruct (_clean_plan_type value) as [cleaned|]; [| exact Hd].
  destruct (canonicalize_account_plan_type (Some cleaned)) as [plan|] eqn:E; [| exact Hd].
  now apply PlanTypesMore.canonical_fixed in E.
Qed.

(** The account a run returned is the one to name in the statement. *)
Ltac pick_account :=
  match goal with
  | |- exists a : Account.t, (inr ?x, _) = _ /\ _ => exists x
  end.

(** The repository received nothing, or one call. *)
Ltac calls_are cs :=
  exists cs; split; [simpl; rewrite ?app_nil_r; reflexivity |];
  split; [simpl; lia |];
  split; [repeat constructor |];
  intros e He; try discriminate He; repeat constructor.

Ltac rest_holds :=
  repeat split; intros; simpl in *; try discriminate; try congruence.

Ltac no_call := calls_are (@nil RepoCall).

Ltac one_call :=
  match goal with
  | |- exists calls, (_ ++ [?c])%list = _ /\ _ => calls_are [c]
  end.

Section manager.
Variable decrypt : list byte -> option string.
Variable encrypt : string -> list byte.
Variable refresh_access_token : string -> RefreshError.t + TokenRefreshResult.t.
Variable should_refresh : Q -> bool.
Variable PERMANENT_FAILURE_CODES : gmap string string.
Variable DEFAULT_PLAN : string.
Variable utcnow : Q.

(** The four ways [refresh_account] can end: the refresh token does not
    decrypt; the refresh fails for now; it fails for good; it succeeds. *)
Lemma refresh_account_cases (st : Store.t) :
  let account := Store.account st in
  let run := refresh_account decrypt encrypt refresh_access_token
               PERMANENT_FAILURE_CODES DEFAULT_PLAN utcnow st in
  run = (inl CryptoError, st)
  \/ (exists exc, run = (inl (RefreshErr exc), st))
  \/ (exists exc reason,
        run = (inl (RefreshErr exc),
               Store.mk
                 (with_deactivation_reason (Some reason) (with_status DEACTIVATED account))
                 (Store.repo st ++
                    [update_status (Account.id account) DEACTIVATED (Some reason)])))
  \/ (exists account' access refresh id_token last plan email,
        run = (inr account',
               Store.mk account'
                 (Store.repo st ++
                    [update_tokens (Account.id account) access refresh id_token
                       last plan email]))
        /\ Account.id account' = Account.id account).
Proof.
  cbv zeta. destruct st as [account repo].
  unfold refresh_account, mbind, M_bind, get_account, do_decrypt. simpl.
  destruct (decrypt (Account.refresh_token_encrypted account)) as [rt|];
    [| now left].
  unfold mret, M_ret, try_except_RefreshError, do_refresh_access_token.
  destruct (refresh_access_token rt) as [exc|result].
  - unfold raise. destruct (RefreshError.is_permanent exc); simpl.
    + right; right; left. now eexists _, _.
    + right; left. now eexists.
  - right; right; right. unfold mret, M_ret, set_account, repo_call. simpl.
    destruct (TokenRefreshResult.plan_type result);
      [| destruct (negb (truthy (Account.plan_type account)))];
      destruct (truthy_opt (TokenRefreshResult.email result)); simpl;
      (eexists _, _, _, _, _, _, _; split; reflexivity).
Qed.

(** X23.  When the refresh token decrypts and the refresh succeeds,
    [refresh_account] returns the account it was handed, updated in
    place: the three tokens are the encrypted new ones, [last_refresh] is
    now, the plan type is the coerced upstream plan (or, without one, the
    previous plan or the default), the email is replaced only by a
    non-empty one, and id, status and deactivation reason are untouched.
    The repository receives exactly one call, [update_tokens], carrying
    the values the account now holds.  With a non-empty default plan the
    account never ends with an empty plan type. *)
Theorem refresh_account_success
    (st : Store.t) (refresh_token : string) (result : TokenRefreshResult.t) :
  decrypt (Account.refresh_token_encrypted (Store.account st)) = Some refresh_token ->
  refresh_access_token refresh_token = inr result ->
  exists account' : Account.t,
    let account := Store.account st in
    refresh_account decrypt encrypt refresh_access_token
                    PERMANENT_FAILURE_CODES DEFAULT_PLAN utcnow st =
      (inr account',
       Store.mk account'
         (Store.repo st ++
            [update_tokens (Account.id account)
               (encrypt (TokenRefreshResult.access_token result))
               (encrypt (TokenRefreshResult.refresh_token result))
               (encrypt (TokenRefreshResult.id_token result))
               utcnow
               (Some (Account.plan_type account'))
               (Some (Account.email account'))]))
    /\ Account.id account' = Account.id account
    /\ Account.status account' = Account.status account
    /\ Account.deactivation_reason account' = Account.deactivation_reason account
    /\ Account.access_token_encrypted account'
         = encrypt (TokenRefreshResult.access_token result)
    /\ Account.refresh_token_encrypted account'
         = encrypt (TokenRefreshResult.refresh_token result)
    /\ Account.id_token_encrypted account'
         = encrypt (TokenRefreshResult.id_token result)
    /\ Account.last_refresh account' = utcnow
    /\ Account.plan_type account' =
         (let previous :=
            if truthy (Account.plan_type account)
            then Account.plan_type account else DEFAULT_PLAN in
          match TokenRefreshResult.plan_type result with
          | Some plan => coerce_account_plan_type (Some plan) previous
          | None => previous
          end)
    /\ Account.email account' =
         match TokenRefreshResult.email result with
         | Some "" | None => Account.email account
         | Some email => email
         end
    /\ (DEFAULT_PLAN <> "" -> Account.plan_type account' <> "").
Proof.
  intros Hdec Href. destruct st as [account repo]. simpl in Hdec.
  unfold refresh_account, mbind, M_bind, get_account, do_decrypt. simpl.
  rewrite Hdec. unfold mret, M_ret.
  unfold try_except_RefreshError, do_refresh_access_token.
  rewrite Href. unfold mret, M_ret, set_account, repo_call. simpl.
  assert (Hprev : DEFAULT_PLAN <> "" ->
            (if truthy (Account.plan_type account)
             then Account.plan_type account else DEFAULT_PLAN) <> "").
  { intros Hd. destruct (Account.plan_type account); [exact Hd | discriminate]. }
  destruct result as [access refresh idt plan email]. simpl.
  destruct plan as [plan|]; simpl.
  - destruct email as [[|c email]|]; simpl; pick_account;
      (split; [reflexivity |]; simpl; repeat split;
       intros Hd; apply coerce_never_empty, Hprev, Hd).
  - destruct (truthy (Account.plan_type account)) eqn:Et; simpl;
      destruct email as [[|c email]|]; simpl; pick_account;
      (split; [reflexivity |]; simpl; repeat split;
       intros Hd; try exact Hd;
       destruct (Account.plan_type account); discriminate).
Qed.

(** X24.  Whatever happens, [ensure_fresh] makes at most one call on the
    repository, and that call is about the account it was handed, whose
    id never changes.  It makes none, and returns the account as it is,
    when the account is fresh and [force] is off.  When it raises, the
    stored tokens and [last_refresh] are as before and any call made is
    [update_status]; a decryption failure changes nothing at all.  When
    it returns, it returns the very account the caller holds. *)
Theorem ensure_fresh_effects (force : bool) (st : Store.t) :
  let run := ensure_fresh decrypt encrypt refresh_access_token should_refresh
               PERMANENT_FAILURE_CODES DEFAULT_PLAN utcnow force st in
  let account := Store.account st in
  let account' := Store.account (snd run) in
  (exists calls,
      Store.repo (snd run) = (Store.repo st ++ calls)%list
      /\ (length calls <= 1)%nat
      /\ Forall (fun c => call_account_id c = Account.id account) calls
      /\ (forall e, fst run = inl e -> Forall is_update_status calls))
  /\ Account.id account' = Account.id account
  /\ (force || should_refresh (Account.last_refresh account) = false ->
      run = (inr account, st))
  /\ (forall e, fst run = inl e ->
        Account.access_token_encrypted account' = Account.access_token_encrypted account
        /\ Account.refresh_token_encrypted account' = Account.refresh_token_encrypted account
        /\ Account.id_token_encrypted account' = Account.id_token_encrypted account
        /\ Account.last_refresh account' = Account.last_refresh account)
  /\ (fst run = inl CryptoError -> snd run = st)
  /\ (forall a, fst run = inr a -> a = account').
Proof.
  cbv zeta. unfold ensure_fresh, mbind, M_bind, get_account. simpl.
  destruct (force || should_refresh (Account.last_refresh (Store.account st))).
  2:{ unfold mret, M_ret. simpl. split; [no_call | rest_holds]. }
  destruct (refresh_account_cases st)
    as [H | [(exc & H) | [(exc & reason & H) |
        (account' & access & refresh & id_token & last & plan & email & H & Hid)]]];
    cbv zeta in H; rewrite H; simpl.
  - split; [no_call | rest_holds].
  - split; [no_call | rest_holds].
  - split; [one_call | rest_holds].
  - split; [one_call | rest_holds].
Qed.
End manager.

(** A refresh that brings the plan [ Plus ] and no email to an account
    that had no plan. *)
Lemma refresh_account_success_witness :
  let account :=
    Account.mk "acc-1" "a@example.com" "" [x00] [x01] [x02] 0 ACTIVE None in
  let result := TokenRefreshResult.mk "at" "rt2" "it" (Some " Plus ") None in
  exists account',
    refresh_account (fun _ => Some "rt") (fun _ => [x03]) (fun _ => inr result)
                    ∅ "free" 5 (Store.mk account []) =
      (inr account',
       Store.mk account'
         [update_tokens "acc-1" [x03] [x03] [x03] 5 (Some "plus") (Some "a@example.com")])
    /\ account' =
         Account.mk "acc-1" "a@example.com" "plus" [x03] [x03] [x03] 5 ACTIVE None.
Proof.
  cbv zeta.
  destruct (refresh_account_success
              (fun _ => Some "rt") (fun _ => [x03])
              (fun _ => inr (TokenRefreshResult.mk "at" "rt2" "it" (Some " Plus ") None))
              ∅ "free" 5
              (Store.mk (Account.mk "acc-1" "a@example.com" "" [x00] [x01] [x02]
                           0 ACTIVE None) [])
              "rt" (TokenRefreshResult.mk "at" "rt2" "it" (Some " Plus ") None)
              eq_refl eq_refl)
    as (account' & Hrun & Hid & Hst & Hre & Ha & Hr & Hi & Hl & Hp & He & _).
  cbv zeta in Hrun. simpl in Hid, Hst, Hre, Ha, Hr, Hi, Hl, He.
  assert (Hp' : Account.plan_type account' = "plus")
    by (rewrite Hp; vm_compute; reflexivity).
  exists account'. destruct account'. simpl in *. subst.
  split; [exact Hrun | reflexivity].
Defined.

End AuthManagerMore.

(** ** The latest usage row of each account *)
Module UsageRepositoryFacts.
Import UsageRepository.

(** The rows a window argument asks for: those of the window, where no
    argument, an empty one and [primary] all mean the primary window,
    which rows without a window belong to. *)
Definition in_window (window_arg : option string) (w : option string) : Prop :=
  if decide (window_arg = None \/ window_arg = Some "" \/ window_arg = Some "primary")
  then w = Some "primary" \/ w = None
  else w = window_arg.

Section repository.
Context {Entry : Type}.
Variable account_id : Entry -> string.
Variable window : Entry -> option string.
Variable recorded_at : Entry -> Q.
Variable execute : Select Entry -> list Entry.

(** Row [a] may come before row [b] in a result ordered by the columns;
    account ids compare as the default collation does, byte by byte. *)
Fixpoint ordered (columns : list OrderBy) (a b : Entry) : Prop :=
  match columns with
  | [] => True
  | account_id_asc :: rest =>
      (account_id a ?= account_id b)%string = Lt
      \/ (account_id a = account_id b /\ ordered rest a b)
  | recorded_at_desc :: rest =>
      (recorded_at b < recorded_at a)%Q
      \/ (recorded_at a == recorded_at b /\ ordered rest a b)%Q
  end.

(** What the database owes for a statement over a table: the rows that
    satisfy the [where] clause, in an order the [order_by] allows. *)
Definition answers (table : list Entry) (stmt : Select Entry) (rows : list Entry) : Prop :=
  Permutation rows (List.filter (where_ stmt) table)
  /\ StronglySorted (ordered (order_by stmt)) rows.

Lemma latest_conditions_spec (window_arg : option string) (entry : Entry) :
  latest_conditions window window_arg entry = true
  <-> in_window window_arg (window entry).
Proof.
  assert (Hp : primary_or_null window entry = true
               <-> window entry = Some "primary" \/ window entry = None).
  { unfold primary_or_null, window_eq, window_is_null.
    rewrite orb_true_iff, !bool_decide_eq_true. reflexivity. }
  unfold latest_conditions, in_window.
  destruct (decide _) as [Hd | Hd].
  - destruct Hd as [-> | [-> | ->]]; simpl; exact Hp.
  - destruct window_arg as [[|c label]|]; try (exfalso; auto; fail).
    cbn [PyStr.truthy].
    destruct (String.eqb (String c label) "primary") eqn:E.
    + apply String.eqb_eq in E. rewrite E in Hd. exfalso. auto.
    + unfold window_eq. now rewrite bool_decide_eq_true.
Qed.

(** The loop keeps, for each account, the first row it meets. *)
Lemma latest_loop_first (rows : list Entry) (latest : gmap string Entry) (id : string) :
  fold_left
    (fun latest entry =>
       match latest !! account_id entry with
       | None => <[account_id entry := entry]> latest
       | Some _ => latest
       end) rows latest !! id
  = match latest !! id with
    | Some entry => Some entry
    | None => List.find (fun entry => String.eqb (account_id entry) id) rows
    end.
Proof.
  revert latest. induction rows as [|entry rows IH]; intros latest; simpl.
  - now destruct (latest !! id).
  - rewrite IH. destruct (String.eqb (account_id entry) id) eqn:E.
    + apply String.eqb_eq in E. subst id.
      destruct (latest !! account_id entry) as [e|] eqn:El.
      * now rewrite El.
      * now rewrite lookup_insert_eq.
    + apply String.eqb_neq in E.
      destruct (latest !! account_id entry) as [e|] eqn:El; [reflexivity |].
      now rewrite lookup_insert_ne.
Qed.

(** In a sorted list, the first row that satisfies a test comes before
    every other row that does. *)
Lemma find_first_sorted (R : Entry -> Entry -> Prop) (p : Entry -> bool)
    (rows : list Entry) (first : Entry) :
  StronglySorted R rows -> List.find p rows = Some first ->
  forall entry, In entry rows -> p entry = true -> entry = first \/ R first entry.
Proof.
  induction 1 as [|a rows Hs IH Ha]; simpl; [discriminate |].
  destruct (p a) eqn:Ep.
  - intros [= <-] entry [<- | Hin] _; [now left | right].
    rewrite Forall_forall in Ha. apply Ha. now apply list_elem_of_In.
  - intros Hf entry [<- | Hin] Hp; [congruence |]. now apply IH.
Qed.

Lemma compare_irrefl (s : string) : (s ?= s)%string <> Lt.
Proof.
  intros H. pose proof (String.compare_antisym s s) as Ha.
  rewrite H in Ha. discriminate.
Qed.

(** X25.  When the database answers the query (the rows of the asked
    window, ordered by account id and then by [recorded_at], latest
    first), [latest_by_account] maps every account that has a row in the
    window to one of its rows in the window with the greatest
    [recorded_at], and has no key for any other account.  No window
    argument, an empty one and [primary] all ask for the primary window,
    which includes the rows that carry no window. *)
Theorem latest_by_account_spec (table : list Entry) (window_arg : option string) :
  answers table (latest_stmt window window_arg)
          (execute (latest_stmt window window_arg)) ->
  forall id : string,
    match latest_by_account account_id window execute window_arg !! id with
    | Some entry =>
        In entry table /\ account_id entry = id
        /\ in_window window_arg (window entry)
        /\ forall other, In other table -> account_id other = id ->
             in_window window_arg (window other) ->
             (recorded_at other <= recorded_at entry)%Q
    | None =>
        forall other, In other table -> in_window window_arg (window other) ->
          account_id other <> id
    end.
Proof.
  intros [Hperm Hsorted] id. unfold latest_by_account.
  rewrite latest_loop_first, lookup_empty.
  set (rows := execute (latest_stmt window window_arg)) in *.
  assert (Hrows : forall entry, In entry rows <->
            In entry table /\ in_window window_arg (window entry)).
  { intros entry. rewrite <- latest_conditions_spec, <- filter_In.
    split; apply Permutation_in; [exact Hperm | now symmetry]. }
  destruct (List.find _ rows) as [entry|] eqn:Ef.
  - pose proof (find_some _ _ Ef) as [Hin Hid]. apply String.eqb_eq in Hid.
    apply Hrows in Hin as [Hin Hw]. repeat split; try assumption.
    intros other Ho Hoid How.
    destruct (find_first_sorted _ _ _ _ Hsorted Ef other) as [-> | Hord].
    + apply Hrows. now split.
    + now apply String.eqb_eq.
    + apply Qle_refl.
    + simpl in Hord. destruct Hord as [Hlt | [_ [Hlt | [Heq _]]]].
      * rewrite Hid, Hoid in Hlt. now apply compare_irrefl in Hlt.
      * now apply Qlt_le_weak.
      * rewrite Heq. apply Qle_refl.
  - intros other Ho How Hoid.
    pose proof (find_none _ _ Ef other) as Hn.
    specialize (Hn (proj2 (Hrows other) (conj Ho How))).
    now apply String.eqb_neq in Hn.
Qed.
End repository.

(** Three rows of two accounts: the later primary row of [a] wins over
    its earlier one, which carries no window; the secondary row of [b] is
    not asked for. *)
Lemma latest_by_account_witness :
  let Entry := (string * option string * Q)%type in
  let account_id := fun e : Entry => e.1.1 in
  let window := fun e : Entry => e.1.2 in
  let recorded_at := fun e : Entry => e.2 in
  let table : list Entry :=
    [("a", Some "primary", 20%Q); ("a", None, 10%Q); ("b", Some "secondary", 30%Q)] in
  let execute := fun stmt : Select Entry => List.filter (where_ stmt) table in
  answers account_id recorded_at table (latest_stmt window None)
          (execute (latest_stmt window None))
  /\ exists entry,
       latest_by_account account_id window execute None !! "a" = Some entry
       /\ entry = ("a", Some "primary", 20%Q)
       /\ forall other, In other table -> account_id other = "a" ->
            in_window None (window other) ->
            (recorded_at other <= recorded_at entry)%Q.
Proof.
  cbv zeta.
  set (table := [("a", Some "primary", 20%Q); ("a", None, 10%Q);
                 ("b", Some "secondary", 30%Q)] : list (string * option string * Q)).
  assert (Hanswers :
    answers (fun e => e.1.1) (fun e => e.2) table
      (latest_stmt (fun e => e.1.2) None)
      (List.filter (where_ (latest_stmt (fun e => e.1.2) None)) table)).
  { split; [reflexivity |].
    replace (List.filter _ table)
      with [("a", Some "primary", 20%Q); ("a", None, 10%Q)]
      by (vm_compute; reflexivity).
    apply SSorted_cons; [apply SSorted_cons; [apply SSorted_nil | constructor] |].
    constructor; [| constructor].
    right. split; [reflexivity |]. left. reflexivity. }
  pose proof (latest_by_account_spec (fun e => e.1.1) (fun e => e.1.2) (fun e => e.2)
                (fun stmt => List.filter (where_ stmt) table) table None Hanswers)
    as Hspec.
  split; [exact Hanswers |].
  specialize (Hspec "a").
  destruct (latest_by_account _ _ _ None !! "a") as [entry|] eqn:E;
    [| vm_compute in E; discriminate].
  exists entry. split; [reflexivity |]. split; [| apply Hspec].
  vm_compute in E. now injection E as <-.
Defined.

End UsageRepositoryFacts.

(** ** Rounding to a double *)
Module DoubleFacts.
Import PyNum.

(** [round_half_even] is within a half of its argument. *)
Lemma round_half_even_near (x : Q) :
  (x - (1 # 2) <= inject_Z (round_half_even x) <= x + (1 # 2))%Q.
Proof.
  unfold round_half_even.
  pose proof (Qfloor_le x) as Hlo. pose proof (Qlt_floor x) as Hhi.
  rewrite inject_Z_plus in Hhi. change (inject_Z 1) with 1%Q in Hhi.
  destruct (Qcompare_spec (x - inject_Z (Qfloor x)) (1 # 2)) as [He | Hl | Hg].
  - destruct (Z.even (Qfloor x)).
    + split; lra.
    + rewrite inject_Z_plus. change (inject_Z 1) with 1%Q. split; lra.
  - split; lra.
  - rewrite inject_Z_plus. change (inject_Z 1) with 1%Q. split; lra.
Qed.

(** It leaves an integer alone. *)
Lemma round_half_even_integer (x : Q) (z : Z) :
  (x == inject_Z z)%Q -> round_half_even x = z.
Proof.
  intros Hx. unfold round_half_even.
  rewrite (Qfloor_comp _ _ Hx), Qfloor_Z.
  assert (H : (x - inject_Z z ?= 1 # 2)%Q = Lt).
  { rewrite <- Qlt_alt. lra. }
  now rewrite H.
Qed.

Lemma ilog2_below (x : Q) (b : Z) :
  (1 <= b)%Z -> (x < inject_Z (2 ^ b))%Q -> (ilog2 x < b)%Z.
Proof.
  intros Hb Hx. unfold ilog2.
  destruct (Qle_bool 1 x) eqn:E.
  - apply Qle_bool_iff in E.
    assert (H1 : (1 <= Qfloor x)%Z) by (apply (Qfloor_resp_le 1 x) in E; exact E).
    apply Z.log2_lt_pow2; [lia |].
    pose proof (Qle_lt_trans _ _ _ (Qfloor_le x) Hx) as H.
    rewrite <- Zlt_Qlt in H. exact H.
  - pose proof (Z.log2_up_nonneg (Qceiling (/ x))). lia.
Qed.

(** A power of two with a negative exponent is the inverse of an
    integer. *)
Lemma pow2_neg (e : Z) :
  (e <= 0)%Z -> (2 ^ e * inject_Z (2 ^ (- e)) == 1)%Q.
Proof.
  intros He. rewrite <- (Z.opp_involutive e) at 1.
  rewrite Qpower_opp.
  rewrite (Zpower_Qpower 2 (- e)) by lia.
  change (inject_Z 2) with 2%Q.
  rewrite Qmult_comm. apply Qmult_inv_r.
  apply Qnot_eq_sym, Qlt_not_eq, Qpower_0_lt. reflexivity.
Qed.

(** Below [2^47] rounding to a double moves a positive rational by at
    most 1/128, and does not move an integer. *)
Lemma round_double_small (x : Q) :
  (0 < x)%Q -> (x < inject_Z (2 ^ 47))%Q ->
  exists r,
    round_double x = Fin r
    /\ (x - (1 # 128) <= r <= x + (1 # 128))%Q
    /\ forall z, (x == inject_Z z)%Q -> (r == inject_Z z)%Q.
Proof.
  intros Hpos Hlt. unfold round_double.
  destruct (Qeq_bool x 0) eqn:E0.
  { apply Qeq_bool_eq in E0. lra. }
  assert (Ha : (Qabs x == x)%Q) by (apply Qabs_pos; lra).
  set (a := Qabs x) in *.
  set (e := Z.max (ilog2 a - 52) (-1074)).
  assert (He : (e <= -6)%Z).
  { assert (ilog2 a < 47)%Z by (apply ilog2_below; [lia | lra]). lia. }
  set (s := (2 ^ e)%Q).
  assert (Hs0 : (0 < s)%Q) by (apply Qpower_0_lt; reflexivity).
  assert (Hs : (s <= 1 # 64)%Q).
  { apply (Qle_trans _ (2 ^ (-6))%Q); [| discriminate].
    apply Qpower_le_compat_l; [exact He | discriminate]. }
  set (m := round_half_even (a / s)).
  pose proof (round_half_even_near (a / s)) as [Hlo Hhi]. fold m in Hlo, Hhi.
  assert (Hy : (a == (a / s) * s)%Q).
  { field. apply Qnot_eq_sym, Qlt_not_eq, Hs0. }
  assert (Hr1 : ((a / s - (1 # 2)) * s <= inject_Z m * s)%Q)
    by (apply Qmult_le_compat_r; [exact Hlo | lra]).
  assert (Hr2 : (inject_Z m * s <= (a / s + (1 # 2)) * s)%Q)
    by (apply Qmult_le_compat_r; [exact Hhi | lra]).
  assert (Hb : (a - (1 # 128) <= inject_Z m * s <= a + (1 # 128))%Q).
  { set (y := (a / s)%Q) in *. set (r := (inject_Z m * s)%Q) in *.
    assert (H1 : ((y - (1 # 2)) * s == y * s - (1 # 2) * s)%Q) by ring.
    assert (H2 : ((y + (1 # 2)) * s == y * s + (1 # 2) * s)%Q) by ring.
    rewrite H1 in Hr1. rewrite H2 in Hr2. rewrite <- Hy in Hr1, Hr2.
    split; lra. }
  assert (Hno : Qle_bool (2 ^ 1024) (inject_Z m * s) = false).
  { destruct (Qle_bool (2 ^ 1024) (inject_Z m * s)) eqn:E; [| reflexivity].
    apply Qle_bool_iff in E. exfalso.
    assert (Hbig : (inject_Z (2 ^ 47) + 1 < 2 ^ 1024)%Q) by (vm_compute; reflexivity).
    lra. }
  rewrite Hno.
  assert (Hle : Qle_bool 0 x = true) by (apply Qle_bool_iff; lra).
  rewrite Hle. eexists. split; [reflexivity |]. split; [lra |].
  intros z Hz.
  assert (Hk : (s * inject_Z (2 ^ (- e)) == 1)%Q) by (apply pow2_neg; lia).
  assert (Hsne : ~ (s == 0)%Q) by (apply Qnot_eq_sym, Qlt_not_eq, Hs0).
  assert (Hone : forall q : Q, (q * inject_Z (2 ^ (- e)) * s == q)%Q).
  { intros q. rewrite <- Qmult_assoc, (Qmult_comm _ s), Hk. ring. }
  assert (Hys : (a / s == inject_Z (z * 2 ^ (- e)))%Q).
  { rewrite inject_Z_mult.
    apply (Qmult_inj_l _ _ s Hsne).
    rewrite (Qmult_div_r _ _ Hsne), (Qmult_comm s), Hone. lra. }
  unfold m. rewrite (round_half_even_integer _ _ Hys).
  rewrite inject_Z_mult. apply Hone.
Qed.

Lemma Qceiling_unique (y : Q) (c : Z) :
  (inject_Z (c - 1) < y)%Q -> (y <= inject_Z c)%Q -> Qceiling y = c.
Proof.
  intros Hlo Hhi.
  pose proof (Qceiling_resp_le _ _ Hhi) as H1. rewrite Qceiling_Z in H1.
  pose proof (Qlt_le_trans _ _ _ Hlo (Qle_ceiling y)) as H2.
  rewrite <- Zlt_Qlt in H2. lia.
Qed.

(** Dividing a number of seconds below [2^52] by 60 in doubles and
    taking the ceiling gives the number of minutes that cover them. *)
Lemma minutes_ceiling (n : Z) :
  (0 < n < 2 ^ 52)%Z ->
  exists r m,
    round_double (n # 60) = Fin r /\ Qceiling r = m
    /\ (1 <= m)%Z /\ (60 * (m - 1) < n <= 60 * m)%Z.
Proof.
  intros Hn.
  assert (Hpos : (0 < n # 60)%Q) by (unfold Qlt; simpl; lia).
  assert (Hlt : (n # 60 < inject_Z (2 ^ 47))%Q) by (unfold Qlt; simpl; lia).
  destruct (round_double_small _ Hpos Hlt) as (r & Hr & Hb & Hint).
  exists r. pose proof (Z.div_mod n 60 ltac:(lia)) as Hd.
  pose proof (Z.mod_pos_bound n 60 ltac:(lia)) as Hm.
  assert (Hx : (n # 60 == inject_Z (n / 60) + (n mod 60 # 60))%Q).
  { unfold Qeq, Qplus, inject_Z. simpl. lia. }
  destruct (Z.eq_dec (n mod 60)%Z 0%Z) as [E | E].
  - exists (n / 60)%Z. split; [exact Hr |]. split; [| lia].
    assert (Hz : (n # 60 == inject_Z (n / 60))%Q).
    { rewrite Hx, E. unfold Qeq, Qplus, inject_Z. simpl. lia. }
    rewrite (Qceiling_comp _ _ (Hint _ Hz)). apply Qceiling_Z.
  - exists (n / 60 + 1)%Z. split; [exact Hr |]. split; [| lia].
    assert (H1 : (1 # 60 <= n mod 60 # 60)%Q) by (unfold Qle; simpl; lia).
    assert (H2 : (n mod 60 # 60 <= 59 # 60)%Q) by (unfold Qle; simpl; lia).
    apply Qceiling_unique.
    + replace (n / 60 + 1 - 1)%Z with (n / 60)%Z by lia. lra.
    + rewrite inject_Z_plus. change (inject_Z 1) with 1%Q. lra.
Qed.
End DoubleFacts.

(** ** The usage updater *)
Module UsageUpdaterFacts.
Import Models AuthManager UsageUpdater AuthManagerMore.

(** A row written for a window of an account: token counts are never
    filled in, and a window length, when there is one, is at least a
    minute. *)
Definition row_of (account_id label : string) (entry : AddEntry.t) : Prop :=
  AddEntry.account_id entry = account_id
  /\ AddEntry.window entry = Some label
  /\ AddEntry.input_tokens entry = None
  /\ AddEntry.output_tokens entry = None
  /\ match AddEntry.window_minutes entry with
     | Some minutes => (1 <= minutes)%Z
     | None => True
     end.

Definition no_credits (entry : AddEntry.t) : Prop :=
  AddEntry.credits_has entry = None
  /\ AddEntry.credits_unlimited entry = None
  /\ AddEntry.credits_balance entry = None.

(** At most one primary row, then at most one secondary row, which
    carries no credits. *)
Definition rows_of (account_id : string) (rows : list AddEntry.t) : Prop :=
  exists primary secondary,
    rows = (primary ++ secondary)%list
    /\ (length primary <= 1)%nat /\ (length secondary <= 1)%nat
    /\ Forall (row_of account_id "primary") primary
    /\ Forall (fun entry => row_of account_id "secondary" entry /\ no_credits entry)
              secondary.

(** X26.  [_window_minutes] gives no length for a missing, zero or
    negative number of seconds, and otherwise the number of whole minutes
    that cover the seconds: the least [m] with [limit_seconds <= 60 m],
    which is at least 1 (for a number of seconds below 2^52, where the
    float division is exact enough). *)
Theorem window_minutes_spec :
  _window_minutes None = inr None
  /\ (forall n, (n <= 0)%Z -> _window_minutes (Some n) = inr None)
  /\ (forall n, (0 < n < 2 ^ 52)%Z ->
        exists m, _window_minutes (Some n) = inr (Some m)
          /\ (1 <= m)%Z /\ (60 * (m - 1) < n <= 60 * m)%Z).
Proof.
  split; [reflexivity |]. split.
  - intros n Hn. unfold _window_minutes.
    destruct (n =? 0)%Z eqn:E0; [reflexivity |].
    destruct (n <=? 0)%Z eqn:E1; [reflexivity |]. lia.
  - intros n Hn. unfold _window_minutes.
    destruct (n =? 0)%Z eqn:E0; [lia |].
    destruct (n <=? 0)%Z eqn:E1; [lia |]. cbn [orb].
    destruct (DoubleFacts.minutes_ceiling n Hn) as (r & m & -> & <- & Hm & Hn').
    eexists. split; [reflexivity |]. lia.
Qed.

Lemma window_minutes_positive (limit_seconds : option Z) :
  match _window_minutes limit_seconds with
  | inr (Some minutes) => (1 <= minutes)%Z
  | _ => True
  end.
Proof.
  destruct limit_seconds as [n|]; [| exact I]. unfold _window_minutes.
  destruct ((n =? 0)%Z || (n <=? 0)%Z); [exact I |].
  destruct (PyNum.round_double (n # 60)); try exact I. lia.
Qed.

(** Nothing was written. *)
Ltac no_rows :=
  exists []; rewrite app_nil_r; split; [reflexivity |];
  split; [| intros; reflexivity];
  exists [], []; repeat split; simpl; (lia || constructor).

Ltac no_rows_of :=
  exists [], []; repeat split; simpl; (lia || constructor).

Ltac side :=
  simpl; try lia; try assumption; try (repeat constructor; fail);
  try no_rows_of;
  try (exfalso; simpl in *; intuition (congruence || lia)).

Section updater.
Variable decrypt : list byte -> option string.
Variable encrypt : string -> list byte.
Variable refresh_access_token : string -> RefreshError.t + TokenRefreshResult.t.
Variable should_refresh : Q -> bool.
Variable PERMANENT_FAILURE_CODES : gmap string string.
Variable DEFAULT_PLAN : string.
Variable utcnow : Q.
Variable float_of_int : Z -> option PyNum.float.
Variable float_of_str : string -> option PyNum.float.
Variable fetch_usage : nat -> string -> string -> error + UsagePayload.t.
Variable auth_manager : bool.

(** Recording a payload touches the usage repository only; it writes
    the rows of the account, and none when it raises. *)
Lemma record_usage_effects
    (payload : UsagePayload.t) (account : Account.t) (w : World.t) :
  let run := record_usage float_of_int float_of_str payload account w in
  World.accounts_repo run.2 = World.accounts_repo w
  /\ World.fetches run.2 = World.fetches w
  /\ exists rows,
       World.usage_repo run.2 = (World.usage_repo w ++ rows)%list
       /\ rows_of (Account.id account) rows
       /\ (forall e, run.1 = inl e -> rows = []).
Proof.
  cbv zeta. unfold record_usage.
  destruct (_credits_snapshot float_of_int float_of_str payload)
    as [e | [[credits_has credits_unlimited] credits_balance]]; simpl.
  { repeat split. no_rows. }
  assert (Hp : forall p used minutes,
            match minutes with Some m => (1 <= m)%Z | None => True end ->
            row_of (Account.id account) "primary"
              (AddEntry.mk (Account.id account) used None None (Some "primary")
                 (UsageWindow.reset_at p) minutes
                 credits_has credits_unlimited credits_balance))
    by (intros; now repeat split).
  assert (Hs : forall s used minutes,
            match minutes with Some m => (1 <= m)%Z | None => True end ->
            let entry :=
              AddEntry.mk (Account.id account) used None None (Some "secondary")
                (UsageWindow.reset_at s) minutes None None None in
            row_of (Account.id account) "secondary" entry /\ no_credits entry)
    by (intros; now repeat split).
  set (primary :=
         match UsagePayload.rate_limit payload with
         | Some r => RateLimitPayload.primary_window r
         | None => None
         end).
  set (secondary :=
         match UsagePayload.rate_limit payload with
         | Some r => RateLimitPayload.secondary_window r
         | None => None
         end).
  assert (Hpm : exists result,
            match primary with
            | Some p => _window_minutes (UsageWindow.limit_window_seconds p)
            | None => inr None
            end = result
            /\ match result with
               | inr (Some m) => (1 <= m)%Z
               | _ => True
               end).
  { eexists. split; [reflexivity |].
    destruct primary as [p|]; [apply window_minutes_positive | exact I]. }
  assert (Hsm : exists result,
            match secondary with
            | Some s => _window_minutes (UsageWindow.limit_window_seconds s)
            | None => inr None
            end = result
            /\ match result with
               | inr (Some m) => (1 <= m)%Z
               | _ => True
               end).
  { eexists. split; [reflexivity |].
    destruct secondary as [s|]; [apply window_minutes_positive | exact I]. }
  destruct Hpm as ([e | pm] & -> & Hpm); [repeat split; no_rows |].
  destruct Hsm as ([e | sm] & -> & Hsm); [repeat split; no_rows |].
  assert (Hpm' : match pm with Some m => (1 <= m)%Z | None => True end)
    by (destruct pm; exact Hpm).
  assert (Hsm' : match sm with Some m => (1 <= m)%Z | None => True end)
    by (destruct sm; exact Hsm).
  destruct primary as [p|]; [destruct (UsageWindow.used_percent p) as [pu|] eqn:Ep |];
    (destruct secondary as [s|];
     [destruct (UsageWindow.used_percent s) as [su|] eqn:Es |]);
    unfold add_entry; simpl; repeat split;
    try (rewrite <- app_assoc; simpl);
    first
      [ eexists [_; _]; split; [reflexivity |]; split; [| discriminate];
        eexists [_], [_]; repeat split; simpl; try lia;
        repeat constructor; solve [now apply Hp | now apply Hs]
      | eexists [_]; split; [reflexivity |]; split; [| discriminate];
        first
          [ eexists [_], []; split; [reflexivity |];
            repeat split; simpl; try lia; repeat constructor; now apply Hp
          | eexists [], [_]; split; [reflexivity |];
            repeat split; simpl; try lia; repeat constructor; now apply Hs ]
      | no_rows ].
Qed.
(** What one call of [_refresh_account] does to the world. *)
Lemma refresh_account_run (account : Account.t) (w : World.t) :
  let run := _refresh_account decrypt encrypt refresh_access_token should_refresh
               PERMANENT_FAILURE_CODES DEFAULT_PLAN utcnow
               float_of_int float_of_str fetch_usage auth_manager account w in
  let id := Account.id account in
  exists rows requests calls,
    World.usage_repo run.2 = (World.usage_repo w ++ rows)%list
    /\ World.fetches run.2 = (World.fetches w ++ requests)%list
    /\ World.accounts_repo run.2 = (World.accounts_repo w ++ calls)%list
    /\ Account.id run.1.2 = id
    /\ rows_of id rows
    /\ (forall e, run.1.1 = inl e -> rows = [])
    /\ (length requests <= 2)%nat
    /\ Forall (fun request => request.2 = id) requests
    /\ match decrypt (Account.access_token_encrypted account) with
       | Some access_token => head requests = Some (access_token, id)
       | None => requests = []
       end
    /\ (length calls <= 1)%nat
    /\ Forall (fun call => call_account_id call = id) calls
    /\ (calls <> [] \/ length requests = 2%nat ->
        auth_manager = true
        /\ exists access_token,
             decrypt (Account.access_token_encrypted account) = Some access_token
             /\ fetch_usage (length (World.fetches w)) access_token id
                  = inl (UsageFetchError 401)).
Proof.
  cbv zeta. unfold _refresh_account.
  destruct (decrypt (Account.access_token_encrypted account)) as [tok|] eqn:Hdec.
  2:{ simpl. exists [], [], []. rewrite !app_nil_r. repeat split; side. }
  unfold do_fetch_usage.
  destruct (fetch_usage (length (World.fetches w)) tok (Account.id account))
    as [e | payload] eqn:Hfetch.
  2:{ match goal with
      | |- context [record_usage ?a ?b ?c ?d ?e] =>
          destruct (record_usage_effects c d e) as (Hr & Hf & rows & Hu & Hrows & Hnone);
          cbv zeta in Hr, Hf, Hu, Hnone;
          destruct (record_usage a b c d e) as [r w'] eqn:Hrec
      end.
      simpl in *. exists rows, [(tok, Account.id account)], [].
      rewrite Hr, Hf, Hu, app_nil_r. repeat split; side. }
  assert (H401 : forall status_code,
            negb (status_code =? 401)%Z || negb auth_manager = false ->
            e = UsageFetchError status_code ->
            auth_manager = true
            /\ exists access_token,
                 Some tok = Some access_token
                 /\ fetch_usage (length (World.fetches w)) access_token
                      (Account.id account)
                    = inl (UsageFetchError 401)).
  { intros status_code Hc ->. apply orb_false_iff in Hc as [Hs Ha].
    apply negb_false_iff in Hs, Ha. apply Z.eqb_eq in Hs. subst status_code.
    split; [exact Ha | now exists tok]. }
  destruct e as [e | status_code | |];
    try (simpl; exists [], [(tok, Account.id account)], []; rewrite !app_nil_r;
         repeat split; side; fail).
  destruct (negb (status_code =? 401)%Z || negb auth_manager) eqn:Hc.
  { simpl. exists [], [(tok, Account.id account)], []. rewrite !app_nil_r.
    repeat split; side. }
  destruct (H401 _ Hc eq_refl) as [Hauth Hfirst]. clear H401.
  unfold ensure_fresh, mbind, M_bind, get_account. simpl.
  destruct (refresh_account_cases decrypt encrypt refresh_access_token
              PERMANENT_FAILURE_CODES DEFAULT_PLAN utcnow
              (Store.mk account (World.accounts_repo w)))
    as [H | [(exc & H) | [(exc & reason & H) |
        (account' & access & refresh & id_token & last & plan & email & H & Hid)]]];
    cbv zeta in H; rewrite H; simpl in *.
  - exists [], [(tok, Account.id account)], []. rewrite !app_nil_r.
    repeat split; side.
  - exists [], [(tok, Account.id account)], []. rewrite !app_nil_r.
    repeat split; side.
  - eexists [], [(tok, Account.id account)], [_]. rewrite !app_nil_r.
    repeat split; side.
  - rewrite Hid.
    destruct (decrypt (Account.access_token_encrypted account')) as [tok'|] eqn:Hdec'.
    2:{ simpl. eexists [], [(tok, Account.id account)], [_]. rewrite !app_nil_r.
        repeat split; side. }
    destruct (fetch_usage _ tok' (Account.id account)) as [e' | payload'] eqn:Hfetch'.
    2:{ match goal with
        | |- context [record_usage ?a ?b ?c ?d ?e] =>
            destruct (record_usage_effects c d e)
              as (Hr & Hf & rows & Hu & Hrows & Hnone);
            cbv zeta in Hr, Hf, Hu, Hnone;
            destruct (record_usage a b c d e) as [r w'] eqn:Hrec
        end.
        simpl in *. rewrite Hid in Hrows.
        eexists rows, [(tok, Account.id account); (tok', Account.id account)], [_].
        rewrite Hr, Hf, Hu, <- app_assoc. repeat split; side. }
    destruct e' as [e' | status_code' | |]; simpl;
      (eexists [], [(tok, Account.id account); (tok', Account.id account)], [_];
       rewrite app_nil_r, <- app_assoc; repeat split; side).
Qed.
Lemma rows_of_about (account_id : string) (rows : list AddEntry.t) :
  rows_of account_id rows ->
  Forall (fun entry => AddEntry.account_id entry = account_id) rows
  /\ (length rows <= 2)%nat.
Proof.
  intros (primary & secondary & -> & Hp & Hs & Hfp & Hfs). split.
  - apply Forall_app. split.
    + eapply Forall_impl; [exact Hfp |]. now intros entry [H _].
    + eapply Forall_impl; [exact Hfs |]. now intros entry [[H _] _].
  - rewrite length_app. lia.
Qed.

(** X27.  Whatever the upstream answers and whatever fails,
    [_refresh_account] writes at most a primary row and then a secondary
    row, both for the account it was handed, the secondary one without
    credits; it writes none when it raises (a call on the usage
    repository is taken to succeed).  It asks the upstream at most
    twice, always for that account, the first time with the decrypted
    access token; it turns to the accounts repository at most once; and a
    second request or a repository call happens only when an auth manager
    is wired in and the first request was answered 401.  The account
    keeps its id. *)
Theorem refresh_account_effects (account : Account.t) (w : World.t) :
  let run := _refresh_account decrypt encrypt refresh_access_token should_refresh
               PERMANENT_FAILURE_CODES DEFAULT_PLAN utcnow
               float_of_int float_of_str fetch_usage auth_manager account w in
  let id := Account.id account in
  exists rows requests calls,
    World.usage_repo run.2 = (World.usage_repo w ++ rows)%list
    /\ World.fetches run.2 = (World.fetches w ++ requests)%list
    /\ World.accounts_repo run.2 = (World.accounts_repo w ++ calls)%list
    /\ Account.id run.1.2 = id
    /\ rows_of id rows
    /\ (length rows <= 2)%nat
    /\ (forall e, run.1.1 = inl e -> rows = [])
    /\ (length requests <= 2)%nat
    /\ Forall (fun request => request.2 = id) requests
    /\ match decrypt (Account.access_token_encrypted account) with
       | Some access_token => head requests = Some (access_token, id)
       | None => requests = []
       end
    /\ (length calls <= 1)%nat
    /\ Forall (fun call => call_account_id call = id) calls
    /\ (calls <> [] \/ length requests = 2%nat ->
        auth_manager = true
        /\ exists access_token,
             decrypt (Account.access_token_encrypted account) = Some access_token
             /\ fetch_usage (length (World.fetches w)) access_token id
                  = inl (UsageFetchError 401)).
Proof.
  cbv zeta.
  destruct (refresh_account_run account w)
    as (rows & requests & calls & Hu & Hf & Hr & Hid & Hrows & Hnone
        & Hn & Hreq & Hhead & Hm & Hcalls & Hsecond).
  exists rows, requests, calls.
  split; [exact Hu |]. split; [exact Hf |]. split; [exact Hr |].
  split; [exact Hid |]. split; [exact Hrows |].
  split; [apply (rows_of_about _ _ Hrows) |].
  split; [exact Hnone |]. split; [exact Hn |]. split; [exact Hreq |].
  split; [exact Hhead |]. split; [exact Hm |]. split; [exact Hcalls |].
  exact Hsecond.
Qed.

Section refresh_accounts.
Variable usage_refresh_enabled : bool.
Variable usage_refresh_interval_seconds : Z.
Context {History : Type}.
Variable recorded_at : History -> Q.
Variable now : Q.
Variable latest_usage : gmap string History.

(** An account is due for a refresh when it is not DEACTIVATED and its
    latest sample, if it has one, is at least the refresh interval old. *)
Definition due (account : Account.t) : Prop :=
  Account.status account <> DEACTIVATED
  /\ forall latest, latest_usage !! Account.id account = Some latest ->
       (inject_Z usage_refresh_interval_seconds <= now - recorded_at latest)%Q.

(** What the run did is about the due accounts of the list. *)
Definition about_due {A : Type} (accounts : list Account.t) (account_id : A -> string)
    (events : list A) : Prop :=
  Forall (fun event =>
            exists account, In account accounts /\ due account
                            /\ account_id event = Account.id account) events.

Lemma about_due_cons {A : Type} (account : Account.t) (accounts : list Account.t)
    (account_id : A -> string) (events : list A) :
  about_due accounts account_id events ->
  about_due (account :: accounts) account_id events.
Proof.
  intros H. eapply Forall_impl; [exact H |].
  intros event (a & Hin & Hdue & Hid).
  exists a. split; [now right | now split].
Qed.

Lemma about_due_here {A : Type} (account : Account.t) (accounts : list Account.t)
    (account_id : A -> string) (events : list A) :
  due account ->
  Forall (fun event => account_id event = Account.id account) events ->
  about_due (account :: accounts) account_id events.
Proof.
  intros Hdue H. eapply Forall_impl; [exact H |]. intros event Hid.
  exists account. split; [now left | now split].
Qed.

Lemma sampled_recently_false (account : Account.t) :
  sampled_recently usage_refresh_interval_seconds recorded_at now latest_usage account
    = false
  <-> forall latest, latest_usage !! Account.id account = Some latest ->
        (inject_Z usage_refresh_interval_seconds <= now - recorded_at latest)%Q.
Proof.
  unfold sampled_recently.
  destruct (latest_usage !! Account.id account) as [latest|].
  - rewrite negb_false_iff, Qle_bool_iff. split.
    + now intros H latest' [= <-].
    + intros H. now apply H.
  - split; [discriminate | reflexivity].
Qed.

(** The loop, from any world. *)
Lemma refresh_loop_effects (accounts : list Account.t) (w : World.t) :
  let run := refresh_loop decrypt encrypt refresh_access_token should_refresh
               PERMANENT_FAILURE_CODES DEFAULT_PLAN utcnow
               float_of_int float_of_str fetch_usage auth_manager
               usage_refresh_interval_seconds recorded_at now
               accounts latest_usage w in
  Forall2 (fun account account' =>
             Account.id account' = Account.id account
             /\ (~ due account -> account' = account)) accounts run.1
  /\ exists rows requests calls,
       World.usage_repo run.2 = (World.usage_repo w ++ rows)%list
       /\ World.fetches run.2 = (World.fetches w ++ requests)%list
       /\ World.accounts_repo run.2 = (World.accounts_repo w ++ calls)%list
       /\ about_due accounts AddEntry.account_id rows
       /\ about_due accounts snd requests
       /\ about_due accounts call_account_id calls
       /\ (forall account access_token,
             In account accounts -> due account ->
             decrypt (Account.access_token_encrypted account) = Some access_token ->
             In (access_token, Account.id account) requests)
       /\ (length rows <= 2 * length accounts)%nat
       /\ (length requests <= 2 * length accounts)%nat
       /\ (length calls <= length accounts)%nat.
Proof.
  cbv zeta. revert w. induction accounts as [|account rest IH]; intros w.
  { simpl. split; [constructor |]. exists [], [], []. rewrite !app_nil_r.
    repeat split; try constructor; try (simpl; lia). }
  assert (Hskip : ~ due account ->
    let run := refresh_loop decrypt encrypt refresh_access_token should_refresh
                 PERMANENT_FAILURE_CODES DEFAULT_PLAN utcnow
                 float_of_int float_of_str fetch_usage auth_manager
                 usage_refresh_interval_seconds recorded_at now
                 rest latest_usage w in
    Forall2 (fun account account' =>
               Account.id account' = Account.id account
               /\ (~ due account -> account' = account))
            (account :: rest) (account :: run.1)
    /\ exists rows requests calls,
         World.usage_repo run.2 = (World.usage_repo w ++ rows)%list
         /\ World.fetches run.2 = (World.fetches w ++ requests)%list
         /\ World.accounts_repo run.2 = (World.accounts_repo w ++ calls)%list
         /\ about_due (account :: rest) AddEntry.account_id rows
         /\ about_due (account :: rest) snd requests
         /\ about_due (account :: rest) call_account_id calls
         /\ (forall a access_token,
               In a (account :: rest) -> due a ->
               decrypt (Account.access_token_encrypted a) = Some access_token ->
               In (access_token, Account.id a) requests)
         /\ (length rows <= 2 * length (account :: rest))%nat
         /\ (length requests <= 2 * length (account :: rest))%nat
         /\ (length calls <= length (account :: rest))%nat).
  { intros Hnot. cbv zeta.
    destruct (IH w) as (Hall & rows & requests & calls & Hu & Hf & Hr
                        & Hrows & Hreq & Hcalls & Hevery & Hn1 & Hn2 & Hn3).
    split; [constructor; [now split | exact Hall] |].
    exists rows, requests, calls. repeat split; try assumption;
      try (now apply about_due_cons); try (simpl; lia).
    intros a tok [<- | Hin] Hdue Hdec; [contradiction | now apply (Hevery a)]. }
  simpl.
  destruct (bool_decide (Account.status account = DEACTIVATED)) eqn:Hstatus.
  { apply bool_decide_eq_true_1 in Hstatus.
    specialize (Hskip ltac:(intros [H _]; contradiction)). cbv zeta in Hskip.
    destruct (refresh_loop _ _ _ _ _ _ _ _ _ _ _ _ _ _ rest latest_usage w)
      as [rest' w'']. exact Hskip. }
  apply bool_decide_eq_false_1 in Hstatus.
  destruct (sampled_recently _ _ _ latest_usage account) eqn:Hrecent.
  { assert (Hnot : ~ due account).
    { intros [_ H]. apply sampled_recently_false in H. congruence. }
    specialize (Hskip Hnot). cbv zeta in Hskip.
    destruct (refresh_loop _ _ _ _ _ _ _ _ _ _ _ _ _ _ rest latest_usage w)
      as [rest' w'']. exact Hskip. }
  clear Hskip.
  assert (Hdue : due account)
    by (split; [exact Hstatus | now apply sampled_recently_false]).
  pose proof (refresh_account_run account w) as Hrun. cbv zeta in Hrun.
  destruct (_refresh_account _ _ _ _ _ _ _ _ _ _ _ account w)
    as [[r account'] w'].
  destruct Hrun as (rows1 & requests1 & calls1 & Hu1 & Hf1 & Hr1 & Hid & Hrows1 & _
                    & Hn2 & Hreq1 & Hhead & Hn3 & Hcalls1 & _).
  simpl in Hu1, Hf1, Hr1, Hid.
  apply rows_of_about in Hrows1 as [Hrows1 Hn1].
  destruct (IH w') as (Hall & rows & requests & calls & Hu & Hf & Hr
                       & Hrows & Hreq & Hcalls & Hevery & Hm1 & Hm2 & Hm3).
  destruct (refresh_loop _ _ _ _ _ _ _ _ _ _ _ _ _ _ rest latest_usage w')
    as [rest' w'']. simpl in *.
  split; [constructor; [split; [exact Hid | intros Hnot; contradiction] | exact Hall] |].
  exists (rows1 ++ rows)%list, (requests1 ++ requests)%list, (calls1 ++ calls)%list.
  rewrite Hu, Hf, Hr, Hu1, Hf1, Hr1, !app_assoc, !length_app.
  repeat split; try lia.
  - apply Forall_app. split; [now apply about_due_here | now apply about_due_cons].
  - apply Forall_app. split; [now apply about_due_here | now apply about_due_cons].
  - apply Forall_app. split; [now apply about_due_here | now apply about_due_cons].
  - intros a tok [<- | Hin] Ha Hdec; apply in_or_app.
    + left. rewrite Hdec in Hhead. destruct requests1; [discriminate |].
      injection Hhead as ->. now left.
    + right. now apply (Hevery a).
Qed.

(** X28.  [refresh_accounts] does nothing when usage refresh is disabled.
    Otherwise it leaves alone every account that is DEACTIVATED or was
    sampled less than the refresh interval ago: each row written, each
    request to the upstream and each call on the accounts repository is
    about an account of the list that is due, and the accounts that are
    not due come out as they went in.  No failure stops the loop: every
    due account whose access token decrypts has its request sent,
    whatever happened to the accounts before it.  There are at most two
    rows, two requests and one repository call per account. *)
Theorem refresh_accounts_effects (accounts : list Account.t) (w : World.t) :
  let run := refresh_accounts decrypt encrypt refresh_access_token should_refresh
               PERMANENT_FAILURE_CODES DEFAULT_PLAN utcnow
               float_of_int float_of_str fetch_usage auth_manager
               usage_refresh_enabled usage_refresh_interval_seconds recorded_at now
               accounts latest_usage w in
  (usage_refresh_enabled = false -> run = (accounts, w))
  /\ Forall2 (fun account account' =>
                Account.id account' = Account.id account
                /\ (~ due account -> account' = account)) accounts run.1
  /\ exists rows requests calls,
       World.usage_repo run.2 = (World.usage_repo w ++ rows)%list
       /\ World.fetches run.2 = (World.fetches w ++ requests)%list
       /\ World.accounts_repo run.2 = (World.accounts_repo w ++ calls)%list
       /\ about_due accounts AddEntry.account_id rows
       /\ about_due accounts snd requests
       /\ about_due accounts call_account_id calls
       /\ (usage_refresh_enabled = true ->
           forall account access_token,
             In account accounts -> due account ->
             decrypt (Account.access_token_encrypted account) = Some access_token ->
             In (access_token, Account.id account) requests)
       /\ (length rows <= 2 * length accounts)%nat
       /\ (length requests <= 2 * length accounts)%nat
       /\ (length calls <= length accounts)%nat.
Proof.
  cbv zeta. unfold refresh_accounts.
  destruct usage_refresh_enabled; simpl.
  - split; [discriminate |].
    destruct (refresh_loop_effects accounts w)
      as (Hall & rows & requests & calls & Hu & Hf & Hr
          & Hrows & Hreq & Hcalls & Hevery & Hn1 & Hn2 & Hn3).
    split; [exact Hall |]. exists rows, requests, calls.
    split; [exact Hu |]. split; [exact Hf |]. split; [exact Hr |].
    split; [exact Hrows |]. split; [exact Hreq |]. split; [exact Hcalls |].
    split; [intros _; exact Hevery |]. now repeat split.
  - split; [reflexivity |]. split.
    + apply Forall2_same_length_lookup_2; [reflexivity |].
      intros i a a' Ha Ha'. rewrite Ha in Ha'. injection Ha' as <-. now split.
    + exists [], [], []. rewrite !app_nil_r.
      unfold about_due. repeat split; first [simpl; lia | discriminate | solve [constructor]].
Qed.
End refresh_accounts.
End updater.

End UsageUpdaterFacts.

(** ** The PKCE challenge *)
Module PkceFacts.
Import PyStr OAuth.

(** The characters RFC 7636 allows in a challenge that are produced by
    the URL-safe alphabet: letters, digits, [-] and [_]. *)
Definition is_urlsafe (c : ascii) : bool :=
  let n := nat_of_ascii c in
  ((65 <=? n) && (n <=? 90) || (97 <=? n) && (n <=? 122)
   || (48 <=? n) && (n <=? 57) || (n =? 45) || (n =? 95))%nat.

Fixpoint all_urlsafe (s : string) : bool :=
  match s with
  | EmptyString => true
  | String c rest => is_urlsafe c && all_urlsafe rest
  end.

(** [k] padding characters. *)
Fixpoint padding (k : nat) : string :=
  match k with
  | O => ""
  | S k => String "=" (padding k)
  end.

Example urlsafe_b64encode_sample :
  urlsafe_b64encode [xfb; xff] = "-_8="
  /\ urlsafe_b64encode [xfb] = "-w=="
  /\ urlsafe_b64encode [x00; x10; x83; x10; x51; x87] = "ABCDEFGH"
  /\ utf8_encode (String (ascii_of_nat 233) "a") = [xc3; xa9; x61].
Proof. repeat split; reflexivity. Qed.

Lemma b64_char_urlsafe (index : N) :
  (index < 64)%N -> is_urlsafe (b64_char index) = true.
Proof.
  intros H. unfold b64_char.
  assert (Hn : (N.to_nat index < 64)%nat) by lia.
  generalize dependent (N.to_nat index). intros n Hn.
  do 64 (destruct n as [|n]; [reflexivity |]). lia.
Qed.

Lemma byte_bounded (b : byte) : (Byte.to_N b < 256)%N.
Proof. pose proof (Byte.to_N_bounded b). lia. Qed.

(** The encoding is a body over the alphabet followed by the padding
    that completes the last group. *)
Lemma urlsafe_b64encode_shape (n : nat) (data : list byte) :
  (length data <= n)%nat ->
  exists body k,
    urlsafe_b64encode data = body +:+ padding k
    /\ all_urlsafe body = true
    /\ (k <= 2)%nat
    /\ (3 * (String.length body + k) = 4 * (length data + k))%nat.
Proof.
  revert data. induction n as [n IH] using lt_wf_ind. intros data Hn.
  destruct data as [|a [|b [|c rest]]].
  - exists "", 0%nat. split; [reflexivity |]. split; [reflexivity |]. simpl. lia.
  - pose proof (byte_bounded a).
    eexists (String _ (String _ "")), 2%nat. simpl.
    split; [reflexivity |]. split; [| lia].
    rewrite !b64_char_urlsafe; [reflexivity | |].
    + apply N.lt_le_trans with (4 * 16)%N; [| lia].
      apply N.mul_lt_mono_pos_r; [lia | apply N.mod_lt; lia].
    + apply N.Div0.div_lt_upper_bound. lia.
  - pose proof (byte_bounded a). pose proof (byte_bounded b).
    pose proof (N.mod_lt (Byte.to_N a) 4 ltac:(lia)).
    pose proof (N.mod_lt (Byte.to_N b) 16 ltac:(lia)).
    assert (Byte.to_N b / 16 < 16)%N by (apply N.Div0.div_lt_upper_bound; lia).
    eexists (String _ (String _ (String _ ""))), 1%nat. simpl.
    split; [reflexivity |]. split; [| lia].
    rewrite !b64_char_urlsafe; [reflexivity | | |]; try nia.
    apply N.Div0.div_lt_upper_bound. lia.
  - pose proof (byte_bounded a). pose proof (byte_bounded b).
    pose proof (byte_bounded c).
    pose proof (N.mod_lt (Byte.to_N a) 4 ltac:(lia)).
    pose proof (N.mod_lt (Byte.to_N b) 16 ltac:(lia)).
    pose proof (N.mod_lt (Byte.to_N c) 64 ltac:(lia)).
    assert (Byte.to_N b / 16 < 16)%N by (apply N.Div0.div_lt_upper_bound; lia).
    assert (Byte.to_N c / 64 < 4)%N by (apply N.Div0.div_lt_upper_bound; lia).
    destruct (IH (length rest) ltac:(simpl in Hn; lia) rest (le_n _))
      as (body & k & Hbody & Hsafe & Hk & Hlen).
    eexists (String _ (String _ (String _ (String _ body)))), k.
    cbn [urlsafe_b64encode]. cbv zeta. rewrite Hbody.
    split; [reflexivity |]. split; [| split; [exact Hk | simpl; lia]].
    cbn [all_urlsafe]. rewrite Hsafe, !b64_char_urlsafe; [reflexivity | | | |];
      try nia.
    apply N.Div0.div_lt_upper_bound. lia.
Qed.

Lemma rstrip_padding (k : nat) : rstrip_char "=" (padding k) = "".
Proof. induction k as [|k IH]; [reflexivity |]. simpl. now rewrite IH. Qed.

Lemma is_urlsafe_not_pad (c : ascii) : is_urlsafe c = true -> Ascii.eqb c "=" = false.
Proof.
  intros H. destruct (Ascii.eqb c "=") eqn:E; [| reflexivity].
  apply Ascii.eqb_eq in E. subst c. discriminate.
Qed.

(** Stripping the padding leaves the body. *)
Lemma rstrip_body (body : string) (k : nat) :
  all_urlsafe body = true -> rstrip_char "=" (body +:+ padding k) = body.
Proof.
  induction body as [|c body IH]; simpl.
  - intros _. apply rstrip_padding.
  - intros H. apply andb_true_iff in H as [Hc Hb]. rewrite (IH Hb).
    destruct body; [now rewrite (is_urlsafe_not_pad _ Hc) | reflexivity].
Qed.

(** X29.  For a 32-byte digest, which is what SHA-256 gives, the PKCE
    challenge is 43 characters long and made of letters, digits, [-] and
    [_] only: the padding is gone and nothing needs escaping in a URL. *)
Theorem pkce_challenge_shape (sha256 : list byte -> list byte) (verifier : string) :
  length (sha256 (utf8_encode verifier)) = 32%nat ->
  String.length (pkce_challenge sha256 verifier) = 43%nat
  /\ all_urlsafe (pkce_challenge sha256 verifier) = true.
Proof.
  intros Hdigest. unfold pkce_challenge.
  destruct (urlsafe_b64encode_shape _ _ (le_n (length (sha256 (utf8_encode verifier)))))
    as (body & k & Hbody & Hsafe & Hk & Hlen).
  rewrite Hbody, (rstrip_body _ _ Hsafe). split; [lia | exact Hsafe].
Qed.

(** A digest of thirty-two [0xff] bytes. *)
Lemma pkce_challenge_shape_witness :
  let sha256 := fun _ : list byte => repeat xff 32 in
  pkce_challenge sha256 "verifier" = "__________________________________________8"
  /\ String.length (pkce_challenge sha256 "verifier") = 43%nat
  /\ all_urlsafe (pkce_challenge sha256 "verifier") = true.
Proof.
  cbv zeta. split; [reflexivity |].
  apply (pkce_challenge_shape (fun _ => repeat xff 32) "verifier"). reflexivity.
Defined.

End PkceFacts.
